(** * music-organizer: metadata resolution and duplicate tracking

    A shallow embedding of [music_organizer.py] (class
    [AdvancedMusicOrganizer]) together with the properties of its name
    sanitizer, its metadata resolver and its duplicate bookkeeping.

    Python [str] values are modelled as lists of characters ([list ascii]),
    a character being a code point below 256; the character classes used by
    the program ([str.isspace] and the regex class [\s], the regex class
    [\d], [str.isdigit], [str.lower]) are those of Python 3 on that range. *)

From Stdlib Require Import Ascii String ZArith Lia DecimalString DecimalNat.
From stdpp Require Import base option list strings gmap.

Local Open Scope char_scope.

(** ** Python strings *)

Abbreviation str := (list ascii).

(** A string literal of the program. *)
Definition lit (s : string) : str := String.list_ascii_of_string s.

Module Py.

Definition ord (c : ascii) : nat := nat_of_ascii c.

Definition between (lo hi n : nat) : bool := ((lo <=? n) && (n <=? hi))%nat.

(** [c.isspace()], which is also the regex class [\s] on [str] patterns. *)
Definition isspace (c : ascii) : bool :=
  let n := ord c in
  between 9 13 n || between 28 32 n || (n =? 133)%nat || (n =? 160)%nat.

(** The regex class [\d]: decimal digits. *)
Definition isdecimal (c : ascii) : bool := between 48 57 (ord c).

(** [c.isdigit()] for one character: the decimal digits and the
    superscript digits U+00B2, U+00B3, U+00B9. *)
Definition isdigit_char (c : ascii) : bool :=
  let n := ord c in
  between 48 57 n || (n =? 178)%nat || (n =? 179)%nat || (n =? 185)%nat.

(** [s.isdigit()]: every character is a digit and there is at least one. *)
Definition isdigit (s : str) : bool :=
  match s with
  | [] => false
  | _ => forallb isdigit_char s
  end.

Definition lower_char (c : ascii) : ascii :=
  let n := ord c in
  if between 65 90 n || (between 192 222 n && negb (n =? 215)%nat)
  then ascii_of_nat (n + 32) else c.

(** [s.lower()] *)
Definition lower (s : str) : str := map lower_char s.

(** Whether the first (last) character of [s] exists and satisfies [f]. *)
Definition head_is (f : ascii → bool) (s : str) : bool :=
  default false (f <$> head s).

Definition last_is (f : ascii → bool) (s : str) : bool :=
  default false (f <$> last s).

Fixpoint drop_while (f : ascii → bool) (s : str) : str :=
  match s with
  | [] => []
  | c :: t => if f c then drop_while f t else s
  end.

Definition lstrip_by (f : ascii → bool) (s : str) : str := drop_while f s.

Fixpoint rstrip_by (f : ascii → bool) (s : str) : str :=
  match s with
  | [] => []
  | c :: t =>
      match rstrip_by f t with
      | [] => if f c then [] else [c]
      | r => c :: r
      end
  end.

Definition strip_by (f : ascii → bool) (s : str) : str :=
  rstrip_by f (lstrip_by f s).

(** [s.strip()] *)
Definition strip (s : str) : str := strip_by isspace s.

Definition mem (chars : str) (c : ascii) : bool := bool_decide (c ∈ chars).

(** [s.strip(chars)] *)
Definition strip_chars (chars : str) (s : str) : str :=
  strip_by (mem chars) s.

(** [s.startswith(p)] *)
Fixpoint startswith (s p : str) {struct p} : bool :=
  match p, s with
  | [], _ => true
  | a :: p', b :: s' => bool_decide (a = b) && startswith s' p'
  | _ :: _, [] => false
  end.

(** [s.partition(sep)] when [sep] occurs in [s]: the text before and after
    its first occurrence. [None] when [sep] does not occur ([sep] is never
    empty in the program). *)
Fixpoint partition (sep s : str) : option (str * str) :=
  if startswith s sep then Some ([], drop (length sep) s)
  else match s with
       | [] => None
       | c :: t =>
           match partition sep t with
           | Some (l, r) => Some (c :: l, r)
           | None => None
           end
       end.

(** [sub in s] *)
Definition contains (sub s : str) : bool := bool_decide (is_Some (partition sub s)).

(** [s.split(sep)] for a non-empty [sep]: [cur] is the piece being read and
    [skip] the number of characters of a separator still to pass over. *)
Fixpoint split_go (sep : str) (cur : str) (skip : nat) (s : str) : list str :=
  match s with
  | [] => [cur]
  | c :: t =>
      match skip with
      | S k => split_go sep cur k t
      | O =>
          if startswith s sep
          then cur :: split_go sep [] (length sep - 1) t
          else split_go sep (cur ++ [c]) 0 t
      end
  end.

Definition split (sep s : str) : list str := split_go sep [] 0 s.

(** [re.sub(r'\s+', ' ', s)]: every maximal run of whitespace becomes one
    space; the space is written when the run ends. *)
Fixpoint sub_ws (s : str) : str :=
  match s with
  | [] => []
  | c :: t =>
      if isspace c then
        if head_is isspace t then sub_ws t
        else " " :: sub_ws t
      else c :: sub_ws t
  end.

(** [re.sub(r'^\d+\.?\s*[-.]?\s*', '', s)]: the pattern is anchored at the
    start and needs one digit; every later piece may match nothing, so the
    greedy match is the one taken. *)
Definition sub_track_prefix (s : str) : str :=
  if head_is isdecimal s then
    let s1 := drop_while isdecimal s in
    let s2 := match s1 with "." :: t => t | _ => s1 end in
    let s3 := drop_while isspace s2 in
    let s4 := match s3 with
              | c :: t => if mem (lit "-.") c then t else s3
              | [] => s3
              end in
    drop_while isspace s4
  else s.

(** Python truthiness of an optional string: neither [None] nor empty. *)
Definition truthy (o : option str) : bool :=
  match o with
  | Some (_ :: _) => true
  | _ => false
  end.

End Py.

(** ** Name sanitizer *)

(** The characters of the regex class of [clean_name]: the double quote
    (code 34) and [< > : / \ | ? *]. *)
Definition illegal_chars : str := "034" :: lit "<>:/\|?*".

(** [re.sub] of that class by the empty string. *)
Definition sub_illegal (s : str) : str := filter (λ c, c ∉ illegal_chars) s.

Definition Unknown : str := lit "Unknown".

(** [name or "Unknown"] *)
Definition or_unknown (name : str) : str :=
  match name with
  | [] => Unknown
  | _ => name
  end.

Definition clean_name (name : option str) : str :=
  if negb (Py.truthy name) then Unknown
  else
    let name := default [] name in
    let name := sub_illegal name in
    let name := Py.strip (Py.sub_ws name) in
    let name := Py.strip_chars (lit ".") name in
    or_unknown name.

(** ** Paths

    A [pathlib] path: its anchor (drive and root, empty for a relative path)
    and the names below it. *)

Record PurePath := mkPath { anchor : str; names : list str }.

Global Instance PurePath_eq_dec : EqDecision PurePath.
Proof. solve_decision. Defined.

(** [p.parts] *)
Definition parts (p : PurePath) : list str :=
  match anchor p with
  | [] => names p
  | a => a :: names p
  end.

(** [p.name]: the last name, empty when the path is only an anchor. *)
Definition name (p : PurePath) : str := default [] (last (names p)).

(** [s.rfind(c)] *)
Fixpoint rfind (ch : ascii) (s : str) : option nat :=
  match s with
  | [] => None
  | c :: t =>
      match rfind ch t with
      | Some i => Some (S i)
      | None => if bool_decide (c = ch) then Some 0 else None
      end
  end.

(** The position at which [pathlib] cuts a name into stem and suffix: that of
    the last dot, unless the dot is the first or the last character. *)
Definition suffix_pos (nm : str) : option nat :=
  match rfind "." nm with
  | Some i => if ((0 <? i) && (i <? length nm - 1))%nat then Some i else None
  | None => None
  end.

(** [p.stem] *)
Definition stem (p : PurePath) : str :=
  match suffix_pos (name p) with
  | Some i => take i (name p)
  | None => name p
  end.

(** [p.suffix] *)
Definition suffix (p : PurePath) : str :=
  match suffix_pos (name p) with
  | Some i => drop i (name p)
  | None => []
  end.

(** [sep.join(l)] *)
Fixpoint join (sep : str) (l : list str) : str :=
  match l with
  | [] => []
  | [x] => x
  | x :: rest => x ++ sep ++ join sep rest
  end.

(** [str(p)] for a POSIX path. *)
Definition posix_str (p : PurePath) : str :=
  match anchor p, names p with
  | [], [] => lit "."
  | a, ns => a ++ join (lit "/") ns
  end.

(** [p / x] for a name [x] that holds no separator. *)
Definition joinpath (p : PurePath) (x : str) : PurePath :=
  match x with
  | [] => p
  | _ => mkPath (anchor p) (names p ++ [x])
  end.

(** ** The organizer's data *)

(** The tuple returned by [read_metadata]. *)
Record Metadata := mkMetadata {
  meta_artist : option str;
  meta_album : option str;
  meta_title : option str;
  meta_genre : option str;
  meta_year : option str;
  bitrate : option Z
}.

(** The configuration values the organizer reads. *)
Record Config := mkConfig {
  cfg_analyze_quality : bool;
  cfg_find_near_duplicates : bool;
  cfg_skip_folders : str;
  cfg_manual_sort_folder : str
}.

(** The values written by [load_config] when there is no file. *)
Definition defaults : Config :=
  {| cfg_analyze_quality := true;
     cfg_find_near_duplicates := true;
     cfg_skip_folders := lit "System Volume Information, $RECYCLE.BIN, .Trash";
     cfg_manual_sort_folder := lit "Manual Sort Needed" |}.

(** The counters of [self.stats] that the scan and the report update; the
    counters of the copy phase and of artwork extraction are not part of the
    model. *)
Record Stats := mkStats {
  total_files : nat;
  duplicates_removed : nat;
  near_duplicates_found : nat;
  manual_sort : nat;
  metadata_parsed : nat
}.

Record Organizer := mkOrganizer {
  organized_path : PurePath;
  config : Config;
  duplicates : gmap str PurePath;
  near_duplicates : gmap str (list PurePath);
  quality_stats : gmap str nat;
  stats : Stats
}.

Definition set_duplicates (f : gmap str PurePath → gmap str PurePath)
    (self : Organizer) : Organizer :=
  mkOrganizer (organized_path self) (config self) (f (duplicates self))
    (near_duplicates self) (quality_stats self) (stats self).

Definition set_near_duplicates
    (f : gmap str (list PurePath) → gmap str (list PurePath))
    (self : Organizer) : Organizer :=
  mkOrganizer (organized_path self) (config self) (duplicates self)
    (f (near_duplicates self)) (quality_stats self) (stats self).

Definition set_quality_stats (f : gmap str nat → gmap str nat)
    (self : Organizer) : Organizer :=
  mkOrganizer (organized_path self) (config self) (duplicates self)
    (near_duplicates self) (f (quality_stats self)) (stats self).

Definition set_stats (f : Stats → Stats) (self : Organizer) : Organizer :=
  mkOrganizer (organized_path self) (config self) (duplicates self)
    (near_duplicates self) (quality_stats self) (f (stats self)).

Definition incr_total_files (s : Stats) : Stats :=
  mkStats (S (total_files s)) (duplicates_removed s) (near_duplicates_found s)
    (manual_sort s) (metadata_parsed s).

Definition incr_duplicates_removed (s : Stats) : Stats :=
  mkStats (total_files s) (S (duplicates_removed s)) (near_duplicates_found s)
    (manual_sort s) (metadata_parsed s).

Definition incr_manual_sort (s : Stats) : Stats :=
  mkStats (total_files s) (duplicates_removed s) (near_duplicates_found s)
    (S (manual_sort s)) (metadata_parsed s).

Definition incr_metadata_parsed (s : Stats) : Stats :=
  mkStats (total_files s) (duplicates_removed s) (near_duplicates_found s)
    (manual_sort s) (S (metadata_parsed s)).

(** [__init__]: empty tracking tables and zeroed counters. *)
Definition init (organized : PurePath) (cfg : Config) : Organizer :=
  mkOrganizer organized cfg ∅ ∅ ∅ (mkStats 0 0 0 0 0).

(** The tuple [(artist, album, track, genre, year)] returned by the resolver. *)
Definition Resolved : Type := str * str * str * option str * option str.

Definition r_artist (r : Resolved) : str := r.1.1.1.1.
Definition r_album (r : Resolved) : str := r.1.1.1.2.
Definition r_track (r : Resolved) : str := r.1.1.2.
Definition r_genre (r : Resolved) : option str := r.1.2.
Definition r_year (r : Resolved) : option str := r.2.

Definition Singles : str := lit "Singles".
Definition Manual_Sort_Needed : str := lit "Manual Sort Needed".

(** ** Quality statistics and near-duplicate groups *)

(** [d[key] += 1] on a [defaultdict(int)] *)
Definition incr (key : str) (d : gmap str nat) : gmap str nat :=
  <[key := S (default 0 (d !! key))]> d.

Definition analyze_quality (self : Organizer) (file_path : PurePath)
    (metadata : Metadata) : Organizer :=
  if negb (cfg_analyze_quality (config self)) then self
  else
    let format_ext := Py.lower (suffix file_path) in
    let self := set_quality_stats (incr (lit "format_" ++ format_ext)) self in
    match bitrate metadata with
    | Some b =>
        if (b =? 0)%Z then self
        else if (b <? 128)%Z then set_quality_stats (incr (lit "low_quality")) self
        else if (320 <=? b)%Z then set_quality_stats (incr (lit "high_quality")) self
        else set_quality_stats (incr (lit "medium_quality")) self
    | None => self
    end.

(** The key under which [check_near_duplicates] files a tagged track. *)
Definition near_key (artist title : str) : str :=
  Py.lower artist ++ lit "_" ++ Py.lower title.

(** [d[key].append(x)] on a [defaultdict(list)] *)
Definition append_to (key : str) (x : PurePath)
    (d : gmap str (list PurePath)) : gmap str (list PurePath) :=
  <[key := default [] (d !! key) ++ [x]]> d.

Definition check_near_duplicates (self : Organizer) (file_path : PurePath)
    (metadata : Metadata) : Organizer :=
  if negb (cfg_find_near_duplicates (config self)) then self
  else
    let artist := meta_artist metadata in
    let title := meta_title metadata in
    if Py.truthy artist && Py.truthy title then
      let key := near_key (default [] artist) (default [] title) in
      set_near_duplicates (append_to key file_path) self
    else self.

(** ** Metadata resolver *)

Definition common_words : list str :=
  map lit ["the"; "a"; "an"; "and"; "or"; "but"; "in"; "on"; "at";
           "to"; "for"; "of"; "with"; "by"; "they"; "these"; "this";
           "that"; "i"; "you"; "we"; "my"; "your"; "his"; "her"]%string.

Definition sentinel (filename : str) : Resolved :=
  (Manual_Sort_Needed, [], clean_name (Some filename), None, None).

Definition parse_filename_only (file_path : PurePath) : Resolved :=
  let filename := stem file_path in
  let clean_filename := Py.sub_track_prefix filename in
  match Py.partition (lit " - ") clean_filename with
  | Some (part0, part1) =>
      let potential_artist := Py.strip part0 in
      let potential_track := Py.strip part1 in
      if (2 <=? length potential_artist)%nat
         && (2 <=? length potential_track)%nat
         && negb (bool_decide (Py.lower potential_artist ∈ common_words))
         && negb (Py.isdigit potential_artist)
      then (clean_name (Some potential_artist), Singles,
            clean_name (Some potential_track), None, None)
      else sentinel filename
  | None => sentinel filename
  end.

(** The names added to the configured skip set by [parse_from_path]. *)
Definition junk_folders : list str :=
  map lit ["mp3s"; "new mp3s"; "Amazon MP3"; "Google Music Downloads";
           "Converted Music"; "misc"; "Various"; "Unknown Artist"]%string.

(** [config.get('FOLDERS', 'skip_folders').split(', ')] *)
Definition skip_entries (cfg : Config) : list str :=
  Py.split (lit ", ") (cfg_skip_folders cfg).

(** The set [skip_folders] of [parse_from_path]. *)
Definition skip_set (cfg : Config) : gset str :=
  list_to_set (skip_entries cfg) ∪ list_to_set junk_folders.

(** The index of the first part equal to the anchor name, [None] for -1. *)
Definition music_index (path_parts : list str) : option nat :=
  fst <$> list_find (λ part, part = lit "Music") path_parts.

(** [path_parts[i + 1:-1]] *)
Definition slice_after (i : nat) (path_parts : list str) : list str :=
  drop (S i) (take (length path_parts - 1) path_parts).

Definition keep_dir (cfg : Config) (d : str) : Prop :=
  (d ∉ skip_set cfg) ∧ Py.startswith d (lit "Part") = false.

Global Instance keep_dir_dec cfg d : Decision (keep_dir cfg d).
Proof. unfold keep_dir. apply _. Defined.

Definition dirs_after_music (cfg : Config) (i : nat) (path_parts : list str)
    : list str :=
  filter (keep_dir cfg) (slice_after i path_parts).

Definition parse_from_path (cfg : Config) (file_path : PurePath) : Resolved :=
  let path_parts := parts file_path in
  match music_index path_parts with
  | None => parse_filename_only file_path
  | Some i =>
      match dirs_after_music cfg i path_parts with
      | artist :: rest =>
          let album := default Singles (head rest) in
          let track := Py.sub_track_prefix (stem file_path) in
          (clean_name (Some artist), clean_name (Some album),
           clean_name (Some track), None, None)
      | [] => parse_filename_only file_path
      end
  end.

Section Resolver.

(** The tag reader [read_metadata], an external collaborator: every field
    [None] when the file cannot be read. *)
Variable read_metadata : PurePath → Metadata.

(** The condition of the tag tier. *)
Definition usable_artist (metadata : Metadata) : bool :=
  Py.truthy (meta_artist metadata)
  && (1 <? length (Py.strip (default [] (meta_artist metadata))))%nat.

(** [parse_metadata]; artwork extraction, which only writes [folder.jpg]
    and its own counter, is left out. *)
Definition parse_metadata (self : Organizer) (file_path : PurePath)
    : Resolved * Organizer :=
  let metadata := read_metadata file_path in
  let self := analyze_quality self file_path metadata in
  let self := check_near_duplicates self file_path metadata in
  if usable_artist metadata then
    let self := set_stats incr_metadata_parsed self in
    let artist := clean_name (meta_artist metadata) in
    let album := if Py.truthy (meta_album metadata)
                 then clean_name (meta_album metadata) else Singles in
    let track := if Py.truthy (meta_title metadata)
                 then clean_name (meta_title metadata)
                 else clean_name (Some (stem file_path)) in
    ((artist, album, track, meta_genre metadata, meta_year metadata), self)
  else (parse_from_path (config self) file_path, self).

End Resolver.

(** ** File enumeration *)

(** One result of [music_path.rglob('*')]. *)
Record DirEntry := mkEntry { entry_path : PurePath; is_file : bool }.

Definition music_extensions : list str :=
  map lit [".mp3"; ".m4a"; ".flac"; ".wav"; ".aac"; ".ogg"; ".wma"]%string.

Section Enumeration.

(** [str(file_path)], which depends on the platform's path flavour. *)
Variable path_str : PurePath → str.

(** [any(skip in str(file_path) for skip in skip_folders)] *)
Definition in_skipped_folder (cfg : Config) (file_path : PurePath) : bool :=
  existsb (λ skip, Py.contains skip (path_str file_path)) (skip_entries cfg).

Fixpoint get_all_music_files (cfg : Config) (rglob : list DirEntry)
    : list PurePath :=
  match rglob with
  | [] => []
  | e :: rest =>
      let file_path := entry_path e in
      if in_skipped_folder cfg file_path then get_all_music_files cfg rest
      else if is_file e
              && bool_decide (Py.lower (suffix file_path) ∈ music_extensions)
      then file_path :: get_all_music_files cfg rest
      else get_all_music_files cfg rest
  end.

End Enumeration.

(** ** The scan of [organize] and the near-duplicate report *)

(** One entry of [organized_files]. *)
Record FileInfo := mkFileInfo {
  original_path : PurePath;
  fi_artist : str;
  fi_album : str;
  fi_track : str;
  fi_genre : option str;
  fi_year : option str;
  filename : str;
  target_dir : PurePath
}.

(** [organized_files]: plan key to the entries bound for one directory. *)
Abbreviation Plan := (gmap str (list FileInfo)).

(** The surplus added to [near_duplicates_found] by the loop of
    [generate_reports] over the groups. *)
Definition count_group (files : list PurePath) (found : nat) : nat :=
  if bool_decide (1 < length files) then found + (length files - 1) else found.

Definition generate_reports (self : Organizer) : Organizer :=
  if cfg_find_near_duplicates (config self) then
    set_stats (λ s,
      mkStats (total_files s) (duplicates_removed s)
        (map_fold (λ _ files found, count_group files found)
           (near_duplicates_found s) (near_duplicates self))
        (manual_sort s) (metadata_parsed s)) self
  else self.

Section Organize.

Variable read_metadata : PurePath → Metadata.

(** The bytes of a file, [None] when opening or reading it raises. *)
Variable read_bytes : PurePath → option (list Byte.byte).

(** [hashlib.md5(data).hexdigest()] *)
Variable md5_hexdigest : list Byte.byte → str.

Definition get_file_hash (file_path : PurePath) : option str :=
  md5_hexdigest <$> read_bytes file_path.

(** The body of the loop over [all_files]. *)
Definition scan_file (st : Organizer * Plan) (file_path : PurePath)
    : Organizer * Plan :=
  let self := set_stats incr_total_files st.1 in
  let organized_files := st.2 in
  let file_hash := get_file_hash file_path in
  if negb (Py.truthy file_hash) then (self, organized_files)
  else
    let file_hash := default [] file_hash in
    match duplicates self !! file_hash with
    | Some _ => (set_stats incr_duplicates_removed self, organized_files)
    | None =>
        let self := set_duplicates (insert file_hash file_path) self in
        let res := parse_metadata read_metadata self file_path in
        let r := res.1 in
        let self := res.2 in
        let manual_sort_dir :=
          joinpath (organized_path self) (cfg_manual_sort_folder (config self)) in
        let manual := bool_decide (r_artist r = Manual_Sort_Needed) in
        let key := if manual then lit "Manual Sort Needed/"
                   else r_artist r ++ lit "/" ++ r_album r in
        let self := if manual then set_stats incr_manual_sort self else self in
        let target_dir :=
          if manual then manual_sort_dir
          else joinpath (joinpath (organized_path self) (r_artist r)) (r_album r) in
        let info := mkFileInfo file_path (r_artist r) (r_album r) (r_track r)
                      (r_genre r) (r_year r) (name file_path) target_dir in
        (self,
         <[key := default [] (organized_files !! key) ++ [info]]> organized_files)
    end.

Definition scan (self : Organizer) (all_files : list PurePath)
    : Organizer * Plan :=
  foldl scan_file (self, ∅) all_files.

(** [organize] up to the report; [proceed] is the answer of
    [interactive_preview]. The copy phase works on the file system only. *)
Definition organize (self : Organizer) (all_files : list PurePath)
    (proceed : bool) : Organizer * Plan :=
  let st := scan self all_files in
  if proceed then (generate_reports st.1, st.2) else st.

(** The source paths that appear in a plan. *)
Definition planned (plan : Plan) (file_path : PurePath) : Prop :=
  ∃ key infos info,
    plan !! key = Some infos ∧ info ∈ infos ∧ original_path info = file_path.

End Organize.

Definition no_tags : Metadata := mkMetadata None None None None None None.

(** ** Vocabulary of the statements *)

Definition is_dot (c : ascii) : bool := Py.mem (lit ".") c.

(** Whitespace occurs in [s] only as single spaces: every whitespace
    character is a space and is not followed by whitespace. *)
Fixpoint ws_collapsed (s : str) : bool :=
  match s with
  | [] => true
  | c :: t =>
      (if Py.isspace c
       then bool_decide (c = " ") && negb (Py.head_is Py.isspace t)
       else true)
      && ws_collapsed t
  end.

(** The sanitizer as the specification words it: illegal characters removed,
    whitespace runs collapsed to one space, leading and trailing whitespace
    and trailing dots trimmed, and the fallback for an empty result. *)
Definition sanitize_spec (raw : option str) : str :=
  let s := Py.sub_ws (sub_illegal (default [] raw)) in
  let s := Py.rstrip_by (λ c, Py.isspace c || is_dot c)
             (Py.lstrip_by Py.isspace s) in
  or_unknown s.

(** The acceptance test of the filename tier, on the two sides of the split:
    both trim to at least two characters, the trimmed left side is no stop
    word once lowercased, and is not purely numeric. *)
Definition accepted (part0 part1 : str) : Prop :=
  2 ≤ length (Py.strip part0)
  ∧ 2 ≤ length (Py.strip part1)
  ∧ (Py.lower (Py.strip part0) ∉ common_words)
  ∧ Py.isdigit (Py.strip part0) = false.

(** ** Sample inputs *)

Definition path_daft_punk : PurePath :=
  mkPath [] [lit "Daft Punk - One More Time.mp3"].

Definition path_the_something : PurePath :=
  mkPath [] [lit "The - Something.mp3"].

Definition path_track07 : PurePath := mkPath [] [lit "track07.mp3"].

Definition path_pink_floyd : PurePath :=
  mkPath (lit "/") [lit "home"; lit "Music"; lit "Pink Floyd"; lit "The Wall";
                    lit "01 - Another Brick.mp3"].

Definition queen_tags : Metadata :=
  mkMetadata (Some (lit "Queen")) (Some (lit "A Night at the Opera"))
    (Some (lit "Bohemian Rhapsody")) None None None.

Definition empty_skip : Config := mkConfig true true [] (lit "Manual Sort Needed").

Definition out_dir : PurePath := mkPath (lit "/") [lit "Music_Organized"].

Definition path_manual_folder : PurePath :=
  mkPath (lit "/") [lit "Music"; lit "Manual Sort Needed"; lit "x.mp3"].

Definition path_trash : PurePath :=
  mkPath [] [lit "Music"; lit ".Trash-1000"; lit "Artist"; lit "song.mp3"].

Definition entry_trash : DirEntry :=
  mkEntry (mkPath (lit "/") [lit "Music"; lit ".Trash-1000"; lit "song.mp3"]) true.

Definition entry_song : DirEntry :=
  mkEntry (mkPath (lit "/") [lit "Music"; lit "Queen"; lit "song.mp3"]) true.

Definition acdc_tags : Metadata :=
  mkMetadata (Some (lit "AC/DC")) None (Some (lit "T.N.T.")) None None None.

(** What a group adds to the near-duplicate counter: its surplus over one
    file, nothing for a group of one. *)
Definition group_surplus (files : list PurePath) : nat :=
  if bool_decide (1 < length files) then length files - 1 else 0.

(** The counter after the report. *)
Definition reported (self : Organizer) : nat :=
  near_duplicates_found (stats (generate_reports self)).

(** Two files with the same bytes, and a stand-in digest for running the
    scan on them. *)
Definition file_a : PurePath := mkPath (lit "/") [lit "in"; lit "a.mp3"].
Definition file_b : PurePath := mkPath (lit "/") [lit "in"; lit "b.mp3"].

Definition sample_bytes (p : PurePath) : option (list Byte.byte) :=
  if decide (p = file_a ∨ p = file_b) then Some [Byte.x01; Byte.x02] else None.

Definition sample_digest (data : list Byte.byte) : str :=
  lit "d" ++ map ascii_of_byte data.

(** A call of the loop body passes the file by when its hash cannot be
    computed or is already in the index. *)
Definition skipped (hash : option str) (index : gmap str PurePath) : Prop :=
  Py.truthy hash = false ∨ ∃ h, hash = Some h ∧ is_Some (index !! h).

(** Every member of a near-duplicate group went through the index and the
    plan; [hash_of] is the hash function of the run. *)
Definition survivors_only (hash_of : PurePath → option str)
    (st : Organizer * Plan) : Prop :=
  ∀ key group q,
    near_duplicates st.1 !! key = Some group → q ∈ group →
    planned st.2 q
    ∧ ∃ h, hash_of q = Some h ∧ h ≠ [] ∧ duplicates st.1 !! h = Some q.

(** [s] is [rest] behind a track-number prefix: digits, an optional dot, an
    optional [-] or [.] separator, with optional whitespace before and after
    the separator. *)
Definition track_prefixed (s rest : str) : Prop :=
  ∃ digits dot w1 sep w2 : str,
    s = digits ++ dot ++ w1 ++ sep ++ w2 ++ rest
    ∧ digits ≠ [] ∧ Forall (λ c, Py.isdecimal c = true) digits
    ∧ (dot = [] ∨ dot = lit ".")
    ∧ Forall (λ c, Py.isspace c = true) w1
    ∧ (sep = [] ∨ sep = lit "-" ∨ sep = lit ".")
    ∧ Forall (λ c, Py.isspace c = true) w2.

(** ** Further vocabulary *)

(** A name that is safe as one path component: no illegal character (no
    separator in particular) and no dot at either end. *)
Definition safe_name (s : str) : Prop :=
  Forall (λ c, c ∉ illegal_chars) s
  ∧ Py.head_is is_dot s = false
  ∧ Py.last_is is_dot s = false.

(** The quality bucket of a bit rate, as [analyze_quality] picks it. *)
Definition quality_bucket (b : Z) : str :=
  if (b <? 128)%Z then lit "low_quality"
  else if (320 <=? b)%Z then lit "high_quality"
  else lit "medium_quality".

Definition mp3_128 : Metadata := mkMetadata None None None None None (Some 128%Z).

(** The number of plan entries that satisfy [P], over all keys. *)
Definition plan_count (P : FileInfo → Prop) `{!∀ info, Decision (P info)}
    (plan : Plan) : nat :=
  map_fold (λ _ infos n, n + length (filter P infos)) 0 plan.

(** The key under which the manual-sort files are planned. *)
Definition manual_key : str := lit "Manual Sort Needed/".

(** The plan key and the target directory that the loop of [organize]
    derives from a resolver result. *)
Definition plan_key (r : Resolved) : str :=
  if bool_decide (r_artist r = Manual_Sort_Needed) then manual_key
  else r_artist r ++ lit "/" ++ r_album r.

Definition plan_dir (organized : PurePath) (cfg : Config) (r : Resolved)
    : PurePath :=
  if bool_decide (r_artist r = Manual_Sort_Needed)
  then joinpath organized (cfg_manual_sort_folder cfg)
  else joinpath (joinpath organized (r_artist r)) (r_album r).

(** A plan entry under [key] is what the loop builds for its file: the
    resolver's answer, the file's name, and the key and directory derived
    from that answer. *)
Definition entry_consistent (rm : PurePath → Metadata) (self : Organizer)
    (key : str) (info : FileInfo) : Prop :=
  let r := (parse_metadata rm self (original_path info)).1 in
  (fi_artist info, fi_album info, fi_track info, fi_genre info, fi_year info) = r
  ∧ filename info = name (original_path info)
  ∧ key = plan_key r
  ∧ target_dir info = plan_dir (organized_path self) (config self) r.

(** The plan and the duplicate index hold the same files: every planned file
    is the index entry of its own hash, and every index entry is planned. *)
Definition plan_is_index (hash_of : PurePath → option str)
    (st : Organizer * Plan) : Prop :=
  (∀ q, planned st.2 q →
        ∃ h, hash_of q = Some h ∧ duplicates st.1 !! h = Some q)
  ∧ (∀ h q, duplicates st.1 !! h = Some q →
            planned st.2 q ∧ hash_of q = Some h).

(** Every entry of the plan is consistent with the resolver, for the
    organizer [self] the scan started from. *)
Definition plan_consistent (rm : PurePath → Metadata) (self : Organizer)
    (plan : Plan) : Prop :=
  ∀ key infos info,
    plan !! key = Some infos → info ∈ infos → entry_consistent rm self key info.

(** Every member of a group carries tags that give the group's key. *)
Definition groups_keyed (rm : PurePath → Metadata)
    (groups : gmap str (list PurePath)) : Prop :=
  ∀ key group q,
    groups !! key = Some group → q ∈ group →
    ∃ artist title,
      meta_artist (rm q) = Some artist ∧ meta_title (rm q) = Some title
      ∧ artist ≠ [] ∧ title ≠ [] ∧ key = near_key artist title.

(** The plan entry of [file_a] when it has no tags and the default
    configuration is used. *)
Definition info_a : FileInfo :=
  mkFileInfo file_a (lit "Manual Sort Needed") (lit "") (lit "a") None None
    (lit "a.mp3")
    (mkPath (lit "/") [lit "Music_Organized"; lit "Manual Sort Needed"]).

(** ** Placement: free target names *)

Global Instance PurePath_countable : Countable PurePath.
Proof.
  apply (inj_countable' (λ p, (anchor p, names p)) (λ t, mkPath t.1 t.2)).
  by intros [].
Defined.

(** [str(n)] for a counter. *)
Definition decimal (n : nat) : str :=
  lit (NilEmpty.string_of_uint (Nat.to_uint n)).

(** [f"{stem}_{counter}{suffix}"] *)
Definition numbered_name (original_path : PurePath) (counter : nat) : str :=
  stem original_path ++ lit "_" ++ decimal counter ++ suffix original_path.

(** The loop [while target_file.exists()] of the copy phase, over the set
    [fs] of the paths that exist; [fuel] bounds the number of tests. *)
Fixpoint free_target (fuel : nat) (fs : gset PurePath)
    (target_dir original_path target_file : PurePath) (counter : nat)
    : option PurePath :=
  match fuel with
  | 0 => None
  | S fuel' =>
      if bool_decide (target_file ∈ fs)
      then free_target fuel' fs target_dir original_path
             (joinpath target_dir (numbered_name original_path counter))
             (S counter)
      else Some target_file
  end.

(** The loop from its start, [target_dir / filename] and counter 1, with
    tests enough for the paths that exist. *)
Definition resolve_collision (fs : gset PurePath)
    (target_dir original_path : PurePath) (filename : str) : option PurePath :=
  free_target (size fs + 2) fs target_dir original_path
    (joinpath target_dir filename) 1.

(** The candidates in the order the loop tries them. *)
Definition candidate (target_dir original_path : PurePath) (filename : str)
    (i : nat) : PurePath :=
  match i with
  | 0 => joinpath target_dir filename
  | S _ => joinpath target_dir (numbered_name original_path i)
  end.

Section CopyPhase.

(** Whether [shutil.copy2(source, target)] raises; a copy that raises is
    taken to leave no file behind. *)
Variable copy2_raises : PurePath → PurePath → bool.

(** The loop over the files of one plan group, after its directory was made:
    the paths that exist afterwards, the files copied with their
    [target_path], the counter [organized], and whether a copy raised and
    ended the loop. [None] stands for a name search that ran out of tests. *)
Fixpoint copy_group (target_dir : PurePath) (files : list FileInfo)
    (fs : gset PurePath) (organized : nat)
    : option (gset PurePath * list (FileInfo * PurePath) * nat * bool) :=
  match files with
  | [] => Some (fs, [], organized, false)
  | file_info :: rest =>
      match resolve_collision fs target_dir (original_path file_info)
              (filename file_info) with
      | None => None
      | Some target_file =>
          if copy2_raises (original_path file_info) target_file
          then Some (fs, [], organized, true)
          else
            match copy_group target_dir rest ({[target_file]} ∪ fs)
                    (S organized) with
            | Some (fs', placed, n, raised) =>
                Some (fs', (file_info, target_file) :: placed, n, raised)
            | None => None
            end
      end
  end.

End CopyPhase.

Definition song_in (d : str) : PurePath := mkPath [] [d; lit "song.mp3"].

Definition song_info (d : str) : FileInfo :=
  mkFileInfo (song_in d) (lit "Queen") (lit "Singles") (lit "song") None None
    (lit "song.mp3") (mkPath [] [lit "Queen"; lit "Singles"]).

(** ** The boundary fingerprint *)

Section Fingerprint.

Variable md5_hexdigest : list Byte.byte → str.

(** [get_audio_fingerprint] on the bytes of the file, [None] when it cannot
    be read. Seeking 1024 bytes back from the end raises on a shorter file,
    and every exception gives [None]. *)
Definition get_audio_fingerprint (data : option (list Byte.byte))
    : option str :=
  match data with
  | None => None
  | Some bytes =>
      if (length bytes <? 1024)%nat then None
      else
        let start := take 1024 bytes in
        let end_ := drop (length bytes - 1024) bytes in
        Some (decimal (length bytes) ++ lit "_"
              ++ take 8 (md5_hexdigest (start ++ end_)))
  end.

End Fingerprint.

Definition block (b : Byte.byte) : list Byte.byte := replicate 1024 b.

(** ** Tag reading *)

(** A value of the tag library as [read_metadata] uses it: its truth value
    and its [str]. *)
Record TagText := mkTagText { tag_truthy : bool; tag_str : str }.

(** What is stored under a tag: one value or a list of values. *)
Inductive TagValue :=
  | Single (v : TagText)
  | Several (vs : list TagText).

(** The opened file, read as a dictionary from tag names to values, with the
    bit rate of its [info]. *)
Record AudioFile := mkAudioFile {
  audio_tags : gmap str TagValue;
  info_bitrate : Z
}.

(** The tag names of [tag_mappings], in their order; the fourth name of each
    field starts with the character of code 169. *)
Definition artist_tags : list str :=
  [lit "TPE1"; lit "ARTIST"; lit "artist"; "169" :: lit "ART"].
Definition album_tags : list str :=
  [lit "TALB"; lit "ALBUM"; lit "album"; "169" :: lit "alb"].
Definition title_tags : list str :=
  [lit "TIT2"; lit "TITLE"; lit "title"; "169" :: lit "nam"].
Definition genre_tags : list str :=
  [lit "TCON"; lit "GENRE"; lit "genre"; "169" :: lit "gen"].
Definition year_tags : list str :=
  [lit "TDRC"; lit "DATE"; lit "date"; "169" :: lit "day"; lit "TYER"].

(** The text taken from a stored value, if any: the first item of a
    non-empty list or the value itself, when it is truthy. *)
Definition usable_text (value : TagValue) : option str :=
  match value with
  | Single v | Several (v :: _) => if tag_truthy v then Some (tag_str v) else None
  | Several [] => None
  end.

(** The inner loop over the tag names of one field: the first tag that is in
    the file with a usable value ends the loop. *)
Fixpoint first_tag (audio_file : gmap str TagValue) (tag_names : list str)
    : option str :=
  match tag_names with
  | [] => None
  | tag :: rest =>
      match audio_file !! tag with
      | Some value =>
          match usable_text value with
          | Some text => Some text
          | None => first_tag audio_file rest
          end
      | None => first_tag audio_file rest
      end
  end.

(** [read_metadata] on what the tag library opened: [None] when the library
    is missing, opens nothing or raises. *)
Definition read_metadata_of (audio_file : option AudioFile) : Metadata :=
  match audio_file with
  | None => mkMetadata None None None None None None
  | Some f =>
      mkMetadata (first_tag (audio_tags f) artist_tags)
        (first_tag (audio_tags f) album_tags)
        (first_tag (audio_tags f) title_tags)
        (first_tag (audio_tags f) genre_tags)
        (take 4 <$> first_tag (audio_tags f) year_tags)
        (Some (info_bitrate f))
  end.

Definition flac_1999 : AudioFile :=
  mkAudioFile
    {[ lit "DATE" := Several [mkTagText true (lit "1999-05-17")];
       lit "TDRC" := Several [] ]} 900.

(** ** Adding new music: [add_new_music.py] *)

Module AddNewMusic.

(** The suffixes that [add_new_music] takes for music. *)
Definition music_extensions : list str :=
  map lit [".mp3"; ".m4a"; ".flac"; ".wav"; ".aac"; ".ogg"]%string.

(** The test on an entry of [rglob], in both loops. *)
Definition is_music (e : DirEntry) : bool :=
  is_file e
  && bool_decide (Py.lower (suffix (entry_path e)) ∈ music_extensions).

(** [parse_metadata]: artist and album from the last two directories. *)
Definition parse_metadata (file_path : PurePath) : str * str :=
  let path_parts := parts file_path in
  let n := length path_parts in
  let raw :=
    if (3 <=? n)%nat
    then (default [] (path_parts !! (n - 3)), default [] (path_parts !! (n - 2)))
    else if (2 <=? n)%nat
    then (default [] (path_parts !! (n - 2)), lit "Singles")
    else
      match Py.partition (lit " - ") (stem file_path) with
      | Some (artist, _) => (artist, lit "Singles")
      | None => (lit "Various Artists", lit "Unsorted")
      end in
  (Py.strip (sub_illegal raw.1), Py.strip (sub_illegal raw.2)).

(** [p / x] for a name [x] without separator: [pathlib] drops the empty name
    and the name [.]. *)
Definition subdir (p : PurePath) (x : str) : PurePath :=
  if bool_decide (x = lit ".") then p else joinpath p x.

(** [organized_path / artist / album] *)
Definition target_dir_of (organized_path file_path : PurePath) : PurePath :=
  let '(artist, album) := parse_metadata file_path in
  subdir (subdir organized_path artist) album.

(** The directories that [mkdir(parents=True)] leaves behind: the path and
    every path above it. *)
Definition ancestors (p : PurePath) : list PurePath :=
  (λ k, mkPath (anchor p) (take k (names p))) <$> seq 0 (S (length (names p))).

(** The state of a run: the hash set (a Python set that can hold [None]),
    the three counters of [stats], the paths that exist, and the files added
    with their targets, in the order of the [Added:] lines. *)
Record Run := mkRun {
  existing_hashes : gset (option str);
  processed : nat;
  added : nat;
  skipped_duplicates : nat;
  paths : gset PurePath;
  additions : list (PurePath * PurePath)
}.

Section Loop.

Variable read_bytes : PurePath → option (list Byte.byte).
Variable md5_hexdigest : list Byte.byte → str.

(** Whether [target_dir.mkdir(parents=True, exist_ok=True)] raises, given
    the paths that exist; nothing catches it. *)
Variable mkdir_raises : gset PurePath → PurePath → bool.

(** Whether [shutil.copy2(source, target)] raises; a copy that raises is
    taken to leave no file behind. *)
Variable copy2_raises : PurePath → PurePath → bool.

Definition get_file_hash (file_path : PurePath) : option str :=
  md5_hexdigest <$> read_bytes file_path.

(** The body of the loop over the organized collection. *)
Definition index_file (hashes : gset (option str)) (e : DirEntry)
    : gset (option str) :=
  if is_music e then
    let file_hash := get_file_hash (entry_path e) in
    if Py.truthy file_hash then {[file_hash]} ∪ hashes else hashes
  else hashes.

(** The body of the loop over the new files; [None] is the exception of
    [mkdir], which ends the program, or a name search out of tests. *)
Definition add_file (organized_path : PurePath) (st : Run) (e : DirEntry)
    : option Run :=
  if is_music e then
    let file_path := entry_path e in
    let file_hash := get_file_hash file_path in
    if bool_decide (file_hash ∈ existing_hashes st) then
      Some (mkRun (existing_hashes st) (S (processed st)) (added st)
              (S (skipped_duplicates st)) (paths st) (additions st))
    else
      let target_dir := target_dir_of organized_path file_path in
      if mkdir_raises (paths st) target_dir then None
      else
        let made := list_to_set (ancestors target_dir) ∪ paths st in
        match resolve_collision made target_dir file_path (name file_path) with
        | None => None
        | Some target_file =>
            if copy2_raises file_path target_file then
              Some (mkRun (existing_hashes st) (S (processed st)) (added st)
                      (skipped_duplicates st) made (additions st))
            else
              Some (mkRun ({[file_hash]} ∪ existing_hashes st)
                      (S (processed st)) (S (added st))
                      (skipped_duplicates st) ({[target_file]} ∪ made)
                      (additions st ++ [(file_path, target_file)]))
        end
  else Some st.

Fixpoint add_files (organized_path : PurePath) (st : Run)
    (entries : list DirEntry) : option Run :=
  match entries with
  | [] => Some st
  | e :: rest =>
      match add_file organized_path st e with
      | Some st' => add_files organized_path st' rest
      | None => None
      end
  end.

(** [add_new_music] over the paths [fs] that exist and the entries that the
    two [rglob] loops receive; without the organized folder nothing is
    done. *)
Definition add_new_music (fs : gset PurePath) (organized_path : PurePath)
    (organized_rglob source_rglob : list DirEntry) : option Run :=
  if bool_decide (organized_path ∈ fs) then
    add_files organized_path
      (mkRun (foldl index_file ∅ organized_rglob) 0 0 0 fs [])
      source_rglob
  else Some (mkRun ∅ 0 0 0 fs []).

End Loop.

End AddNewMusic.

(** The text [s] is what the first tag of [tag_names] with a usable value
    holds: the tag at some position has it, and no tag before that position
    is in the file with a usable value. *)
Definition first_usable (audio_file : gmap str TagValue)
    (tag_names : list str) (s : str) : Prop :=
  ∃ i tag value,
    tag_names !! i = Some tag
    ∧ audio_file !! tag = Some value
    ∧ usable_text value = Some s
    ∧ ∀ j tag', j < i → tag_names !! j = Some tag' →
                audio_file !! tag' ≫= usable_text = None.

(** Two new files that cannot be read. *)
Definition locked_a : DirEntry :=
  mkEntry (mkPath [] [lit "new"; lit "Queen"; lit "Jazz"; lit "a.mp3"]) true.
Definition locked_b : DirEntry :=
  mkEntry (mkPath [] [lit "new"; lit "Queen"; lit "Jazz"; lit "b.mp3"]) true.

(** The run over the two unreadable files, into an empty collection. *)
Definition locked_run : AddNewMusic.Run :=
  default (AddNewMusic.mkRun ∅ 0 0 0 ∅ [])
    (AddNewMusic.add_new_music (λ _, None) sample_digest (λ _ _, false)
       (λ _ _, false) {[out_dir]} out_dir [] [locked_a; locked_b]).

(** ** The copy phase and the playlists *)

(** A plan entry after the copy phase: [target_path] is there only for a
    file that was copied. *)
Record Placed := mkPlaced {
  placed_info : FileInfo;
  target_path : option PurePath
}.

(** The entries of a group after its loop: the copied files carry their
    target, the files from the first failed copy on carry none. *)
Definition mark_group (files : list FileInfo)
    (copied : list (FileInfo * PurePath)) : list Placed :=
  ((λ c, mkPlaced c.1 (Some c.2)) <$> copied)
  ++ ((λ info, mkPlaced info None) <$> drop (length copied) files).

(** The counters of the copy phase, the paths that exist, and the plan
    entries in the order of the plan. *)
Record CopyState := mkCopyState {
  cs_paths : gset PurePath;
  cs_organized : nat;
  cs_folders_created : nat;
  cs_errors : nat;
  cs_entries : list Placed
}.

Section CopyGroups.

(** Whether [target_dir.mkdir(parents=True, exist_ok=True)] raises, given
    the paths that exist; a [mkdir] that raises is taken to make nothing,
    and so is a copy that raises. *)
Variable mkdir_raises : gset PurePath → PurePath → bool.
Variable copy2_raises : PurePath → PurePath → bool.

(** The loop over [organized_files.items()], given as the list of its
    items. An exception in a group is recorded and ends that group only;
    [None] stands for a group without files, whose [files[0]] raises outside
    the [try], or for a name search out of tests. *)
Fixpoint copy_groups (groups : list (str * list FileInfo)) (st : CopyState)
    : option CopyState :=
  match groups with
  | [] => Some st
  | (artist_album, files) :: rest =>
      match files with
      | [] => None
      | first :: _ =>
          let target_dir := target_dir first in
          if mkdir_raises (cs_paths st) target_dir then
            copy_groups rest
              (mkCopyState (cs_paths st) (cs_organized st)
                 (cs_folders_created st) (S (cs_errors st))
                 (cs_entries st ++ mark_group files []))
          else
            let made :=
              list_to_set (AddNewMusic.ancestors target_dir) ∪ cs_paths st in
            let folders_created :=
              if bool_decide (artist_album ≠ manual_key)
              then S (cs_folders_created st) else cs_folders_created st in
            match copy_group copy2_raises target_dir files made
                    (cs_organized st) with
            | None => None
            | Some (fs', copied, organized, raised) =>
                copy_groups rest
                  (mkCopyState fs' organized folders_created
                     (if raised then S (cs_errors st) else cs_errors st)
                     (cs_entries st ++ mark_group files copied))
            end
      end
  end.

End CopyGroups.

(** The switches of [create_playlists] and the section [PLAYLISTS], as
    [getboolean] and [getint] read them. *)
Record PlaylistConfig := mkPlaylistConfig {
  cfg_create_playlists : bool;
  cfg_create_by_genre : bool;
  cfg_create_by_year : bool;
  cfg_create_by_artist : bool;
  cfg_min_songs : Z
}.

(** A [defaultdict(list)] with its keys in insertion order. *)
Abbreviation Grouping := (list (str * list Placed)).

(** [d[key].append(x)] *)
Fixpoint append_at (key : str) (x : Placed) (d : Grouping) : Grouping :=
  match d with
  | [] => [(key, [x])]
  | (k, xs) :: rest =>
      if decide (k = key) then (k, xs ++ [x]) :: rest
      else (k, xs) :: append_at key x rest
  end.

(** The body of the grouping loop. *)
Definition group_visit (acc : Grouping * Grouping * Grouping)
    (file_info : Placed) : Grouping * Grouping * Grouping :=
  let '(by_genre, by_year, by_artist) := acc in
  let by_genre :=
    if Py.truthy (fi_genre (placed_info file_info))
    then append_at (default [] (fi_genre (placed_info file_info))) file_info
           by_genre
    else by_genre in
  let by_year :=
    if Py.truthy (fi_year (placed_info file_info))
    then append_at (default [] (fi_year (placed_info file_info))) file_info
           by_year
    else by_year in
  let by_artist :=
    append_at (fi_artist (placed_info file_info)) file_info by_artist in
  (by_genre, by_year, by_artist).

(** [p.relative_to(base)], [None] for its [ValueError]. *)
Definition relative_to (p base : PurePath) : option PurePath :=
  if bool_decide (anchor p = anchor base
                  ∧ take (length (names base)) (names p) = names base)
  then Some (mkPath [] (drop (length (names base)) (names p)))
  else None.

Definition newline : ascii := "010".

Section Playlists.

(** [str(p)] of the platform. *)
Variable path_str : PurePath → str.

(** The line written for a file; [None] when [file_info['target_path']]
    raises [KeyError] or [relative_to] raises. *)
Definition m3u_line (organized_path : PurePath) (file_info : Placed)
    : option str :=
  match target_path file_info with
  | Some target =>
      match relative_to target organized_path with
      | Some rel_path => Some (lit "../" ++ path_str rel_path ++ [newline])
      | None => None
      end
  | None => None
  end.

(** The lines written for the files of a playlist, and whether a line
    raised and cut the playlist short. *)
Fixpoint write_lines (organized_path : PurePath) (files : list Placed)
    : str * bool :=
  match files with
  | [] => ([], false)
  | file_info :: rest =>
      match m3u_line organized_path file_info with
      | Some line =>
          let r := write_lines organized_path rest in (line ++ r.1, r.2)
      | None => ([], true)
      end
  end.

(** The loop over [data.items()] for one playlist type: the files written,
    in order, with their text, and whether an exception ended the loop. *)
Fixpoint write_playlists (organized_path playlist_dir : PurePath)
    (playlist_type : str) (min_songs : Z) (data : Grouping)
    : list (PurePath * str) * bool :=
  match data with
  | [] => ([], false)
  | (key, files) :: rest =>
      if (min_songs <=? Z.of_nat (length files))%Z then
        let playlist_file :=
          joinpath playlist_dir
            (playlist_type ++ lit "_" ++ clean_name (Some key) ++ lit ".m3u") in
        let r := write_lines organized_path files in
        let written := (playlist_file, lit "#EXTM3U" ++ [newline] ++ r.1) in
        if r.2 then ([written], true)
        else
          let more := write_playlists organized_path playlist_dir
                        playlist_type min_songs rest in
          (written :: more.1, more.2)
      else write_playlists organized_path playlist_dir playlist_type
             min_songs rest
  end.

(** One round of the loop over [playlist_types], after the rounds that gave
    [done]. *)
Definition playlist_round (organized_path playlist_dir : PurePath)
    (min_songs : Z) (done_before : list (PurePath * str) * bool)
    (playlist_type : str) (data : Grouping) (enabled : bool)
    : list (PurePath * str) * bool :=
  if done_before.2 then done_before
  else if negb enabled then done_before
  else
    let r := write_playlists organized_path playlist_dir playlist_type
               min_songs data in
    (done_before.1 ++ r.1, r.2).

(** [create_playlists] over the plan entries in plan order: the playlist
    files written, in order, and whether it ended in an exception, which
    nothing in [organize] catches. The directory [Playlists] and the files
    are taken to be writable. *)
Definition create_playlists (pc : PlaylistConfig) (organized_path : PurePath)
    (entries : list Placed) : list (PurePath * str) * bool :=
  if negb (cfg_create_playlists pc) then ([], false)
  else
    let playlist_dir := joinpath organized_path (lit "Playlists") in
    let '(by_genre, by_year, by_artist) :=
      foldl group_visit ([], [], []) entries in
    let min_songs := cfg_min_songs pc in
    let r := ([], false) in
    let r := playlist_round organized_path playlist_dir min_songs r
               (lit "genre") by_genre (cfg_create_by_genre pc) in
    let r := playlist_round organized_path playlist_dir min_songs r
               (lit "year") by_year (cfg_create_by_year pc) in
    playlist_round organized_path playlist_dir min_songs r
      (lit "artist") by_artist (cfg_create_by_artist pc).

End Playlists.

(** The three kinds of playlist, and the key under which a plan entry is
    grouped for each kind, if any. *)
Inductive PlaylistKind := ByGenre | ByYear | ByArtist.

Definition kind_name (kind : PlaylistKind) : str :=
  match kind with
  | ByGenre => lit "genre"
  | ByYear => lit "year"
  | ByArtist => lit "artist"
  end.

Definition kind_enabled (pc : PlaylistConfig) (kind : PlaylistKind) : bool :=
  match kind with
  | ByGenre => cfg_create_by_genre pc
  | ByYear => cfg_create_by_year pc
  | ByArtist => cfg_create_by_artist pc
  end.

Definition kind_key (kind : PlaylistKind) (file_info : Placed) : option str :=
  match kind with
  | ByGenre =>
      if Py.truthy (fi_genre (placed_info file_info))
      then fi_genre (placed_info file_info) else None
  | ByYear =>
      if Py.truthy (fi_year (placed_info file_info))
      then fi_year (placed_info file_info) else None
  | ByArtist => Some (fi_artist (placed_info file_info))
  end.

(** The entries of one kind and key, in plan order. *)
Definition kind_group (kind : PlaylistKind) (key : str)
    (entries : list Placed) : list Placed :=
  filter (λ file_info, kind_key kind file_info = Some key) entries.

(** The name of the playlist file of a kind and key. *)
Definition playlist_path (organized_path : PurePath) (kind : PlaylistKind)
    (key : str) : PurePath :=
  joinpath (joinpath organized_path (lit "Playlists"))
    (kind_name kind ++ lit "_" ++ clean_name (Some key) ++ lit ".m3u").

(** [append_at] under the key of a kind, when the entry has one. *)
Definition add_key (key : option str) (x : Placed) (d : Grouping) : Grouping :=
  match key with
  | Some k => append_at k x d
  | None => d
  end.

(** A grouping holds, once per key, exactly the non-empty groups of a kind
    over the entries. *)
Definition grouped (kind : PlaylistKind) (entries : list Placed)
    (d : Grouping) : Prop :=
  NoDup d.*1
  ∧ ∀ k xs, (k, xs) ∈ d ↔ xs = kind_group kind k entries ∧ xs ≠ [].

(** The text of a playlist whose lines can all be written. *)
Definition playlist_text (path_str : PurePath → str) (organized_path : PurePath)
    (files : list Placed) : str :=
  lit "#EXTM3U" ++ [newline]
  ++ concat (default [] <$> (m3u_line path_str organized_path <$> files)).

(** A path is the organized folder or lies below it. *)
Definition below (organized_path p : PurePath) : Prop :=
  anchor p = anchor organized_path
  ∧ names organized_path `prefix_of` names p.

(** A plan of one group with two files, and a state before the copy phase. *)
Definition queen_groups : list (str * list FileInfo) :=
  [(lit "Queen/Singles", [song_info (lit "a"); song_info (lit "b")])].

Definition before_copy : CopyState := mkCopyState ∅ 0 0 0 [].

Definition artist_playlists : PlaylistConfig :=
  mkPlaylistConfig true false false true 1.

(** One copied plan entry. *)
Definition queen_placed : list Placed :=
  [mkPlaced (song_info (lit "a"))
     (Some (mkPath [] [lit "Queen"; lit "Singles"; lit "song.mp3"]))].

(** * Properties *)

(** Closes a decidable closed goal by evaluating its decision procedure. *)
Ltac by_decide := apply (bool_decide_unpack _); vm_compute; exact I.

(** ** Facts about the string primitives *)

Section StripFacts.

Variable f : ascii → bool.

Lemma drop_while_decomp (s : str) :
  ∃ pre, s = pre ++ Py.drop_while f s ∧ Forall (λ c, f c = true) pre.
Proof.
  induction s as [|c t [pre [Ht Hpre]]]; simpl.
  - exists []. split; [done | constructor].
  - destruct (f c) eqn:Hc.
    + exists (c :: pre). split; [simpl; congruence | by constructor].
    + exists []. split; [done | constructor].
Qed.

Lemma drop_while_head (s : str) : Py.head_is f (Py.drop_while f s) = false.
Proof.
  induction s as [|c t IH]; simpl; [done |].
  destruct (f c) eqn:Hc; [done |]. unfold Py.head_is. simpl. done.
Qed.

Lemma drop_while_id (s : str) : Py.head_is f s = false → Py.drop_while f s = s.
Proof.
  destruct s as [|c t]; [done |]. unfold Py.head_is. simpl. by intros ->.
Qed.

Lemma drop_while_app_all (pre s : str) :
  Forall (λ c, f c = true) pre →
  Py.drop_while f (pre ++ s) = Py.drop_while f s.
Proof. induction 1 as [|c t Hc _ IH]; simpl; [done |]. by rewrite Hc. Qed.

Lemma drop_while_length (s : str) : length (Py.drop_while f s) ≤ length s.
Proof.
  induction s as [|c t IH]; simpl; [done |].
  destruct (f c); simpl; lia.
Qed.

Lemma drop_while_length_lt (s : str) :
  Py.head_is f s = true → length (Py.drop_while f s) < length s.
Proof.
  destruct s as [|c t]; [done |]. unfold Py.head_is. simpl. intros ->.
  pose proof (drop_while_length t). lia.
Qed.

Lemma rstrip_by_cons (c : ascii) (t : str) :
  Py.rstrip_by f (c :: t) =
    match Py.rstrip_by f t with
    | [] => if f c then [] else [c]
    | r => c :: r
    end.
Proof. done. Qed.

Lemma rstrip_by_nil (s : str) :
  Py.rstrip_by f s = [] ↔ Forall (λ c, f c = true) s.
Proof.
  induction s as [|c t IH]; [by split; [constructor|] |].
  rewrite rstrip_by_cons. split.
  - destruct (Py.rstrip_by f t) eqn:Hr; [|done].
    destruct (f c) eqn:Hc; [|done]. intros _. constructor; [done | by apply IH].
  - inversion 1 as [|? ? Hc Ht]; subst. apply IH in Ht. by rewrite Ht, Hc.
Qed.

Lemma rstrip_by_decomp (s : str) :
  ∃ suf, s = Py.rstrip_by f s ++ suf ∧ Forall (λ c, f c = true) suf.
Proof.
  induction s as [|c t [suf [Ht Hsuf]]].
  - exists []. split; [done | constructor].
  - rewrite rstrip_by_cons. destruct (Py.rstrip_by f t) as [|a r] eqn:Hr.
    + destruct (f c) eqn:Hc.
      * exists (c :: t). split; [done |]. constructor; [done |].
        by apply rstrip_by_nil.
      * exists suf. split; [simpl; simpl in Ht; congruence | done].
    + exists suf. split; [simpl; simpl in Ht; congruence | done].
Qed.

Lemma rstrip_by_last (s : str) : Py.last_is f (Py.rstrip_by f s) = false.
Proof.
  induction s as [|c t IH]; [done |].
  rewrite rstrip_by_cons. destruct (Py.rstrip_by f t) as [|a r] eqn:Hr.
  - destruct (f c) eqn:Hc; [done |]. unfold Py.last_is. simpl. done.
  - unfold Py.last_is in *. by rewrite last_cons_cons.
Qed.

Lemma rstrip_by_id (s : str) : Py.last_is f s = false → Py.rstrip_by f s = s.
Proof.
  induction s as [|c t IH]; [done |]. intros Hl.
  rewrite rstrip_by_cons. destruct t as [|a t'].
  - simpl. unfold Py.last_is in Hl. simpl in Hl. by rewrite Hl.
  - unfold Py.last_is in *. rewrite last_cons_cons in Hl.
    rewrite (IH Hl). done.
Qed.

Lemma rstrip_by_app_all (s suf : str) :
  Forall (λ c, f c = true) suf →
  Py.rstrip_by f (s ++ suf) = Py.rstrip_by f s.
Proof.
  intros Hsuf. induction s as [|c t IH].
  - simpl. apply rstrip_by_nil in Hsuf. done.
  - rewrite <- app_comm_cons, !rstrip_by_cons, IH. done.
Qed.

Lemma rstrip_by_length (s : str) : length (Py.rstrip_by f s) ≤ length s.
Proof.
  destruct (rstrip_by_decomp s) as [suf [Hs _]].
  rewrite Hs at 2. rewrite length_app. lia.
Qed.

Lemma rstrip_by_length_lt (s : str) :
  Py.last_is f s = true → length (Py.rstrip_by f s) < length s.
Proof.
  intros Hl. destruct (rstrip_by_decomp s) as [suf [Hs Hsuf]].
  destruct suf as [|a suf'].
  - rewrite app_nil_r in Hs. rewrite Hs in Hl.
    by rewrite rstrip_by_last in Hl.
  - rewrite Hs at 2. rewrite length_app. simpl. lia.
Qed.

(** Stripping the two ends in either order gives the same string. *)
Lemma lstrip_rstrip_comm (s : str) :
  Py.drop_while f (Py.rstrip_by f s) = Py.rstrip_by f (Py.drop_while f s).
Proof.
  induction s as [|c t IH]; [done |].
  rewrite rstrip_by_cons. simpl Py.drop_while at 2.
  destruct (Py.rstrip_by f t) as [|a r] eqn:Hr.
  - destruct (f c) eqn:Hc; simpl.
    + by rewrite <- IH.
    + by rewrite Hr.
  - simpl. destruct (f c) eqn:Hc.
    + by rewrite <- IH.
    + by rewrite rstrip_by_cons, Hr.
Qed.

Lemma rstrip_by_head (s : str) (g : ascii → bool) :
  Py.head_is g s = false → Py.head_is g (Py.rstrip_by f s) = false.
Proof.
  destruct s as [|c t]; [done |]. rewrite rstrip_by_cons.
  unfold Py.head_is. simpl. intros Hc.
  destruct (Py.rstrip_by f t); [destruct (f c) |]; simpl; done.
Qed.

Lemma strip_by_head (s : str) : Py.head_is f (Py.strip_by f s) = false.
Proof. unfold Py.strip_by, Py.lstrip_by. apply rstrip_by_head, drop_while_head. Qed.

Lemma strip_by_last (s : str) : Py.last_is f (Py.strip_by f s) = false.
Proof. apply rstrip_by_last. Qed.

Lemma strip_by_id (s : str) :
  Py.head_is f s = false → Py.last_is f s = false → Py.strip_by f s = s.
Proof.
  intros Hh Hl. unfold Py.strip_by, Py.lstrip_by.
  rewrite (drop_while_id s Hh). by apply rstrip_by_id.
Qed.

Lemma strip_by_decomp (s : str) :
  ∃ pre suf, s = pre ++ Py.strip_by f s ++ suf
             ∧ Forall (λ c, f c = true) pre ∧ Forall (λ c, f c = true) suf.
Proof.
  destruct (drop_while_decomp s) as [pre [Hs Hpre]].
  destruct (rstrip_by_decomp (Py.drop_while f s)) as [suf [Hd Hsuf]].
  exists pre, suf. split; [|done].
  unfold Py.strip_by, Py.lstrip_by. by rewrite <- Hd.
Qed.

Lemma strip_by_length (s : str) : length (Py.strip_by f s) ≤ length s.
Proof.
  unfold Py.strip_by, Py.lstrip_by.
  pose proof (rstrip_by_length (Py.drop_while f s)).
  pose proof (drop_while_length s). lia.
Qed.

Lemma strip_by_length_lt (s : str) :
  Py.head_is f s = true ∨ Py.last_is f s = true →
  length (Py.strip_by f s) < length s.
Proof.
  intros [Hh | Hl].
  - unfold Py.strip_by, Py.lstrip_by.
    pose proof (rstrip_by_length (Py.drop_while f s)).
    pose proof (drop_while_length_lt s Hh). lia.
  - unfold Py.strip_by, Py.lstrip_by. rewrite <- lstrip_rstrip_comm.
    pose proof (drop_while_length (Py.rstrip_by f s)).
    pose proof (rstrip_by_length_lt s Hl). lia.
Qed.

(** Stripping keeps every property that holds of all characters. *)
Lemma strip_by_Forall (P : ascii → Prop) (s : str) :
  Forall P s → Forall P (Py.strip_by f s).
Proof.
  intros HP. destruct (strip_by_decomp s) as [pre [suf [Hs _]]].
  rewrite Hs in HP. apply Forall_app in HP as [_ HP].
  by apply Forall_app in HP as [HP _].
Qed.

End StripFacts.

(** ** Facts about whitespace collapsing and illegal characters *)

Lemma illegal_not_space (c : ascii) : c ∈ illegal_chars → Py.isspace c = false.
Proof.
  assert (H : Forall (λ c, Py.isspace c = false) illegal_chars)
    by (repeat constructor).
  rewrite Forall_forall in H. apply H.
Qed.

Lemma space_not_illegal (c : ascii) : Py.isspace c = true → c ∉ illegal_chars.
Proof. intros Hc Hin. apply illegal_not_space in Hin. congruence. Qed.

Lemma sub_ws_head (s : str) :
  Py.head_is Py.isspace (Py.sub_ws s) = Py.head_is Py.isspace s.
Proof.
  induction s as [|c t IH]; [done |]. simpl.
  destruct (Py.isspace c) eqn:Hc.
  - destruct (Py.head_is Py.isspace t) eqn:Ht.
    + rewrite IH. unfold Py.head_is. simpl. by rewrite Hc.
    + unfold Py.head_is. simpl. by rewrite Hc.
  - unfold Py.head_is. simpl. done.
Qed.

Lemma sub_ws_collapsed (s : str) : ws_collapsed (Py.sub_ws s) = true.
Proof.
  induction s as [|c t IH]; [done |]. simpl.
  destruct (Py.isspace c) eqn:Hc.
  - destruct (Py.head_is Py.isspace t) eqn:Ht; [done |].
    simpl. rewrite sub_ws_head, Ht, IH. done.
  - simpl. by rewrite Hc, IH.
Qed.

Lemma sub_ws_id (s : str) : ws_collapsed s = true → Py.sub_ws s = s.
Proof.
  induction s as [|c t IH]; [done |]. simpl.
  intros [Hc Ht]%andb_prop. rewrite (IH Ht).
  destruct (Py.isspace c); [|done].
  apply andb_prop in Hc as [Hc Hh]. apply bool_decide_eq_true in Hc as ->.
  by apply negb_true_iff in Hh as ->.
Qed.

Lemma sub_ws_Forall (P : ascii → Prop) (s : str) :
  P " " → Forall P s → Forall P (Py.sub_ws s).
Proof.
  intros Hsp. induction 1 as [|c t Hc _ IH]; simpl; [constructor |].
  destruct (Py.isspace c); [destruct (Py.head_is Py.isspace t) |];
    try constructor; done.
Qed.

(** [sub_ws] leaves a string without whitespace as it is, and writes one
    space for a whole run of whitespace between two pieces. *)
Lemma sub_ws_no_space (s : str) :
  Forall (λ c, Py.isspace c = false) s → Py.sub_ws s = s.
Proof.
  induction 1 as [|c t Hc _ IH]; [done |]. simpl. by rewrite Hc, IH.
Qed.

Lemma sub_ws_cons (c : ascii) (t : str) :
  Py.sub_ws (c :: t)
  = if Py.isspace c then
      if Py.head_is Py.isspace t then Py.sub_ws t else " " :: Py.sub_ws t
    else c :: Py.sub_ws t.
Proof. done. Qed.

Lemma sub_ws_run (a w b : str) :
  w ≠ [] → Forall (λ c, Py.isspace c = true) w →
  Py.last_is Py.isspace a = false → Py.head_is Py.isspace b = false →
  Py.sub_ws (a ++ w ++ b) = Py.sub_ws a ++ " " :: Py.sub_ws b.
Proof.
  intros Hne Hw Ha Hb. induction a as [|x a' IH].
  - clear Ha. change ([] ++ w ++ b) with (w ++ b).
    change (Py.sub_ws [] ++ " " :: Py.sub_ws b) with (" " :: Py.sub_ws b).
    induction Hw as [|c w' Hc Hw' IHw]; [done |].
    rewrite <- app_comm_cons, sub_ws_cons, Hc. destruct w' as [|c' w''].
    + change ([] ++ b) with b. by rewrite Hb.
    + inversion Hw' as [|? ? Hc' _]; subst.
      assert (Hh : Py.head_is Py.isspace ((c' :: w'') ++ b) = true)
        by (unfold Py.head_is; simpl; by rewrite Hc').
      rewrite Hh. by apply IHw.
  - rewrite <- app_comm_cons, !sub_ws_cons. destruct a' as [|y a''].
    + assert (Hx : Py.isspace x = false) by done.
      rewrite Hx, (IH eq_refl). done.
    + assert (Ha' : Py.last_is Py.isspace (y :: a'') = false).
      { unfold Py.last_is in *. by rewrite last_cons_cons in Ha. }
      rewrite (IH Ha').
      change (Py.head_is Py.isspace ((y :: a'') ++ w ++ b))
        with (Py.head_is Py.isspace (y :: a'')).
      by destruct (Py.isspace x), (Py.head_is Py.isspace (y :: a'')).
Qed.

Lemma ws_collapsed_app_r (pre s : str) :
  ws_collapsed (pre ++ s) = true → ws_collapsed s = true.
Proof.
  induction pre as [|c t IH]; [done |]. simpl.
  intros [_ H]%andb_prop. by apply IH.
Qed.

Lemma head_is_app (g : ascii → bool) (s t : str) :
  s ≠ [] → Py.head_is g (s ++ t) = Py.head_is g s.
Proof. by destruct s. Qed.

Lemma ws_collapsed_app_l (s suf : str) :
  ws_collapsed (s ++ suf) = true → ws_collapsed s = true.
Proof.
  induction s as [|c t IH]; [done |]. simpl.
  intros [Hc Ht]%andb_prop. rewrite (IH Ht), andb_true_r.
  destruct (Py.isspace c); [|done].
  apply andb_prop in Hc as [-> Hh]. simpl.
  destruct t as [|a t']; [done |]. by rewrite head_is_app in Hh.
Qed.

Lemma strip_by_collapsed (f : ascii → bool) (s : str) :
  ws_collapsed s = true → ws_collapsed (Py.strip_by f s) = true.
Proof.
  intros Hs. destruct (strip_by_decomp f s) as [pre [suf [Heq _]]].
  rewrite Heq in Hs. apply ws_collapsed_app_r in Hs.
  by apply ws_collapsed_app_l in Hs.
Qed.

(** Whitespace around a string does not survive collapsing and stripping. *)
Lemma lstrip_sub_ws_cons (c : ascii) (s : str) :
  Py.isspace c = true →
  Py.drop_while Py.isspace (Py.sub_ws (c :: s))
  = Py.drop_while Py.isspace (Py.sub_ws s).
Proof.
  intros Hc. simpl. rewrite Hc.
  destruct (Py.head_is Py.isspace s); [done |]. done.
Qed.

Lemma rstrip_sub_ws_app (s suf : str) :
  Forall (λ c, Py.isspace c = true) suf →
  Py.rstrip_by Py.isspace (Py.sub_ws (s ++ suf))
  = Py.rstrip_by Py.isspace (Py.sub_ws s).
Proof.
  intros Hsuf. induction s as [|c t IH].
  - simpl. apply rstrip_by_nil. by apply sub_ws_Forall.
  - destruct t as [|a t'].
    + simpl in IH. simpl. destruct (Py.isspace c) eqn:Hc.
      * transitivity (@nil ascii); [|by rewrite rstrip_by_cons].
        destruct (Py.head_is Py.isspace suf); [done |].
        by rewrite rstrip_by_cons, IH.
      * by rewrite !rstrip_by_cons, IH, Hc.
    + change ((c :: a :: t') ++ suf) with (c :: (a :: t') ++ suf).
      assert (Hh : Py.head_is Py.isspace ((a :: t') ++ suf)
                   = Py.head_is Py.isspace (a :: t')) by done.
      cbn [Py.sub_ws]. fold Py.sub_ws. rewrite Hh.
      destruct (Py.isspace c); [destruct (Py.head_is Py.isspace (a :: t')) |];
        rewrite ?rstrip_by_cons, ?IH; done.
Qed.

Lemma strip_sub_ws_wrap (pre s suf : str) :
  Forall (λ c, Py.isspace c = true) pre →
  Forall (λ c, Py.isspace c = true) suf →
  Py.strip (Py.sub_ws (pre ++ s ++ suf)) = Py.strip (Py.sub_ws s).
Proof.
  intros Hpre Hsuf. unfold Py.strip, Py.strip_by, Py.lstrip_by.
  induction Hpre as [|c t Hc _ IH].
  - simpl. rewrite <- !lstrip_rstrip_comm. by rewrite rstrip_sub_ws_app.
  - rewrite <- app_comm_cons. by rewrite lstrip_sub_ws_cons.
Qed.

Lemma sub_illegal_Forall (s : str) :
  Forall (λ c, c ∉ illegal_chars) (sub_illegal s).
Proof.
  apply Forall_forall. intros c Hc.
  by apply list_elem_of_filter in Hc as [Hc _].
Qed.

Lemma sub_illegal_id (s : str) :
  Forall (λ c, c ∉ illegal_chars) s → sub_illegal s = s.
Proof.
  induction 1 as [|c t Hc _ IH]; [done |].
  unfold sub_illegal in *. by rewrite filter_cons_True, IH.
Qed.

Lemma sub_illegal_spaces (w : str) :
  Forall (λ c, Py.isspace c = true) w → sub_illegal w = w.
Proof.
  intros Hw. apply sub_illegal_id. eapply Forall_impl; [done |].
  intros c. apply space_not_illegal.
Qed.

Lemma sub_illegal_app (a b : str) :
  sub_illegal (a ++ b) = sub_illegal a ++ sub_illegal b.
Proof. apply filter_app. Qed.

(** The steps of [clean_name] on a string. *)
Lemma clean_name_Some (s : str) :
  clean_name (Some s) =
    or_unknown (Py.strip_chars (lit ".") (Py.strip (Py.sub_ws (sub_illegal s)))).
Proof. destruct s; reflexivity. Qed.

Lemma clean_name_strip (s : str) :
  clean_name (Some (Py.strip s)) = clean_name (Some s).
Proof.
  rewrite !clean_name_Some.
  destruct (strip_by_decomp Py.isspace s) as [pre [suf [Hs [Hpre Hsuf]]]].
  fold (Py.strip s) in Hs. rewrite Hs at 2.
  rewrite !sub_illegal_app, (sub_illegal_spaces pre), (sub_illegal_spaces suf)
    by done.
  by rewrite strip_sub_ws_wrap.
Qed.

(** ** The name sanitizer *)

Lemma or_unknown_nonempty (s : str) : or_unknown s ≠ [].
Proof. by destruct s. Qed.

Lemma or_unknown_cases (s : str) :
  (s = [] ∧ or_unknown s = Unknown) ∨ (s ≠ [] ∧ or_unknown s = s).
Proof. destruct s; [by left | by right]. Qed.

Lemma clean_name_nonempty (name : option str) : clean_name name ≠ [].
Proof.
  unfold clean_name. destruct (Py.truthy name); simpl; [|done].
  apply or_unknown_nonempty.
Qed.

(** What every sanitized name looks like. *)
Lemma clean_name_shape (name : option str) :
  Forall (λ c, c ∉ illegal_chars) (clean_name name)
  ∧ ws_collapsed (clean_name name) = true
  ∧ Py.head_is is_dot (clean_name name) = false
  ∧ Py.last_is is_dot (clean_name name) = false.
Proof.
  assert (HU : Forall (λ c, c ∉ illegal_chars) Unknown
               ∧ ws_collapsed Unknown = true
               ∧ Py.head_is is_dot Unknown = false
               ∧ Py.last_is is_dot Unknown = false).
  { split; [by_decide | by vm_compute]. }
  unfold clean_name. destruct (Py.truthy name); cbn [negb]; [|done].
  set (t := Py.strip (Py.sub_ws (sub_illegal (default [] name)))).
  destruct (or_unknown_cases (Py.strip_chars (lit ".") t)) as [[_ ->]|[_ ->]];
    [done |].
  unfold Py.strip_chars. split_and!.
  - apply strip_by_Forall. unfold t, Py.strip. apply strip_by_Forall.
    apply sub_ws_Forall; [by_decide | apply sub_illegal_Forall].
  - apply strip_by_collapsed. unfold t, Py.strip. apply strip_by_collapsed.
    apply sub_ws_collapsed.
  - apply strip_by_head.
  - apply strip_by_last.
Qed.

(** A name that is already clean and has no blank at either end is left as
    it is. *)
Lemma clean_name_fixed (r : str) :
  r ≠ [] →
  Forall (λ c, c ∉ illegal_chars) r →
  ws_collapsed r = true →
  Py.head_is is_dot r = false → Py.last_is is_dot r = false →
  Py.head_is Py.isspace r = false → Py.last_is Py.isspace r = false →
  clean_name (Some r) = r.
Proof.
  intros Hne Hill Hws Hhd Hld Hhs Hls.
  rewrite clean_name_Some, sub_illegal_id, sub_ws_id by done.
  unfold Py.strip, Py.strip_chars.
  rewrite (strip_by_id Py.isspace r) by done.
  rewrite (strip_by_id (Py.mem (lit ".")) r) by done.
  by destruct r.
Qed.

(** C4 (as stated, refuted): the leading dot of [".38 Special"] is stripped,
    although only trailing dots are to be trimmed; and on [". a ."] the
    result [" a "] still begins and ends with whitespace. Neither is what
    the specified steps produce. *)
Lemma clean_name_trim_counterexample :
  clean_name (Some (lit ".38 Special")) = lit "38 Special"
  ∧ sanitize_spec (Some (lit ".38 Special")) = lit ".38 Special"
  ∧ clean_name (Some (lit ".38 Special"))
    ≠ sanitize_spec (Some (lit ".38 Special"))
  ∧ clean_name (Some (lit ". a .")) = lit " a "
  ∧ sanitize_spec (Some (lit ". a .")) = lit ". a"
  ∧ Py.head_is Py.isspace (clean_name (Some (lit ". a ."))) = true
  ∧ Py.last_is Py.isspace (clean_name (Some (lit ". a ."))) = true.
Proof. split_and!; by vm_compute. Qed.

(** C4 (amended): for every input, [None] and the empty string included, the
    sanitizer removes the illegal characters, turns every whitespace run into
    one space, trims the whitespace at both ends and then the dots at both
    ends, leading dots as well as trailing ones, and returns ["Unknown"] when
    nothing is left. The result is never empty, holds no illegal character,
    holds whitespace only as single spaces and neither begins nor ends with a
    dot. The four examples of the specification hold. *)
Theorem clean_name_sanitizes (name : option str) :
  (∃ w1 w2 d1 d2 core : str,
      Py.sub_ws (sub_illegal (default [] name)) = w1 ++ (d1 ++ core ++ d2) ++ w2
      ∧ Forall (λ c, Py.isspace c = true) w1
      ∧ Forall (λ c, Py.isspace c = true) w2
      ∧ Py.head_is Py.isspace (d1 ++ core ++ d2) = false
      ∧ Py.last_is Py.isspace (d1 ++ core ++ d2) = false
      ∧ Forall (λ c, c = ".") d1 ∧ Forall (λ c, c = ".") d2
      ∧ Py.head_is is_dot core = false ∧ Py.last_is is_dot core = false
      ∧ clean_name name = or_unknown core)
  ∧ clean_name name ≠ []
  ∧ Forall (λ c, c ∉ illegal_chars) (clean_name name)
  ∧ ws_collapsed (clean_name name) = true
  ∧ Py.head_is is_dot (clean_name name) = false
  ∧ Py.last_is is_dot (clean_name name) = false
  ∧ clean_name None = lit "Unknown"
  ∧ clean_name (Some (lit "")) = lit "Unknown"
  ∧ clean_name (Some (lit "A/B:C")) = lit "ABC"
  ∧ clean_name (Some (lit "a   b")) = lit "a b"
  ∧ clean_name (Some (lit "Name.")) = lit "Name".
Proof.
  split; [|split; [apply clean_name_nonempty |]].
  - set (u := Py.sub_ws (sub_illegal (default [] name))).
    destruct (strip_by_decomp Py.isspace u) as [w1 [w2 [Hu [Hw1 Hw2]]]].
    fold (Py.strip u) in Hu.
    destruct (strip_by_decomp (Py.mem (lit ".")) (Py.strip u))
      as [d1 [d2 [Ht [Hd1 Hd2]]]].
    fold (Py.strip_chars (lit ".") (Py.strip u)) in Ht.
    exists w1, w2, d1, d2, (Py.strip_chars (lit ".") (Py.strip u)).
    rewrite <- Ht. split_and!; try done.
    + apply strip_by_head.
    + apply strip_by_last.
    + eapply Forall_impl; [exact Hd1 |]. intros c Hc. unfold Py.mem in Hc.
      apply bool_decide_eq_true in Hc. by apply list_elem_of_singleton in Hc.
    + eapply Forall_impl; [exact Hd2 |]. intros c Hc. unfold Py.mem in Hc.
      apply bool_decide_eq_true in Hc. by apply list_elem_of_singleton in Hc.
    + apply strip_by_head.
    + apply strip_by_last.
    + destruct name as [s|]; [apply clean_name_Some |].
      by vm_compute.
  - destruct (clean_name_shape name) as (? & ? & ? & ?).
    split_and!; try done; by vm_compute.
Qed.

(** C10 (the code breaks it): sanitizing ["Wait ..."] gives ["Wait "], with
    the blank that stood before the stripped dots, and sanitizing that again
    gives ["Wait"]: the sanitizer is not idempotent on this input. *)
Theorem clean_name_not_idempotent :
  clean_name (Some (lit "Wait ...")) = lit "Wait "
  ∧ clean_name (Some (clean_name (Some (lit "Wait ...")))) = lit "Wait"
  ∧ clean_name (Some (clean_name (Some (lit "Wait ..."))))
    ≠ clean_name (Some (lit "Wait ...")).
Proof. split_and!; by vm_compute. Qed.

(** Sanitizing a second time changes nothing exactly when the sanitized name
    neither begins nor ends with a space, that is, when the removal of
    leading and trailing dots laid no whitespace bare. *)
Theorem clean_name_idempotent_iff (name : option str) :
  clean_name (Some (clean_name name)) = clean_name name
  ↔ Py.head_is Py.isspace (clean_name name) = false
    ∧ Py.last_is Py.isspace (clean_name name) = false.
Proof.
  destruct (clean_name_shape name) as (Hill & Hws & Hhd & Hld).
  pose proof (clean_name_nonempty name) as Hne.
  set (r := clean_name name) in *. split.
  - intros Heq.
    destruct (Py.head_is Py.isspace r) eqn:Hh, (Py.last_is Py.isspace r) eqn:Hl;
      [| | |done]; exfalso.
    all: rewrite clean_name_Some, sub_illegal_id, sub_ws_id in Heq by done.
    all: assert (Hlen : length (Py.strip_chars (lit ".") (Py.strip r)) < length r)
      by (pose proof (strip_by_length (Py.mem (lit ".")) (Py.strip r));
          pose proof (strip_by_length_lt Py.isspace r);
          unfold Py.strip_chars, Py.strip in *;
          assert (length (Py.strip_by Py.isspace r) < length r) by auto; lia).
    all: destruct (or_unknown_cases (Py.strip_chars (lit ".") (Py.strip r)))
           as [[_ HU]|[_ HU]]; rewrite HU in Heq;
         [rewrite <- Heq in Hh, Hl; by vm_compute in Hh, Hl
         |rewrite Heq in Hlen; lia].
  - intros [Hh Hl]. by apply clean_name_fixed.
Qed.

(** ** The split on a separator *)

Lemma startswith_app (s p : str) :
  Py.startswith s p = true ↔ ∃ t, s = p ++ t.
Proof.
  revert s. induction p as [|a p IH]; intros s; simpl.
  - split; [intros _; by exists s | done].
  - destruct s as [|b s]; simpl.
    + split; [done | intros [t Ht]; done].
    + rewrite andb_true_iff, bool_decide_eq_true, IH. split.
      * intros [-> [t ->]]. by exists t.
      * intros [t Ht]. simplify_eq. split; [done | by exists t].
Qed.

(** [partition] cuts at an occurrence of the separator, the first one. *)
Lemma partition_Some (sep s l r : str) :
  Py.partition sep s = Some (l, r) →
  s = l ++ sep ++ r
  ∧ ∀ l' r', s = l' ++ sep ++ r' → length l ≤ length l'.
Proof.
  revert l. induction s as [|c t IH]; intros l; simpl.
  - destruct (Py.startswith [] sep) eqn:Hs; [|done].
    intros [= <- <-]. apply startswith_app in Hs as [u Hu].
    destruct sep; [|done]. split; [done | simpl; lia].
  - destruct (Py.startswith (c :: t) sep) eqn:Hs.
    + intros [= <- <-]. apply startswith_app in Hs as [u Hu].
      split; [|simpl; lia]. rewrite Hu at 1. simpl. f_equal.
      rewrite Hu, drop_app_length. done.
    + destruct (Py.partition sep t) as [[l0 r0]|] eqn:Hp; [|done].
      intros [= <- <-]. destruct (IH l0 eq_refl) as [Ht Hmin].
      split; [simpl; by rewrite <- Ht |].
      intros l' r' Heq. destruct l' as [|c' l''].
      * exfalso. assert (Py.startswith (c :: t) sep = true); [|congruence].
        apply startswith_app. by exists r'.
      * simpl in Heq. injection Heq as -> Heq. apply Hmin in Heq.
        simpl. lia.
Qed.

Lemma partition_None (sep s : str) :
  Py.partition sep s = None → ∀ l r, s ≠ l ++ sep ++ r.
Proof.
  induction s as [|c t IH]; simpl.
  - destruct (Py.startswith [] sep) eqn:Hs; [done |]. intros _ l r Heq.
    assert (Py.startswith [] sep = true); [|congruence].
    apply startswith_app. exists r. by destruct l.
  - destruct (Py.startswith (c :: t) sep) eqn:Hs; [done |].
    destruct (Py.partition sep t) as [[l0 r0]|] eqn:Hp; [done |].
    intros _ l r Heq. destruct l as [|c' l'].
    + assert (Py.startswith (c :: t) sep = true); [|congruence].
      apply startswith_app. by exists r.
    + simpl in Heq. injection Heq as -> Heq. by apply (IH eq_refl l' r).
Qed.

(** ** The track-number prefix *)

Lemma sub_track_prefix_spec (s : str) :
  (Py.head_is Py.isdecimal s = false ∧ Py.sub_track_prefix s = s)
  ∨ (Py.head_is Py.isdecimal s = true
     ∧ track_prefixed s (Py.sub_track_prefix s)
     ∧ Py.head_is Py.isspace (Py.sub_track_prefix s) = false).
Proof.
  unfold Py.sub_track_prefix.
  destruct (Py.head_is Py.isdecimal s) eqn:Hd; [right | by left].
  split; [done |]. split; [|apply drop_while_head].
  destruct (drop_while_decomp Py.isdecimal s) as [digits [Hs Hdigits]].
  set (s1 := Py.drop_while Py.isdecimal s) in *.
  set (s2 := match s1 with "." :: t => t | _ => s1 end).
  assert (Hdot : ∃ dot, s1 = dot ++ s2 ∧ (dot = [] ∨ dot = lit ".")).
  { unfold s2. destruct s1 as [|c t]; [by exists [] ; auto |].
    destruct (decide (c = ".")) as [-> | Hc].
    - exists (lit "."). auto.
    - exists []. split; [|by left].
      destruct c as [[] [] [] [] [] [] [] []]; done. }
  destruct Hdot as (dot & Hs1 & Hdot).
  destruct (drop_while_decomp Py.isspace s2) as [w1 [Hs2 Hw1]].
  set (s3 := Py.drop_while Py.isspace s2) in *.
  set (s4 := match s3 with
             | c :: t => if Py.mem (lit "-.") c then t else s3
             | [] => s3
             end).
  assert (Hsep : ∃ sep, s3 = sep ++ s4
                        ∧ (sep = [] ∨ sep = lit "-" ∨ sep = lit ".")).
  { unfold s4. destruct s3 as [|c t]; [exists []; auto |].
    destruct (Py.mem (lit "-.") c) eqn:Hc; [|exists []; auto].
    unfold Py.mem in Hc. apply bool_decide_eq_true in Hc.
    apply elem_of_cons in Hc as [-> | Hc]; [exists (lit "-"); auto |].
    apply list_elem_of_singleton in Hc as ->. exists (lit "."). auto. }
  destruct Hsep as (sep & Hs3 & Hsep).
  destruct (drop_while_decomp Py.isspace s4) as [w2 [Hs4 Hw2]].
  exists digits, dot, w1, sep, w2. split_and!; try done.
  - rewrite Hs at 1. by rewrite Hs1, Hs2, Hs3, Hs4 at 1.
  - intros ->. simpl in Hs. rewrite Hs in Hd. unfold s1 in Hd.
    by rewrite drop_while_head in Hd.
Qed.

(** ** The filename tier *)

Lemma accepted_test (part0 part1 : str) :
  accepted part0 part1 ↔
  (2 <=? length (Py.strip part0))%nat
  && (2 <=? length (Py.strip part1))%nat
  && negb (bool_decide (Py.lower (Py.strip part0) ∈ common_words))
  && negb (Py.isdigit (Py.strip part0)) = true.
Proof.
  unfold accepted.
  rewrite !andb_true_iff, !negb_true_iff, !Nat.leb_le, bool_decide_eq_false.
  tauto.
Qed.

Lemma parse_filename_only_accept (file_path : PurePath) (part0 part1 : str) :
  Py.partition (lit " - ") (Py.sub_track_prefix (stem file_path))
    = Some (part0, part1) →
  accepted part0 part1 →
  parse_filename_only file_path
  = (clean_name (Some part0), Singles, clean_name (Some part1), None, None).
Proof.
  intros Hp Hacc. unfold parse_filename_only. rewrite Hp.
  apply accepted_test in Hacc. rewrite Hacc.
  by rewrite !clean_name_strip.
Qed.

Lemma parse_filename_only_reject (file_path : PurePath) :
  (∀ part0 part1,
     Py.partition (lit " - ") (Py.sub_track_prefix (stem file_path))
       = Some (part0, part1) → ¬ accepted part0 part1) →
  parse_filename_only file_path = sentinel (stem file_path).
Proof.
  intros Hrej. unfold parse_filename_only.
  destruct (Py.partition _ _) as [[part0 part1]|]; [|done].
  specialize (Hrej part0 part1 eq_refl). rewrite accepted_test in Hrej.
  by apply not_true_is_false in Hrej as ->.
Qed.

(** C3: in the filename tier the track-number prefix is stripped and the rest
    is split once on [" - "]; the split is accepted exactly when both sides
    trim to at least two characters, the (trimmed) left side lowercased is no
    stop word and it is not purely numeric. An accepted split gives
    [(sanitize(left), "Singles", sanitize(right))], everything else the
    sentinel [("Manual Sort Needed", "", sanitize(filename))]. The two
    examples of the specification hold. *)
Theorem parse_filename_only_split (file_path : PurePath) :
  let filename := stem file_path in
  let rest := Py.sub_track_prefix filename in
  (∀ left right,
      Py.partition (lit " - ") rest = Some (left, right) →
      accepted left right →
      parse_filename_only file_path
      = (clean_name (Some left), lit "Singles", clean_name (Some right),
         None, None))
  ∧ (∀ left right,
      Py.partition (lit " - ") rest = Some (left, right) →
      ¬ accepted left right →
      parse_filename_only file_path
      = (lit "Manual Sort Needed", lit "", clean_name (Some filename),
         None, None))
  ∧ (Py.partition (lit " - ") rest = None →
      parse_filename_only file_path
      = (lit "Manual Sort Needed", lit "", clean_name (Some filename),
         None, None))
  ∧ parse_filename_only path_daft_punk
    = (lit "Daft Punk", lit "Singles", lit "One More Time", None, None)
  ∧ parse_filename_only path_the_something
    = (lit "Manual Sort Needed", lit "", lit "The - Something", None, None).
Proof.
  intros filename rest. split_and!.
  - intros left right Hp Hacc. by apply parse_filename_only_accept.
  - intros left right Hp Hrej. apply parse_filename_only_reject.
    intros part0 part1 Hp'. fold filename rest in Hp'. congruence.
  - intros Hp. apply parse_filename_only_reject.
    intros part0 part1 Hp'. fold filename rest in Hp'. congruence.
  - by vm_compute.
  - by vm_compute.
Qed.

Lemma parse_filename_only_split_witness :
  Py.partition (lit " - ") (Py.sub_track_prefix (stem path_daft_punk))
    = Some (lit "Daft Punk", lit "One More Time")
  ∧ accepted (lit "Daft Punk") (lit "One More Time")
  ∧ parse_filename_only path_daft_punk
    = (clean_name (Some (lit "Daft Punk")), lit "Singles",
       clean_name (Some (lit "One More Time")), None, None).
Proof.
  assert (Hp : Py.partition (lit " - ") (Py.sub_track_prefix (stem path_daft_punk))
               = Some (lit "Daft Punk", lit "One More Time"))
    by (vm_compute; reflexivity).
  assert (Hacc : accepted (lit "Daft Punk") (lit "One More Time")).
  { unfold accepted. split_and!.
    - vm_compute. lia.
    - vm_compute. lia.
    - apply (bool_decide_unpack _). vm_compute. exact I.
    - vm_compute. reflexivity. }
  split; [exact Hp |]. split; [exact Hacc |].
  exact (proj1 (parse_filename_only_split path_daft_punk) _ _ Hp Hacc).
Defined.

(** ** The resolver *)

Lemma config_analyze_quality (self : Organizer) p m :
  config (analyze_quality self p m) = config self.
Proof.
  unfold analyze_quality. destruct (cfg_analyze_quality _); [|done]. simpl.
  destruct (bitrate m) as [b|]; [|done].
  by destruct (b =? 0)%Z, (b <? 128)%Z, (320 <=? b)%Z.
Qed.

Lemma config_check_near_duplicates (self : Organizer) p m :
  config (check_near_duplicates self p m) = config self.
Proof.
  unfold check_near_duplicates.
  by destruct (cfg_find_near_duplicates _), (Py.truthy _ && Py.truthy _).
Qed.

Lemma usable_artist_iff (m : Metadata) :
  usable_artist m = true
  ↔ ∃ a, meta_artist m = Some a ∧ 1 < length (Py.strip a).
Proof.
  unfold usable_artist. rewrite andb_true_iff, Nat.ltb_lt. split.
  - intros [Ht Hl]. destruct (meta_artist m) as [a|]; [|done]. by exists a.
  - intros [a [-> Hl]]. split; [|done]. destruct a; [|done].
    exfalso. change (Py.strip []) with (@nil ascii) in Hl. simpl in Hl. lia.
Qed.

Lemma parse_metadata_tagged rm (self : Organizer) (p : PurePath) :
  usable_artist (rm p) = true →
  (parse_metadata rm self p).1
  = (clean_name (meta_artist (rm p)),
     if Py.truthy (meta_album (rm p)) then clean_name (meta_album (rm p))
     else Singles,
     if Py.truthy (meta_title (rm p)) then clean_name (meta_title (rm p))
     else clean_name (Some (stem p)),
     meta_genre (rm p), meta_year (rm p)).
Proof. intros H. unfold parse_metadata. by rewrite H. Qed.

Lemma parse_metadata_untagged rm (self : Organizer) (p : PurePath) :
  usable_artist (rm p) = false →
  (parse_metadata rm self p).1 = parse_from_path (config self) p.
Proof.
  intros H. unfold parse_metadata. rewrite H. simpl.
  by rewrite config_check_near_duplicates, config_analyze_quality.
Qed.

(** C1: when the tag artist is present and trims to more than one character,
    the resolver returns the sanitized tag artist, the sanitized tag album
    or ["Singles"] when there is none, the sanitized tag title or the
    sanitized file stem when there is none, and the genre and year of the
    tags as they are; nothing of the path but the stem and nothing of the
    configuration enters the result. A tag counts as present when it is
    neither [None] nor empty. The Queen example holds for every file. *)
Theorem parse_metadata_tag_tier :
  (∀ rm (self : Organizer) (file_path : PurePath) (artist : str),
      meta_artist (rm file_path) = Some artist →
      1 < length (Py.strip artist) →
      (parse_metadata rm self file_path).1
      = (clean_name (Some artist),
         if Py.truthy (meta_album (rm file_path))
         then clean_name (meta_album (rm file_path)) else lit "Singles",
         if Py.truthy (meta_title (rm file_path))
         then clean_name (meta_title (rm file_path))
         else clean_name (Some (stem file_path)),
         meta_genre (rm file_path), meta_year (rm file_path)))
  ∧ (∀ (self : Organizer) (file_path : PurePath),
      (parse_metadata (λ _, queen_tags) self file_path).1
      = (lit "Queen", lit "A Night at the Opera", lit "Bohemian Rhapsody",
         None, None)).
Proof.
  split.
  - intros rm self file_path artist Ha Hl.
    rewrite parse_metadata_tagged, Ha; [done |].
    apply usable_artist_iff. by exists artist.
  - intros self file_path. rewrite parse_metadata_tagged by done.
    by vm_compute.
Qed.

Lemma parse_metadata_tag_tier_witness :
  (parse_metadata (λ _, queen_tags) (init out_dir defaults) path_track07).1
  = (clean_name (Some (lit "Queen")),
     clean_name (Some (lit "A Night at the Opera")),
     clean_name (Some (lit "Bohemian Rhapsody")), None, None).
Proof.
  apply (proj1 parse_metadata_tag_tier (λ _, queen_tags)
           (init out_dir defaults) path_track07 (lit "Queen")).
  - reflexivity.
  - vm_compute. lia.
Defined.

(** The components between the anchor and the file. *)
Lemma slice_after_lookup (i k : nat) (l : list str) :
  slice_after i l !! k
  = if decide (S i + k < length l - 1) then l !! (S i + k) else None.
Proof.
  unfold slice_after. rewrite lookup_drop. case_decide as Hk.
  - by rewrite lookup_take_lt.
  - apply lookup_ge_None. rewrite length_take. lia.
Qed.

Lemma music_index_Some (l : list str) (i : nat) :
  music_index l = Some i
  ↔ l !! i = Some (lit "Music") ∧ ∀ j, j < i → l !! j ≠ Some (lit "Music").
Proof.
  unfold music_index. split.
  - destruct (list_find _ l) as [[i' x]|] eqn:Hf; [|done].
    intros [= ->]. apply list_find_Some in Hf as (Hi & -> & Hmin).
    split; [done |]. intros j Hj Hl. by apply (Hmin j (lit "Music")).
  - intros [Hi Hmin].
    assert (Hf : list_find (λ part, part = lit "Music") l = Some (i, lit "Music")).
    { apply list_find_Some. split_and!; [done..|].
      intros j y Hy Hj ->. by apply (Hmin j). }
    by rewrite Hf.
Qed.

Lemma music_index_None (l : list str) :
  music_index l = None ↔ lit "Music" ∉ l.
Proof.
  unfold music_index. rewrite fmap_None, list_find_None, Forall_forall.
  split; [intros H Hin; by apply (H _ Hin) | intros H x Hx ->; done].
Qed.

Lemma keep_dir_iff (cfg : Config) (d : str) :
  keep_dir cfg d
  ↔ (d ∉ skip_entries cfg) ∧ (d ∉ junk_folders)
    ∧ Py.startswith d (lit "Part") = false.
Proof.
  unfold keep_dir, skip_set.
  rewrite not_elem_of_union, !elem_of_list_to_set. tauto.
Qed.

Lemma dirs_after_music_elem (cfg : Config) (i : nat) (l : list str) (d : str) :
  d ∈ dirs_after_music cfg i l
  ↔ d ∈ slice_after i l
    ∧ (d ∉ skip_entries cfg) ∧ (d ∉ junk_folders)
    ∧ Py.startswith d (lit "Part") = false.
Proof.
  unfold dirs_after_music. rewrite list_elem_of_filter, keep_dir_iff. tauto.
Qed.

Lemma clean_name_Singles : clean_name (Some Singles) = Singles.
Proof. by vm_compute. Qed.

Lemma parse_from_path_found (cfg : Config) (p : PurePath) (i : nat)
    (artist : str) (rest : list str) :
  music_index (parts p) = Some i →
  dirs_after_music cfg i (parts p) = artist :: rest →
  parse_from_path cfg p
  = (clean_name (Some artist),
     match rest with
     | album :: _ => clean_name (Some album)
     | [] => Singles
     end,
     clean_name (Some (Py.sub_track_prefix (stem p))), None, None).
Proof.
  intros Hi Hd. unfold parse_from_path. rewrite Hi, Hd.
  destruct rest; simpl; [by rewrite clean_name_Singles | done].
Qed.

Lemma parse_from_path_fallthrough (cfg : Config) (p : PurePath) :
  (∀ i, music_index (parts p) = Some i →
        dirs_after_music cfg i (parts p) = []) →
  parse_from_path cfg p = parse_filename_only p.
Proof.
  intros H. unfold parse_from_path.
  destruct (music_index (parts p)) as [i|]; [|done].
  by rewrite (H i eq_refl).
Qed.

(** C2: for a file without a usable tag artist whose path has a component
    equal to ["Music"], the components strictly between the first such
    component and the file are collected, those of the skip set (the
    configured entries and the built-in junk names) and those starting with
    ["Part"] are dropped; the first survivor gives the artist, the second the
    album (["Singles"] when there is none) and the file stem without its
    track-number prefix the track, each sanitized. With no survivor, or
    without the anchor, the filename tier answers. The Pink Floyd example
    holds. *)
Theorem parse_metadata_path_tier rm (self : Organizer) (file_path : PurePath) :
  usable_artist (rm file_path) = false →
  let cfg := config self in
  let path_parts := parts file_path in
  let r := (parse_metadata rm self file_path).1 in
  (∀ i, music_index path_parts = Some i →
      path_parts !! i = Some (lit "Music")
      ∧ (∀ j, j < i → path_parts !! j ≠ Some (lit "Music"))
      ∧ (∀ k, slice_after i path_parts !! k
              = if decide (S i + k < length path_parts - 1)
                then path_parts !! (S i + k) else None)
      ∧ dirs_after_music cfg i path_parts
        = filter (λ d, (d ∉ skip_entries cfg) ∧ (d ∉ junk_folders)
                       ∧ Py.startswith d (lit "Part") = false)
            (slice_after i path_parts)
      ∧ (∀ artist rest,
            dirs_after_music cfg i path_parts = artist :: rest →
            r = (clean_name (Some artist),
                 match rest with
                 | album :: _ => clean_name (Some album)
                 | [] => lit "Singles"
                 end,
                 clean_name (Some (Py.sub_track_prefix (stem file_path))),
                 None, None))
      ∧ (dirs_after_music cfg i path_parts = [] →
            r = parse_filename_only file_path))
  ∧ (music_index path_parts = None →
      (lit "Music" ∉ path_parts) ∧ r = parse_filename_only file_path)
  ∧ ((Py.head_is Py.isdecimal (stem file_path) = false
      ∧ Py.sub_track_prefix (stem file_path) = stem file_path)
     ∨ (Py.head_is Py.isdecimal (stem file_path) = true
        ∧ track_prefixed (stem file_path) (Py.sub_track_prefix (stem file_path))
        ∧ Py.head_is Py.isspace (Py.sub_track_prefix (stem file_path)) = false))
  ∧ (parse_metadata (λ _, no_tags) (init out_dir empty_skip) path_pink_floyd).1
    = (lit "Pink Floyd", lit "The Wall", lit "Another Brick", None, None).
Proof.
  intros Hno cfg path_parts r.
  assert (Hr : r = parse_from_path cfg file_path)
    by (by apply parse_metadata_untagged).
  split_and!.
  - intros i Hi. pose proof Hi as [Hat Hfirst]%music_index_Some.
    split_and!; [done | done | | | |].
    + intros k. apply slice_after_lookup.
    + unfold dirs_after_music. apply list_filter_iff. intros d.
      apply keep_dir_iff.
    + intros artist rest Hd. rewrite Hr. by apply parse_from_path_found with i.
    + intros Hd. rewrite Hr. apply parse_from_path_fallthrough.
      intros i' Hi'. subst path_parts. rewrite Hi in Hi'.
      by injection Hi' as <-.
  - intros Hnone. split; [by apply music_index_None |].
    rewrite Hr. apply parse_from_path_fallthrough.
    intros i Hi. subst path_parts. by rewrite Hnone in Hi.
  - apply sub_track_prefix_spec.
  - by vm_compute.
Qed.

Lemma parse_metadata_path_tier_witness :
  usable_artist no_tags = false
  ∧ music_index (parts path_pink_floyd) = Some 2
  ∧ dirs_after_music empty_skip 2 (parts path_pink_floyd)
    = [lit "Pink Floyd"; lit "The Wall"]
  ∧ (parse_metadata (λ _, no_tags) (init out_dir empty_skip) path_pink_floyd).1
    = (clean_name (Some (lit "Pink Floyd")), clean_name (Some (lit "The Wall")),
       clean_name (Some (Py.sub_track_prefix (stem path_pink_floyd))),
       None, None).
Proof.
  assert (Hno : usable_artist ((λ _, no_tags) path_pink_floyd) = false)
    by reflexivity.
  assert (Hi : music_index (parts path_pink_floyd) = Some 2)
    by (vm_compute; reflexivity).
  assert (Hd : dirs_after_music (config (init out_dir empty_skip)) 2
                 (parts path_pink_floyd)
               = [lit "Pink Floyd"; lit "The Wall"])
    by (vm_compute; reflexivity).
  split; [exact Hno |]. split; [exact Hi |]. split; [exact Hd |].
  destruct (proj1 (parse_metadata_path_tier (λ _, no_tags)
                     (init out_dir empty_skip) path_pink_floyd Hno) 2 Hi)
    as (_ & _ & _ & _ & Hfound & _).
  exact (Hfound _ _ Hd).
Defined.

(** ** The resolver's result *)

Lemma parse_filename_only_cases (p : PurePath) :
  (∃ a t, parse_filename_only p
          = (clean_name (Some a), Singles, clean_name (Some t), None, None))
  ∨ parse_filename_only p = sentinel (stem p).
Proof.
  unfold parse_filename_only.
  destruct (Py.partition _ _) as [[part0 part1]|]; [|by right].
  destruct (_ && _); [left; eauto | by right].
Qed.

Lemma parse_from_path_cases (cfg : Config) (p : PurePath) :
  (∃ a al t, parse_from_path cfg p
             = (clean_name (Some a), clean_name (Some al), clean_name (Some t),
                None, None))
  ∨ parse_from_path cfg p = parse_filename_only p.
Proof.
  unfold parse_from_path.
  destruct (music_index (parts p)) as [i|]; [|by right].
  destruct (dirs_after_music cfg i (parts p)); [by right | left; eauto].
Qed.

(** The shape of every result: either all three names come out of the
    sanitizer or a default, or the result is the sentinel. *)
Lemma parse_metadata_cases rm (self : Organizer) (p : PurePath) :
  (∃ artist album track g y,
      (parse_metadata rm self p).1 = (artist, album, track, g, y)
      ∧ artist ≠ [] ∧ album ≠ [] ∧ track ≠ [])
  ∨ (parse_metadata rm self p).1 = sentinel (stem p).
Proof.
  destruct (usable_artist (rm p)) eqn:Hu.
  - left. rewrite parse_metadata_tagged by done. do 5 eexists.
    split; [done |]. split_and!.
    + apply clean_name_nonempty.
    + destruct (Py.truthy _); [apply clean_name_nonempty | done].
    + destruct (Py.truthy _); apply clean_name_nonempty.
  - rewrite parse_metadata_untagged by done.
    destruct (parse_from_path_cases (config self) p) as [(a & al & t & ->) | ->].
    { left. do 5 eexists. split; [done |].
      split_and!; apply clean_name_nonempty. }
    destruct (parse_filename_only_cases p) as [(a & t & ->) | ->]; [|by right].
    left. do 5 eexists. split; [done |].
    split_and!; [apply clean_name_nonempty | done | apply clean_name_nonempty].
Qed.

(** C6 (as stated, refuted): a file under [Music/Manual Sort Needed/] gets
    the sentinel artist from the path tier, with album ["Singles"] and not
    the empty string. *)
Lemma sentinel_artist_counterexample :
  let r := (parse_metadata (λ _, no_tags) (init out_dir defaults)
              path_manual_folder).1 in
  r = (lit "Manual Sort Needed", lit "Singles", lit "x", None, None)
  ∧ r_artist r = Manual_Sort_Needed
  ∧ r_album r ≠ lit ""
  ∧ ¬ (r_artist r = Manual_Sort_Needed ↔ r_album r = lit "").
Proof.
  split_and!; try by vm_compute.
  intros [H _]. assert (Ha : lit "Singles" = lit "") by (by apply H).
  by vm_compute in Ha.
Qed.

(** C6 (amended): the resolver's result always has a non-empty artist and a
    non-empty track; its album is the empty string exactly when the result is
    that of the sentinel tier, and then the artist is
    ["Manual Sort Needed"]. (The sentinel artist can also come out of a tag,
    a folder or a file name that reads so, with a non-empty album.) *)
Theorem parse_metadata_invariant rm (self : Organizer) (file_path : PurePath) :
  let r := (parse_metadata rm self file_path).1 in
  r_artist r ≠ lit ""
  ∧ r_track r ≠ lit ""
  ∧ (r_album r = lit "" ↔
     r = (lit "Manual Sort Needed", lit "",
          clean_name (Some (stem file_path)), None, None))
  ∧ (r_album r = lit "" → r_artist r = lit "Manual Sort Needed").
Proof.
  intros r. unfold r.
  destruct (parse_metadata_cases rm self file_path)
    as [(artist & album & track & g & y & -> & Ha & Hal & Ht) | ->].
  - unfold r_artist, r_track, r_album. simpl. split_and!; try done.
    split; [done |]. intros [= _ Halb _ _ _]. done.
  - unfold sentinel, r_artist, r_track, r_album. simpl. split_and!; try done.
    apply clean_name_nonempty.
Qed.

(** ** Skip folders *)

Lemma contains_iff (sub s : str) :
  Py.contains sub s = true ↔ ∃ l r, s = l ++ sub ++ r.
Proof.
  unfold Py.contains. rewrite bool_decide_eq_true. split.
  - intros [[l r] Hp]. apply partition_Some in Hp as [Hs _]. eauto.
  - intros (l & r & Hs). destruct (Py.partition sub s) eqn:Hp; [done |].
    exfalso. by apply (partition_None _ _ Hp l r).
Qed.

Lemma in_skipped_folder_iff (path_str : PurePath → str) (cfg : Config)
    (p : PurePath) :
  in_skipped_folder path_str cfg p = true
  ↔ ∃ skip l r, skip ∈ skip_entries cfg ∧ path_str p = l ++ skip ++ r.
Proof.
  unfold in_skipped_folder. rewrite existsb_exists. split.
  - intros (skip & Hin & Hc). apply contains_iff in Hc as (l & r & Hs).
    exists skip, l, r. split; [by apply list_elem_of_In | done].
  - intros (skip & l & r & Hin & Hs). exists skip.
    split; [by apply list_elem_of_In | apply contains_iff; eauto].
Qed.

Lemma get_all_music_files_elem (path_str : PurePath → str) (cfg : Config)
    (rglob : list DirEntry) (p : PurePath) :
  p ∈ get_all_music_files path_str cfg rglob
  ↔ ∃ e, e ∈ rglob ∧ entry_path e = p
         ∧ in_skipped_folder path_str cfg p = false
         ∧ is_file e = true
         ∧ Py.lower (suffix p) ∈ music_extensions.
Proof.
  induction rglob as [|e rest IH]; simpl.
  - split; [by intros ?%elem_of_nil | intros (e & ?%elem_of_nil & _); done].
  - destruct (in_skipped_folder path_str cfg (entry_path e)) eqn:Hskip.
    { rewrite IH. split.
      - intros (e' & Hin & Hrest). exists e'. split; [by right | done].
      - intros (e' & [-> | Hin]%elem_of_cons & Hp & Hns & Hrest).
        + rewrite <- Hp in Hns. congruence.
        + exists e'. by split. }
    destruct (is_file e && bool_decide _) eqn:Hok.
    + rewrite elem_of_cons, IH. split.
      * intros [-> | (e' & Hin & Hrest)].
        -- apply andb_prop in Hok as [Hf Hext%bool_decide_eq_true].
           exists e. split_and!; [by left | done..].
        -- exists e'. split; [by right | done].
      * intros (e' & [-> | Hin]%elem_of_cons & Hrest).
        -- left. by destruct Hrest as [<- _].
        -- right. exists e'. by split.
    + rewrite IH. split.
      * intros (e' & Hin & Hrest). exists e'. split; [by right | done].
      * intros (e' & [-> | Hin]%elem_of_cons & Hp & Hns & Hf & Hext).
        -- rewrite <- Hp in Hext.
           rewrite Hf, (bool_decide_eq_true_2 _ Hext) in Hok. done.
        -- exists e'. by split.
Qed.

(** C8 (as stated, refuted): with the default configuration the skip entry
    [".Trash"] occurs in the path component [".Trash-1000"], and the path
    tier still keeps that component and takes the artist from it. *)
Lemma skip_substring_counterexample :
  lit ".Trash" ∈ skip_entries defaults
  ∧ Py.contains (lit ".Trash") (lit ".Trash-1000") = true
  ∧ music_index (parts path_trash) = Some 0
  ∧ dirs_after_music defaults 0 (parts path_trash)
    = [lit ".Trash-1000"; lit "Artist"]
  ∧ parse_from_path defaults path_trash
    = (lit "Trash-1000", lit "Artist", lit "song", None, None).
Proof. split_and!; try by vm_compute. by_decide. Qed.

(** C8 (amended): the configured skip entries exclude by substring during
    file enumeration only: a path is enumerated exactly when it is a file
    with a music extension and no skip entry occurs inside its string form.
    In the path tier a component is dropped exactly when it is equal to a
    skip entry or to a built-in junk name, or starts with ["Part"]. *)
Theorem skip_folders_applied (path_str : PurePath → str) (cfg : Config) :
  (∀ (rglob : list DirEntry) (file_path : PurePath),
      file_path ∈ get_all_music_files path_str cfg rglob
      ↔ ∃ e, e ∈ rglob ∧ entry_path e = file_path
             ∧ is_file e = true
             ∧ Py.lower (suffix file_path) ∈ music_extensions
             ∧ ∀ skip l r, skip ∈ skip_entries cfg →
                           path_str file_path ≠ l ++ skip ++ r)
  ∧ (∀ (i : nat) (path_parts : list str) (d : str),
      d ∈ dirs_after_music cfg i path_parts
      ↔ d ∈ slice_after i path_parts
        ∧ (d ∉ skip_entries cfg) ∧ (d ∉ junk_folders)
        ∧ Py.startswith d (lit "Part") = false).
Proof.
  split.
  - intros rglob file_path. rewrite get_all_music_files_elem.
    split; intros (e & Hin & Hp & H); exists e; (split; [done |]);
      (split; [done |]).
    + destruct H as (Hns & Hf & Hext). split_and!; [done.. |].
      intros skip l r Hskip Hs.
      assert (in_skipped_folder path_str cfg file_path = true); [|congruence].
      apply in_skipped_folder_iff. eauto.
    + destruct H as (Hf & Hext & Hns). split_and!; [|done..].
      apply not_true_is_false. intros (skip & l & r & Hskip & Hs)%in_skipped_folder_iff.
      by apply (Hns skip l r).
  - intros i path_parts d. apply dirs_after_music_elem.
Qed.

Lemma skip_folders_applied_witness :
  get_all_music_files posix_str defaults [entry_trash; entry_song]
  = [entry_path entry_song]
  ∧ posix_str (entry_path entry_trash)
    = lit "/Music/" ++ lit ".Trash" ++ lit "-1000/song.mp3"
  ∧ entry_path entry_trash
    ∉ get_all_music_files posix_str defaults [entry_trash; entry_song].
Proof.
  split; [by vm_compute |]. split; [by vm_compute |].
  intros Hin.
  apply (proj1 (skip_folders_applied posix_str defaults)) in Hin
    as (e & _ & _ & _ & _ & Hns).
  apply (Hns (lit ".Trash") (lit "/Music/") (lit "-1000/song.mp3")).
  - by_decide.
  - by vm_compute.
Defined.

(** ** Near-duplicate groups *)

Lemma near_duplicates_analyze_quality (self : Organizer) p m :
  near_duplicates (analyze_quality self p m) = near_duplicates self.
Proof.
  unfold analyze_quality. destruct (cfg_analyze_quality _); [|done]. simpl.
  destruct (bitrate m) as [b|]; [|done].
  by destruct (b =? 0)%Z, (b <? 128)%Z, (320 <=? b)%Z.
Qed.

Lemma near_duplicates_parse_metadata rm (self : Organizer) (p : PurePath) :
  near_duplicates (parse_metadata rm self p).2
  = near_duplicates (check_near_duplicates self p (rm p)).
Proof.
  unfold parse_metadata.
  assert (H : near_duplicates
                (check_near_duplicates (analyze_quality self p (rm p)) p (rm p))
              = near_duplicates (check_near_duplicates self p (rm p))).
  { unfold check_near_duplicates.
    rewrite config_analyze_quality.
    destruct (cfg_find_near_duplicates _); simpl;
      [|apply near_duplicates_analyze_quality].
    destruct (_ && _); simpl; by rewrite near_duplicates_analyze_quality. }
  by destruct (usable_artist (rm p)).
Qed.

Lemma check_near_duplicates_tagged (self : Organizer) (p : PurePath)
    (m : Metadata) (a t : str) :
  cfg_find_near_duplicates (config self) = true →
  meta_artist m = Some a → meta_title m = Some t → a ≠ [] → t ≠ [] →
  near_duplicates (check_near_duplicates self p m)
  = append_to (near_key a t) p (near_duplicates self).
Proof.
  intros Hcfg Ha Ht Hane Htne. unfold check_near_duplicates.
  rewrite Hcfg, Ha, Ht. by destruct a, t.
Qed.

Lemma check_near_duplicates_skip (self : Organizer) (p : PurePath)
    (m : Metadata) :
  cfg_find_near_duplicates (config self) = false
  ∨ Py.truthy (meta_artist m) = false ∨ Py.truthy (meta_title m) = false →
  check_near_duplicates self p m = self.
Proof.
  unfold check_near_duplicates. intros [-> | [-> | ->]]; [done | |].
  - by destruct (cfg_find_near_duplicates _).
  - by destruct (cfg_find_near_duplicates _), (Py.truthy (meta_artist m)).
Qed.

Lemma count_group_surplus (files : list PurePath) (found : nat) :
  count_group files found = found + group_surplus files.
Proof. unfold count_group, group_surplus. case_bool_decide; lia. Qed.

Lemma reported_fold (self : Organizer) :
  cfg_find_near_duplicates (config self) = true →
  reported self
  = map_fold (λ _ files found, count_group files found)
      (near_duplicates_found (stats self)) (near_duplicates self).
Proof. intros Hcfg. unfold reported, generate_reports. by rewrite Hcfg. Qed.

(** C7 (as stated, refuted): a file tagged with artist ["AC/DC"] and title
    ["T.N.T."] resolves to artist ["ACDC"] and track ["T.N.T"], yet it is
    filed under the key of its raw tags and not under the key of the resolved
    pair; a file without tags resolves through the path tier and is filed
    in no group at all. *)
Lemma near_key_counterexample :
  let res := parse_metadata (λ _, acdc_tags) (init out_dir defaults)
               path_track07 in
  let res' := parse_metadata (λ _, no_tags) (init out_dir defaults)
                path_pink_floyd in
  res.1 = (lit "ACDC", lit "Singles", lit "T.N.T", None, None)
  ∧ near_duplicates res.2 !! near_key (r_artist res.1) (r_track res.1) = None
  ∧ near_duplicates res.2 !! lit "ac/dc_t.n.t." = Some [path_track07]
  ∧ res'.1 = (lit "Pink Floyd", lit "The Wall", lit "Another Brick", None, None)
  ∧ near_duplicates res'.2 = ∅.
Proof. split_and!; by vm_compute. Qed.

(** C7 (amended): near-duplicate groups are keyed by
    [lowercase(artist) + "_" + lowercase(title)] of the file's raw tags as
    the tag reader returns them, and only files whose tags have both a
    non-empty artist and a non-empty title are filed, when
    [find_near_duplicates] is on. A group is an ordered list to which the
    file's path is appended. The report adds nothing for no group and, group
    by group, [count - 1] for a group longer than one and nothing for a
    group of one. *)
Theorem near_duplicate_groups :
  (∀ rm (self : Organizer) (file_path : PurePath),
      near_duplicates (parse_metadata rm self file_path).2
      = near_duplicates (check_near_duplicates self file_path (rm file_path)))
  ∧ (∀ (self : Organizer) (file_path : PurePath) (m : Metadata)
       (artist title : str),
      cfg_find_near_duplicates (config self) = true →
      meta_artist m = Some artist → meta_title m = Some title →
      artist ≠ lit "" → title ≠ lit "" →
      let key := Py.lower artist ++ lit "_" ++ Py.lower title in
      let groups := near_duplicates (check_near_duplicates self file_path m) in
      groups !! key
      = Some (default [] (near_duplicates self !! key) ++ [file_path])
      ∧ ∀ k, k ≠ key → groups !! k = near_duplicates self !! k)
  ∧ (∀ (self : Organizer) (file_path : PurePath) (m : Metadata),
      cfg_find_near_duplicates (config self) = false
      ∨ Py.truthy (meta_artist m) = false
      ∨ Py.truthy (meta_title m) = false →
      check_near_duplicates self file_path m = self)
  ∧ (∀ (self : Organizer),
      cfg_find_near_duplicates (config self) = true →
      (near_duplicates self = ∅ →
         reported self = near_duplicates_found (stats self))
      ∧ (∀ key files groups,
           groups !! key = None →
           near_duplicates self = <[key := files]> groups →
           reported self
           = reported (set_near_duplicates (λ _, groups) self)
             + (if decide (1 < length files) then length files - 1 else 0))).
Proof.
  split_and!.
  - apply near_duplicates_parse_metadata.
  - intros self file_path m artist title Hcfg Ha Ht Hane Htne key groups.
    unfold groups. rewrite (check_near_duplicates_tagged _ _ _ artist title)
      by done.
    unfold append_to. fold key. split; [apply lookup_insert_eq |].
    intros k Hk. by apply lookup_insert_ne.
  - apply check_near_duplicates_skip.
  - intros self Hcfg. split.
    + intros Hempty. rewrite reported_fold, Hempty by done.
      apply map_fold_empty.
    + intros key files groups Hnone Hgroups.
      rewrite !reported_fold by done. simpl. rewrite Hgroups.
      rewrite map_fold_insert_L; [|intros; rewrite !count_group_surplus; lia|done].
      rewrite count_group_surplus. unfold group_surplus.
      case_bool_decide; case_decide; done.
Qed.

Lemma near_duplicate_groups_witness :
  let self := init out_dir defaults in
  let groups :=
    near_duplicates (check_near_duplicates self path_track07 acdc_tags) in
  groups !! (Py.lower (lit "AC/DC") ++ lit "_" ++ Py.lower (lit "T.N.T."))
  = Some (default [] (near_duplicates self
                        !! (Py.lower (lit "AC/DC") ++ lit "_"
                            ++ Py.lower (lit "T.N.T.")))
          ++ [path_track07]).
Proof.
  intros self groups.
  apply (proj1 (proj1 (proj2 near_duplicate_groups) self path_track07 acdc_tags
                  (lit "AC/DC") (lit "T.N.T.") eq_refl eq_refl eq_refl
                  ltac:(discriminate) ltac:(discriminate))).
Defined.

(** ** The scan: exact duplicates *)

Section ScanFacts.

Variable read_metadata : PurePath → Metadata.
Variable read_bytes : PurePath → option (list Byte.byte).
Variable md5_hexdigest : list Byte.byte → str.

Local Abbreviation hash_of := (get_file_hash read_bytes md5_hexdigest).
Local Abbreviation step := (scan_file read_metadata read_bytes md5_hexdigest).

Lemma duplicates_parse_metadata (self : Organizer) (p : PurePath) :
  duplicates (parse_metadata read_metadata self p).2 = duplicates self.
Proof.
  unfold parse_metadata, check_near_duplicates, analyze_quality.
  repeat case_match; done.
Qed.

Lemma duplicates_removed_parse_metadata (self : Organizer) (p : PurePath) :
  duplicates_removed (stats (parse_metadata read_metadata self p).2)
  = duplicates_removed (stats self).
Proof.
  unfold parse_metadata, check_near_duplicates, analyze_quality.
  repeat case_match; done.
Qed.

Lemma near_duplicates_check_ext (self self' : Organizer) (p : PurePath)
    (m : Metadata) :
  config self = config self' →
  near_duplicates self = near_duplicates self' →
  near_duplicates (check_near_duplicates self p m)
  = near_duplicates (check_near_duplicates self' p m).
Proof.
  intros Hc Hn. unfold check_near_duplicates. rewrite Hc.
  destruct (cfg_find_near_duplicates _); [|done].
  destruct (_ && _); simpl; by rewrite Hn.
Qed.

(** The three ways through the loop body. *)
Lemma scan_file_unhashed (st : Organizer * Plan) (p : PurePath) :
  Py.truthy (hash_of p) = false →
  step st p = (set_stats incr_total_files st.1, st.2).
Proof. intros H. unfold scan_file. by rewrite H. Qed.

Lemma scan_file_duplicate (st : Organizer * Plan) (p q : PurePath) (h : str) :
  hash_of p = Some h → h ≠ [] → duplicates st.1 !! h = Some q →
  step st p
  = (set_stats incr_duplicates_removed (set_stats incr_total_files st.1), st.2).
Proof.
  intros Hh Hne Hq. unfold scan_file. rewrite Hh.
  destruct h; [done |]. simpl. by rewrite Hq.
Qed.

Lemma scan_file_new (st : Organizer * Plan) (p : PurePath) (h : str) :
  hash_of p = Some h → h ≠ [] → duplicates st.1 !! h = None →
  duplicates (step st p).1 = <[h := p]> (duplicates st.1)
  ∧ duplicates_removed (stats (step st p).1)
    = duplicates_removed (stats st.1)
  ∧ near_duplicates (step st p).1
    = near_duplicates (check_near_duplicates st.1 p (read_metadata p))
  ∧ ∃ key info,
      original_path info = p
      ∧ (step st p).2 = <[key := default [] (st.2 !! key) ++ [info]]> st.2.
Proof.
  intros Hh Hne Hq. unfold scan_file. rewrite Hh.
  destruct h as [|c h']; [done |]. simpl. rewrite Hq.
  set (self1 := set_duplicates _ _).
  split_and!.
  - case_bool_decide; simpl; by rewrite duplicates_parse_metadata.
  - case_bool_decide; simpl; by rewrite duplicates_removed_parse_metadata.
  - case_bool_decide; simpl; rewrite near_duplicates_parse_metadata;
      by apply near_duplicates_check_ext.
  - eexists _, _. split; [|reflexivity]. done.
Qed.

Lemma scan_file_cases (st : Organizer * Plan) (p : PurePath) :
  Py.truthy (hash_of p) = false
  ∨ (∃ h q, hash_of p = Some h ∧ h ≠ [] ∧ duplicates st.1 !! h = Some q)
  ∨ (∃ h, hash_of p = Some h ∧ h ≠ [] ∧ duplicates st.1 !! h = None).
Proof.
  destruct (hash_of p) as [[|c h]|] eqn:Hh; [by left | | by left].
  right. destruct (duplicates st.1 !! (c :: h)) as [q|] eqn:Hq.
  - left. by exists (c :: h), q.
  - right. by exists (c :: h).
Qed.

Lemma planned_insert (plan : Plan) (key : str) (info : FileInfo) (q : PurePath) :
  planned (<[key := default [] (plan !! key) ++ [info]]> plan) q
  ↔ planned plan q ∨ original_path info = q.
Proof.
  unfold planned. split.
  - intros (k & infos & i & Hk & Hi & Hq).
    destruct (decide (key = k)) as [<- | Hne].
    + rewrite lookup_insert_eq in Hk. injection Hk as <-.
      apply elem_of_app in Hi as [Hi | Hi%list_elem_of_singleton].
      * left. destruct (plan !! key) as [old|] eqn:Hold; [|by inversion Hi].
        by exists key, old, i.
      * right. by subst.
    + rewrite lookup_insert_ne in Hk by done. left. by exists k, infos, i.
  - intros [(k & infos & i & Hk & Hi & Hq) | Hq].
    + destruct (decide (key = k)) as [<- | Hne].
      * exists key, (infos ++ [info]), i. rewrite lookup_insert_eq, Hk.
        split_and!; [done | | done]. apply elem_of_app. by left.
      * exists k, infos, i. by rewrite lookup_insert_ne.
    + exists key, (default [] (plan !! key) ++ [info]), info.
      rewrite lookup_insert_eq. split_and!; [done | | done].
      apply elem_of_app. right. by apply list_elem_of_singleton.
Qed.

Lemma planned_empty (q : PurePath) : ¬ planned ∅ q.
Proof. intros (k & infos & i & Hk & _). by rewrite lookup_empty in Hk. Qed.

(** A file enters the plan only when its hash is new. *)
Lemma scan_file_planned (st : Organizer * Plan) (p q : PurePath) :
  planned (step st p).2 q
  ↔ planned st.2 q
    ∨ (q = p ∧ ∃ h, hash_of p = Some h ∧ h ≠ []
                    ∧ duplicates st.1 !! h = None).
Proof.
  destruct (scan_file_cases st p) as [Hu | [(h & q' & Hh & Hne & Hq) | (h & Hh & Hne & Hq)]].
  - rewrite scan_file_unhashed by done. simpl. split; [by left |].
    intros [? | [_ (h & Hh & Hne & _)]]; [done |].
    rewrite Hh in Hu. by destruct h.
  - rewrite (scan_file_duplicate st p q' h) by done. simpl. split; [by left |].
    intros [? | [_ (h' & Hh' & _ & Hq')]]; [done |]. congruence.
  - destruct (scan_file_new st p h Hh Hne Hq)
      as (_ & _ & _ & key & info & Hinfo & ->).
    rewrite planned_insert, Hinfo. split.
    + intros [? | <-]; [by left | right]. split; [done |]. by exists h.
    + intros [? | [-> _]]; [by left | by right].
Qed.

(** First seen wins: an entry of the index is never replaced. *)
Lemma scan_file_duplicates_kept (st : Organizer * Plan) (p q : PurePath)
    (h : str) :
  duplicates st.1 !! h = Some q → duplicates (step st p).1 !! h = Some q.
Proof.
  intros Hq.
  destruct (scan_file_cases st p) as [Hu | [(h' & q' & Hh & Hne & Hq') | (h' & Hh & Hne & Hq')]].
  - by rewrite scan_file_unhashed.
  - by rewrite (scan_file_duplicate st p q' h').
  - destruct (scan_file_new st p h' Hh Hne Hq') as (-> & _).
    rewrite lookup_insert_ne; [done | congruence].
Qed.

Lemma scan_file_duplicates_fresh (st : Organizer * Plan) (p : PurePath)
    (h : str) :
  duplicates st.1 !! h = None → hash_of p ≠ Some h →
  duplicates (step st p).1 !! h = None.
Proof.
  intros Hq Hp.
  destruct (scan_file_cases st p) as [Hu | [(h' & q' & Hh & Hne & Hq') | (h' & Hh & Hne & Hq')]].
  - by rewrite scan_file_unhashed.
  - by rewrite (scan_file_duplicate st p q' h').
  - destruct (scan_file_new st p h' Hh Hne Hq') as (-> & _).
    rewrite lookup_insert_ne; [done | congruence].
Qed.

Lemma foldl_duplicates_kept (l : list PurePath) (st : Organizer * Plan)
    (q : PurePath) (h : str) :
  duplicates st.1 !! h = Some q →
  duplicates (foldl step st l).1 !! h = Some q.
Proof.
  revert st. induction l as [|p l IH]; intros st Hq; [done |].
  simpl. by apply IH, scan_file_duplicates_kept.
Qed.

Lemma foldl_duplicates_fresh (l : list PurePath) (st : Organizer * Plan)
    (h : str) :
  duplicates st.1 !! h = None →
  (∀ q, q ∈ l → hash_of q ≠ Some h) →
  duplicates (foldl step st l).1 !! h = None.
Proof.
  revert st. induction l as [|p l IH]; intros st Hq Hl; [done |].
  simpl. apply IH.
  - apply scan_file_duplicates_fresh; [done |]. apply Hl. by left.
  - intros q Hin. apply Hl. by right.
Qed.

Lemma foldl_planned_kept (l : list PurePath) (st : Organizer * Plan)
    (q : PurePath) :
  planned st.2 q → planned (foldl step st l).2 q.
Proof.
  revert st. induction l as [|p l IH]; intros st Hq; [done |].
  simpl. apply IH, scan_file_planned. by left.
Qed.

Lemma foldl_planned_sources (l : list PurePath) (st : Organizer * Plan)
    (q : PurePath) :
  planned (foldl step st l).2 q →
  planned st.2 q
  ∨ (q ∈ l ∧ ∃ h, hash_of q = Some h ∧ h ≠ []
                  ∧ duplicates st.1 !! h = None).
Proof.
  revert st. induction l as [|p l IH]; intros st Hq; [by left |].
  simpl in Hq. apply IH in Hq as [Hq | (Hin & h & Hh & Hne & Hnone)].
  - apply scan_file_planned in Hq as [Hq | [-> Hnew]]; [by left | right].
    split; [by left | done].
  - right. split; [by right |]. exists h. split_and!; [done.. |].
    destruct (duplicates st.1 !! h) as [q'|] eqn:Hq'; [|done].
    apply (scan_file_duplicates_kept st p) in Hq'. congruence.
Qed.

Lemma foldl_duplicates_count (l : list PurePath) (st : Organizer * Plan) :
  duplicates_removed (stats (foldl step st l).1)
  + size (duplicates (foldl step st l).1)
  = duplicates_removed (stats st.1) + size (duplicates st.1)
    + length (filter (λ p, Py.truthy (hash_of p) = true) l).
Proof.
  revert st. induction l as [|p l IH]; intros st; [simpl; lia |].
  simpl. rewrite IH.
  destruct (scan_file_cases st p) as [Hu | [(h & q & Hh & Hne & Hq) | (h & Hh & Hne & Hq)]].
  - rewrite scan_file_unhashed by done. simpl.
    rewrite filter_cons_False by congruence. lia.
  - rewrite (scan_file_duplicate st p q h) by done. simpl.
    rewrite filter_cons_True by (rewrite Hh; by destruct h). simpl. lia.
  - destruct (scan_file_new st p h Hh Hne Hq) as (-> & -> & _).
    rewrite map_size_insert_None by done.
    rewrite filter_cons_True by (rewrite Hh; by destruct h). simpl. lia.
Qed.

(** C5: two byte-identical files hash to the same digest; in a batch run the
    first enumerated one is recorded in the duplicate index and planned, the
    later one is not in the plan. Every file whose hash is already recorded
    adds one to [duplicates_removed] and leaves index and plan as they are;
    over the run the counter grows by the number of hashed files that did
    not enter the index. *)
Theorem scan_exact_duplicates (self : Organizer)
    (before between after : list PurePath) (first later : PurePath)
    (data : list Byte.byte) :
  read_bytes first = Some data →
  read_bytes later = Some data →
  md5_hexdigest data ≠ lit "" →
  duplicates self !! md5_hexdigest data = None →
  (∀ q, q ∈ before → hash_of q ≠ Some (md5_hexdigest data)) →
  first ≠ later →
  let all_files := before ++ first :: between ++ later :: after in
  let st := scan read_metadata read_bytes md5_hexdigest self all_files in
  hash_of first = hash_of later
  ∧ duplicates st.1 !! md5_hexdigest data = Some first
  ∧ planned st.2 first
  ∧ ¬ planned st.2 later
  ∧ (∀ (st0 : Organizer * Plan) (p : PurePath) (h : str),
        hash_of p = Some h → h ≠ lit "" → is_Some (duplicates st0.1 !! h) →
        duplicates_removed (stats (step st0 p).1)
        = S (duplicates_removed (stats st0.1))
        ∧ duplicates (step st0 p).1 = duplicates st0.1
        ∧ (step st0 p).2 = st0.2)
  ∧ duplicates_removed (stats st.1) + size (duplicates st.1)
    = duplicates_removed (stats self) + size (duplicates self)
      + length (filter (λ p, Py.truthy (hash_of p) = true) all_files).
Proof.
  intros Hfirst Hlater Hne Hfresh Hbefore Hdiff all_files st.
  set (h := md5_hexdigest data) in *.
  assert (Hhf : hash_of first = Some h)
    by (unfold get_file_hash; by rewrite Hfirst).
  assert (Hhl : hash_of later = Some h)
    by (unfold get_file_hash; by rewrite Hlater).
  set (st_b := foldl step (self, ∅) before).
  assert (Hst : st = foldl step (step st_b first) (between ++ later :: after)).
  { unfold st, scan, all_files, st_b. by rewrite foldl_app. }
  assert (Hb : duplicates st_b.1 !! h = None)
    by (by apply foldl_duplicates_fresh).
  destruct (scan_file_new st_b first h Hhf Hne Hb)
    as (Hidx & _ & _ & key & info & Hinfo & Hplan).
  split_and!.
  - congruence.
  - rewrite Hst. apply foldl_duplicates_kept. rewrite Hidx.
    apply lookup_insert_eq.
  - rewrite Hst. apply foldl_planned_kept, scan_file_planned.
    right. split; [done |]. by exists h.
  - rewrite Hst.
    intros [Hp | (_ & h' & Hh' & _ & Hnone)]%foldl_planned_sources.
    + apply scan_file_planned in Hp as [Hp | [Heq _]]; [|done].
      apply foldl_planned_sources in Hp as [Hp | (Hin & _)].
      * by apply planned_empty in Hp.
      * by apply (Hbefore later).
    + rewrite Hhl in Hh'. injection Hh' as <-.
      rewrite Hidx, lookup_insert_eq in Hnone. done.
  - intros st0 p h0 Hp Hne0 [q Hq].
    by rewrite (scan_file_duplicate st0 p q h0).
  - unfold st, scan. by rewrite foldl_duplicates_count.
Qed.

Lemma generate_reports_tables (self : Organizer) :
  duplicates (generate_reports self) = duplicates self
  ∧ near_duplicates (generate_reports self) = near_duplicates self.
Proof. unfold generate_reports. by destruct (cfg_find_near_duplicates _). Qed.

Lemma check_near_duplicates_groups (self : Organizer) (p : PurePath)
    (m : Metadata) :
  near_duplicates (check_near_duplicates self p m) = near_duplicates self
  ∨ ∃ key, near_duplicates (check_near_duplicates self p m)
           = append_to key p (near_duplicates self).
Proof.
  unfold check_near_duplicates.
  destruct (cfg_find_near_duplicates _); [|by left].
  destruct (_ && _); [right; eauto | by left].
Qed.

Lemma scan_file_skipped (st : Organizer * Plan) (p : PurePath) :
  skipped (hash_of p) (duplicates st.1) →
  near_duplicates (step st p).1 = near_duplicates st.1.
Proof.
  intros [Hu | (h & Hh & [q Hq])].
  - by rewrite scan_file_unhashed.
  - destruct h as [|c h'].
    + rewrite scan_file_unhashed; [done | by rewrite Hh].
    + by rewrite (scan_file_duplicate st p q (c :: h')).
Qed.

Lemma scan_file_survivors (st : Organizer * Plan) (p : PurePath) :
  survivors_only hash_of st → survivors_only hash_of (step st p).
Proof.
  intros Hinv key group q Hkey Hq.
  assert (Hold : ∀ k g, near_duplicates st.1 !! k = Some g → q ∈ g →
            planned (step st p).2 q
            ∧ ∃ h, hash_of q = Some h ∧ h ≠ []
                   ∧ duplicates (step st p).1 !! h = Some q).
  { intros k g Hk Hg. destruct (Hinv k g q Hk Hg) as (Hpl & h & Hh & Hne & Hd).
    split; [apply scan_file_planned; by left |].
    exists h. split_and!; [done.. |]. by apply scan_file_duplicates_kept. }
  destruct (scan_file_cases st p) as [Hu | [(h & q' & Hh & Hne & Hq') | (h & Hh & Hne & Hq')]].
  - rewrite scan_file_skipped in Hkey by (by left). by apply (Hold key group).
  - rewrite scan_file_skipped in Hkey by (right; by exists h).
    by apply (Hold key group).
  - destruct (scan_file_new st p h Hh Hne Hq') as (Hidx & _ & Hgroups & _).
    rewrite Hgroups in Hkey.
    destruct (check_near_duplicates_groups st.1 p (read_metadata p))
      as [Hsame | [key' Happ]].
    { rewrite Hsame in Hkey. by apply (Hold key group). }
    rewrite Happ in Hkey. unfold append_to in Hkey.
    destruct (decide (key' = key)) as [-> | Hk].
    + rewrite lookup_insert_eq in Hkey. injection Hkey as <-.
      apply elem_of_app in Hq as [Hq | ->%list_elem_of_singleton].
      * destruct (near_duplicates st.1 !! key) as [g|] eqn:Hg;
          [|by inversion Hq].
        by apply (Hold key g).
      * split.
        -- apply scan_file_planned. right. split; [done |]. by exists h.
        -- exists h. split_and!; [done.. |]. rewrite Hidx.
           apply lookup_insert_eq.
    + rewrite lookup_insert_ne in Hkey by done. by apply (Hold key group).
Qed.

Lemma foldl_survivors (l : list PurePath) (st : Organizer * Plan) :
  survivors_only hash_of st → survivors_only hash_of (foldl step st l).
Proof.
  revert st. induction l as [|p l IH]; intros st Hinv; [done |].
  simpl. by apply IH, scan_file_survivors.
Qed.

(** C9: in a batch run a file that is passed by, because its hash could not
    be computed or is already recorded, is appended to no near-duplicate
    group; after the run of a fresh organizer every member of every group is
    an enumerated file that was recorded in the duplicate index and planned,
    and the report counts over these groups. *)
Theorem near_duplicates_after_dedup :
  (∀ (st : Organizer * Plan) (file_path : PurePath),
      skipped (hash_of file_path) (duplicates st.1) →
      near_duplicates (step st file_path).1 = near_duplicates st.1)
  ∧ (∀ (self : Organizer) (all_files : list PurePath) (proceed : bool),
      near_duplicates self = ∅ →
      let st := organize read_metadata read_bytes md5_hexdigest self
                  all_files proceed in
      ∀ key group q,
        near_duplicates st.1 !! key = Some group → q ∈ group →
        q ∈ all_files
        ∧ planned st.2 q
        ∧ ∃ h, hash_of q = Some h ∧ duplicates st.1 !! h = Some q).
Proof.
  split; [apply scan_file_skipped |].
  intros self all_files proceed Hempty st key group q Hkey Hq.
  assert (Hinv : survivors_only hash_of
                   (scan read_metadata read_bytes md5_hexdigest self all_files)).
  { apply foldl_survivors. intros k g q' Hk. simpl in Hk.
    by rewrite Hempty, lookup_empty in Hk. }
  assert (Hst : near_duplicates st.1
                = near_duplicates
                    (scan read_metadata read_bytes md5_hexdigest self all_files).1
                ∧ duplicates st.1
                  = duplicates
                      (scan read_metadata read_bytes md5_hexdigest self all_files).1
                ∧ st.2
                  = (scan read_metadata read_bytes md5_hexdigest self all_files).2).
  { unfold st, organize. destruct proceed; [|done]. simpl.
    by destruct (generate_reports_tables
                   (scan read_metadata read_bytes md5_hexdigest self all_files).1)
      as [-> ->]. }
  destruct Hst as (Hn & Hd & Hp). rewrite Hn in Hkey.
  destruct (Hinv key group q Hkey Hq) as (Hpl & h & Hh & Hne & Hidx).
  rewrite Hd, Hp. split_and!; [|done|by exists h].
  apply foldl_planned_sources in Hpl as [Hpl | [Hin _]]; [|done].
  by apply planned_empty in Hpl.
Qed.

End ScanFacts.

Lemma scan_exact_duplicates_witness :
  let st := scan (λ _, no_tags) sample_bytes sample_digest
              (init out_dir defaults) [file_a; file_b] in
  get_file_hash sample_bytes sample_digest file_a
  = get_file_hash sample_bytes sample_digest file_b
  ∧ duplicates st.1 !! sample_digest [Byte.x01; Byte.x02] = Some file_a
  ∧ planned st.2 file_a
  ∧ ¬ planned st.2 file_b
  ∧ duplicates_removed (stats st.1) = 1.
Proof.
  intros st.
  destruct (scan_exact_duplicates (λ _, no_tags) sample_bytes sample_digest
              (init out_dir defaults) [] [] [] file_a file_b
              [Byte.x01; Byte.x02])
    as (Hhash & Hidx & Hfirst & Hlater & _ & _).
  - reflexivity.
  - reflexivity.
  - discriminate.
  - reflexivity.
  - intros q Hq. inversion Hq.
  - discriminate.
  - split_and!; [exact Hhash | exact Hidx | exact Hfirst | exact Hlater |].
    vm_compute. reflexivity.
Defined.

Lemma near_duplicates_after_dedup_witness :
  let st := organize (λ _, acdc_tags) sample_bytes sample_digest
              (init out_dir defaults) [file_a; file_b] true in
  near_duplicates st.1 !! lit "ac/dc_t.n.t." = Some [file_a]
  ∧ file_a ∈ [file_a; file_b]
  ∧ planned st.2 file_a
  ∧ ∃ h, get_file_hash sample_bytes sample_digest file_a = Some h
         ∧ duplicates st.1 !! h = Some file_a.
Proof.
  intros st.
  assert (Hkey : near_duplicates st.1 !! lit "ac/dc_t.n.t." = Some [file_a])
    by (vm_compute; reflexivity).
  split; [exact Hkey |].
  apply (proj2 (near_duplicates_after_dedup (λ _, acdc_tags) sample_bytes
                  sample_digest)
           (init out_dir defaults) [file_a; file_b] true eq_refl
           (lit "ac/dc_t.n.t.") [file_a] file_a Hkey).
  by left.
Defined.

Lemma parse_metadata_invariant_witness :
  let r := (parse_metadata (λ _, no_tags) (init out_dir defaults)
              path_track07).1 in
  r_album r = lit "" ∧ r_artist r = lit "Manual Sort Needed".
Proof.
  intros r.
  assert (H : r_album r = lit "") by (vm_compute; reflexivity).
  split; [exact H |].
  exact (proj2 (proj2 (proj2 (parse_metadata_invariant (λ _, no_tags)
                                (init out_dir defaults) path_track07))) H).
Defined.

(** * Further properties of the code *)

(** ** Sanitizer *)

(** X1: whitespace around the input does not change the sanitized name. *)
Theorem clean_name_outer_whitespace (s : str) :
  clean_name (Some (Py.strip s)) = clean_name (Some s)
  ∧ ∀ pre suf,
      Forall (λ c, Py.isspace c = true) pre →
      Forall (λ c, Py.isspace c = true) suf →
      clean_name (Some (pre ++ s ++ suf)) = clean_name (Some s).
Proof.
  split; [apply clean_name_strip |]. intros pre suf Hpre Hsuf.
  rewrite !clean_name_Some, !sub_illegal_app.
  rewrite (sub_illegal_spaces pre), (sub_illegal_spaces suf) by done.
  by rewrite strip_sub_ws_wrap.
Qed.

Lemma clean_name_outer_whitespace_witness :
  clean_name (Some (lit "  " ++ lit "Pink  Floyd" ++ lit " "))
  = clean_name (Some (lit "Pink  Floyd")).
Proof.
  apply (proj2 (clean_name_outer_whitespace (lit "Pink  Floyd"))).
  - repeat constructor.
  - repeat constructor.
Defined.

(** X2: a non-empty name without illegal characters, with whitespace only as
    single spaces and with neither a dot nor a space at either end, is
    returned as it is. *)
Theorem clean_name_identity_on_clean (r : str) :
  r ≠ [] →
  Forall (λ c, c ∉ illegal_chars) r →
  ws_collapsed r = true →
  Py.head_is is_dot r = false → Py.last_is is_dot r = false →
  Py.head_is Py.isspace r = false → Py.last_is Py.isspace r = false →
  clean_name (Some r) = r.
Proof. apply clean_name_fixed. Qed.

Lemma clean_name_identity_on_clean_witness :
  clean_name (Some (lit "The Wall")) = lit "The Wall".
Proof.
  apply clean_name_identity_on_clean.
  - discriminate.
  - apply (bool_decide_unpack _). vm_compute. exact I.
  - vm_compute. reflexivity.
  - vm_compute. reflexivity.
  - vm_compute. reflexivity.
  - vm_compute. reflexivity.
  - vm_compute. reflexivity.
Defined.

(** X3: sanitizing an already sanitized name changes nothing exactly when
    that name neither begins nor ends with a space; when it does change the
    name, the result is strictly shorter or the fallback ["Unknown"]. *)
Theorem clean_name_second_pass (name : option str) :
  (clean_name (Some (clean_name name)) = clean_name name
   ↔ Py.head_is Py.isspace (clean_name name) = false
     ∧ Py.last_is Py.isspace (clean_name name) = false)
  ∧ (clean_name (Some (clean_name name)) ≠ clean_name name →
     length (clean_name (Some (clean_name name))) < length (clean_name name)
     ∨ clean_name (Some (clean_name name)) = Unknown).
Proof.
  split; [apply clean_name_idempotent_iff |]. intros Hneq.
  destruct (clean_name_shape name) as (Hill & Hws & _ & _).
  set (r := clean_name name) in *.
  assert (Hends : Py.head_is Py.isspace r = true ∨ Py.last_is Py.isspace r = true).
  { destruct (Py.head_is Py.isspace r) eqn:Hh; [by left |].
    destruct (Py.last_is Py.isspace r) eqn:Hl; [by right |].
    exfalso. apply Hneq. by apply clean_name_idempotent_iff. }
  rewrite clean_name_Some, sub_illegal_id, sub_ws_id by done.
  destruct (or_unknown_cases (Py.strip_chars (lit ".") (Py.strip r)))
    as [[_ ->] | [_ ->]]; [by right | left].
  pose proof (strip_by_length (Py.mem (lit ".")) (Py.strip r)).
  pose proof (strip_by_length_lt Py.isspace r Hends).
  unfold Py.strip_chars, Py.strip in *. lia.
Qed.

Lemma clean_name_second_pass_witness :
  clean_name (Some (clean_name (Some (lit ". . a"))))
  ≠ clean_name (Some (lit ". . a"))
  ∧ (length (clean_name (Some (clean_name (Some (lit ". . a")))))
     < length (clean_name (Some (lit ". . a")))
     ∨ clean_name (Some (clean_name (Some (lit ". . a")))) = Unknown).
Proof.
  assert (H : clean_name (Some (clean_name (Some (lit ". . a"))))
              ≠ clean_name (Some (lit ". . a")))
    by (vm_compute; discriminate).
  split; [exact H |].
  exact (proj2 (clean_name_second_pass (Some (lit ". . a"))) H).
Defined.

(** ** Resolver *)

Lemma safe_name_clean_name (name : option str) : safe_name (clean_name name).
Proof. destruct (clean_name_shape name) as (? & _ & ? & ?). by split_and!. Qed.

Lemma safe_name_constants :
  safe_name Singles ∧ safe_name Manual_Sort_Needed ∧ safe_name [].
Proof.
  split_and!; (split_and!; [by_decide | by vm_compute | by vm_compute]).
Qed.

Lemma safe_name_no_separator (s : str) :
  safe_name s → ("/" ∉ s) ∧ ("\" ∉ s) ∧ s ≠ lit "." ∧ s ≠ lit "..".
Proof.
  intros (Hill & Hhd & _). rewrite Forall_forall in Hill. split_and!.
  - intros Hin. apply (Hill _ Hin). by_decide.
  - intros Hin. apply (Hill _ Hin). by_decide.
  - intros ->. by vm_compute in Hhd.
  - intros ->. by vm_compute in Hhd.
Qed.

Lemma parse_filename_only_safe (p : PurePath) :
  safe_name (r_artist (parse_filename_only p))
  ∧ safe_name (r_album (parse_filename_only p))
  ∧ safe_name (r_track (parse_filename_only p)).
Proof.
  destruct safe_name_constants as (HS & HM & HE).
  destruct (parse_filename_only_cases p) as [(a & t & ->) | ->];
    unfold sentinel, r_artist, r_album, r_track; simpl;
    split_and!; try done; apply safe_name_clean_name.
Qed.

Lemma parse_from_path_safe (cfg : Config) (p : PurePath) :
  safe_name (r_artist (parse_from_path cfg p))
  ∧ safe_name (r_album (parse_from_path cfg p))
  ∧ safe_name (r_track (parse_from_path cfg p)).
Proof.
  destruct (parse_from_path_cases cfg p) as [(a & al & t & ->) | ->];
    [|apply parse_filename_only_safe].
  unfold r_artist, r_album, r_track; simpl.
  split_and!; apply safe_name_clean_name.
Qed.

Lemma parse_metadata_safe rm (self : Organizer) (file_path : PurePath) :
  let r := (parse_metadata rm self file_path).1 in
  safe_name (r_artist r) ∧ safe_name (r_album r) ∧ safe_name (r_track r).
Proof.
  intros r. unfold r. destruct (usable_artist (rm file_path)) eqn:Hu.
  - rewrite parse_metadata_tagged by done.
    unfold r_artist, r_album, r_track; simpl. split_and!.
    + apply safe_name_clean_name.
    + destruct (Py.truthy _);
        [apply safe_name_clean_name | apply safe_name_constants].
    + destruct (Py.truthy _); apply safe_name_clean_name.
  - rewrite parse_metadata_untagged by done. apply parse_from_path_safe.
Qed.

(** X4: whatever the tags, the path and the configuration, the resolved
    artist, album and track hold no illegal character (so no path separator)
    and have no dot at either end; none of them is [.] or [..]. *)
Theorem resolved_names_safe rm (self : Organizer) (file_path : PurePath) :
  let r := (parse_metadata rm self file_path).1 in
  safe_name (r_artist r) ∧ safe_name (r_album r) ∧ safe_name (r_track r)
  ∧ ("/" ∉ r_artist r) ∧ ("\" ∉ r_artist r)
  ∧ ("/" ∉ r_album r) ∧ ("\" ∉ r_album r)
  ∧ r_artist r ≠ lit ".." ∧ r_album r ≠ lit ".." ∧ r_track r ≠ lit "..".
Proof.
  intros r.
  destruct (parse_metadata_safe rm self file_path) as (Ha & Hal & Ht).
  fold r in Ha, Hal, Ht.
  destruct (safe_name_no_separator _ Ha) as (? & ? & _ & ?).
  destruct (safe_name_no_separator _ Hal) as (? & ? & _ & ?).
  destruct (safe_name_no_separator _ Ht) as (_ & _ & _ & ?).
  by split_and!.
Qed.

Lemma stats_analyze_quality (self : Organizer) p m :
  stats (analyze_quality self p m) = stats self
  ∧ duplicates (analyze_quality self p m) = duplicates self
  ∧ organized_path (analyze_quality self p m) = organized_path self.
Proof.
  unfold analyze_quality. destruct (cfg_analyze_quality _); [|done]. simpl.
  destruct (bitrate m) as [b|]; [|done].
  by destruct (b =? 0)%Z, (b <? 128)%Z, (320 <=? b)%Z.
Qed.

Lemma stats_check_near_duplicates (self : Organizer) p m :
  stats (check_near_duplicates self p m) = stats self
  ∧ duplicates (check_near_duplicates self p m) = duplicates self
  ∧ organized_path (check_near_duplicates self p m) = organized_path self
  ∧ quality_stats (check_near_duplicates self p m) = quality_stats self.
Proof.
  unfold check_near_duplicates.
  by destruct (cfg_find_near_duplicates _), (_ && _).
Qed.

Lemma parse_metadata_frame rm (self : Organizer) (p : PurePath) :
  duplicates (parse_metadata rm self p).2 = duplicates self
  ∧ config (parse_metadata rm self p).2 = config self
  ∧ organized_path (parse_metadata rm self p).2 = organized_path self
  ∧ stats (parse_metadata rm self p).2
    = (if usable_artist (rm p) then incr_metadata_parsed (stats self)
       else stats self).
Proof.
  unfold parse_metadata.
  destruct (stats_analyze_quality self p (rm p)) as (Hs & Hd & Ho).
  destruct (stats_check_near_duplicates (analyze_quality self p (rm p)) p (rm p))
    as (Hs' & Hd' & Ho' & _).
  destruct (usable_artist (rm p)); simpl;
    rewrite ?config_check_near_duplicates, ?config_analyze_quality, ?Hs', ?Hd',
      ?Ho', ?Hs, ?Hd, ?Ho; done.
Qed.

Lemma parse_metadata_result_config rm (self self' : Organizer) (p : PurePath) :
  config self' = config self →
  (parse_metadata rm self' p).1 = (parse_metadata rm self p).1.
Proof.
  intros Hc. destruct (usable_artist (rm p)) eqn:Hu.
  - by rewrite !parse_metadata_tagged.
  - by rewrite !parse_metadata_untagged, Hc.
Qed.

(** X5: resolving a file leaves the duplicate index, the configuration and
    the output root alone, and of the counters [total_files],
    [duplicates_removed], [near_duplicates_found], [manual_sort] and
    [metadata_parsed] it changes only the last, which goes up by one exactly
    when the tags answer; the answer depends on the organizer only through
    its configuration, not on what was processed before. *)
Theorem parse_metadata_effects rm (self : Organizer) (file_path : PurePath) :
  let res := parse_metadata rm self file_path in
  duplicates res.2 = duplicates self
  ∧ config res.2 = config self
  ∧ organized_path res.2 = organized_path self
  ∧ stats res.2
    = (if usable_artist (rm file_path) then incr_metadata_parsed (stats self)
       else stats self)
  ∧ ∀ self', config self' = config self →
             (parse_metadata rm self' file_path).1 = res.1.
Proof.
  intros res. destruct (parse_metadata_frame rm self file_path)
    as (? & ? & ? & ?).
  split_and!; try done. intros self' Hc. by apply parse_metadata_result_config.
Qed.

Lemma parse_metadata_effects_witness :
  (parse_metadata (λ _, queen_tags)
     (set_stats incr_total_files (init out_dir defaults)) path_track07).1
  = (parse_metadata (λ _, queen_tags) (init out_dir defaults) path_track07).1.
Proof.
  exact (proj2 (proj2 (proj2 (proj2
           (parse_metadata_effects (λ _, queen_tags) (init out_dir defaults)
              path_track07))))
           (set_stats incr_total_files (init out_dir defaults)) eq_refl).
Defined.

(** ** Quality statistics *)

Lemma format_key_not_bucket (ext : str) (b : Z) :
  lit "format_" ++ ext ≠ quality_bucket b.
Proof.
  unfold quality_bucket. by destruct (b <? 128)%Z, (320 <=? b)%Z.
Qed.

(** X6: with [analyze_quality] switched on, a file adds one to the counter of
    its lowercased extension and, when its bit rate is known and not zero,
    one to exactly one bucket: low below 128, high from 320 on, medium in
    between; no other counter moves. Without a bit rate only the extension
    counter moves, and with the switch off nothing does. *)
Theorem analyze_quality_counts (self : Organizer) (file_path : PurePath)
    (metadata : Metadata) :
  let fmt := lit "format_" ++ Py.lower (suffix file_path) in
  (cfg_analyze_quality (config self) = false →
     analyze_quality self file_path metadata = self)
  ∧ (cfg_analyze_quality (config self) = true →
     bitrate metadata = None ∨ bitrate metadata = Some 0%Z →
     quality_stats (analyze_quality self file_path metadata)
     = incr fmt (quality_stats self))
  ∧ (∀ b, cfg_analyze_quality (config self) = true →
     bitrate metadata = Some b → b ≠ 0%Z →
     let q := quality_stats (analyze_quality self file_path metadata) in
     q !! fmt = Some (S (default 0 (quality_stats self !! fmt)))
     ∧ q !! quality_bucket b
       = Some (S (default 0 (quality_stats self !! quality_bucket b)))
     ∧ ∀ k, k ≠ fmt → k ≠ quality_bucket b →
            q !! k = quality_stats self !! k).
Proof.
  intros fmt. split_and!.
  - intros Hoff. unfold analyze_quality. by rewrite Hoff.
  - intros Hon Hb. unfold analyze_quality. rewrite Hon. simpl.
    by destruct Hb as [-> | ->].
  - intros b Hon Hb Hnz q.
    assert (Hq : q = incr (quality_bucket b) (incr fmt (quality_stats self))).
    { unfold q, analyze_quality, quality_bucket. rewrite Hon, Hb. simpl.
      apply Z.eqb_neq in Hnz. rewrite Hnz.
      by destruct (b <? 128)%Z, (320 <=? b)%Z. }
    pose proof (format_key_not_bucket (Py.lower (suffix file_path)) b) as Hne.
    fold fmt in Hne. rewrite Hq. unfold incr. split_and!.
    + rewrite lookup_insert_ne by done. apply lookup_insert_eq.
    + rewrite lookup_insert_eq. by rewrite lookup_insert_ne.
    + intros k Hk1 Hk2. by rewrite !lookup_insert_ne.
Qed.

Lemma analyze_quality_counts_witness :
  let q := quality_stats
             (analyze_quality (init out_dir defaults) path_track07 mp3_128) in
  q !! lit "format_.mp3" = Some 1
  ∧ q !! lit "medium_quality" = Some 1
  ∧ q !! lit "low_quality" = None.
Proof.
  intros q.
  destruct (proj2 (proj2 (analyze_quality_counts (init out_dir defaults)
                            path_track07 mp3_128)) 128%Z)
    as (Hf & Hb & Hk).
  - reflexivity.
  - reflexivity.
  - discriminate.
  - split_and!; [exact Hf | exact Hb |].
    apply (Hk (lit "low_quality")); discriminate.
Defined.

(** ** The scan: accounting and the shape of the plan *)

Lemma plan_count_append (P : FileInfo → Prop) `{!∀ info, Decision (P info)}
    (plan : Plan) (key : str) (info : FileInfo) :
  plan_count P (<[key := default [] (plan !! key) ++ [info]]> plan)
  = plan_count P plan + (if decide (P info) then 1 else 0).
Proof.
  unfold plan_count.
  assert (Hcomm : ∀ (z1 z2 : list FileInfo) (y : nat),
            y + length (filter P z2) + length (filter P z1)
            = y + length (filter P z1) + length (filter P z2)) by (intros; lia).
  destruct (plan !! key) as [old|] eqn:Hold; simpl.
  - rewrite <- insert_delete_eq.
    rewrite map_fold_insert_L; [|intros; apply Hcomm|apply lookup_delete_eq].
    rewrite (map_fold_delete_L _ 0 key old plan); [|intros; apply Hcomm|done].
    rewrite filter_app, length_app, filter_cons, filter_nil.
    destruct (decide (P info)); simpl; lia.
  - rewrite map_fold_insert_L; [|intros; apply Hcomm|done].
    rewrite filter_cons, filter_nil. destruct (decide (P info)); simpl; lia.
Qed.

Lemma plan_count_empty (P : FileInfo → Prop) `{!∀ info, Decision (P info)} :
  plan_count P ∅ = 0.
Proof. apply map_fold_empty. Qed.

(** Splitting a key at its separator, when the left part holds none. *)
Lemma slash_split (a a' b b' : str) :
  "/" ∉ a → "/" ∉ a' →
  a ++ lit "/" ++ b = a' ++ lit "/" ++ b' → a = a' ∧ b = b'.
Proof.
  revert a'. induction a as [|x a IH]; intros a' Ha Ha' Heq.
  - destruct a' as [|x' a'']; [by simplify_eq/= |].
    simplify_eq/=. exfalso. apply Ha'. by left.
  - destruct a' as [|x' a'']; simplify_eq/=.
    + exfalso. apply Ha. by left.
    + destruct (IH a'') as [-> ->]; [| |done|done].
      * intros Hin. apply Ha. by right.
      * intros Hin. apply Ha'. by right.
Qed.

Section ScanShape.

Variable read_metadata : PurePath → Metadata.
Variable read_bytes : PurePath → option (list Byte.byte).
Variable md5_hexdigest : list Byte.byte → str.

Local Abbreviation hash_of := (get_file_hash read_bytes md5_hexdigest).
Local Abbreviation step := (scan_file read_metadata read_bytes md5_hexdigest).
Local Abbreviation resolve := (parse_metadata read_metadata).

(** The loop body on a file with a new hash, spelled out. *)
Lemma scan_file_new_entry (st : Organizer * Plan) (p : PurePath) (h : str) :
  hash_of p = Some h → h ≠ [] → duplicates st.1 !! h = None →
  let r := (resolve st.1 p).1 in
  let info := mkFileInfo p (r_artist r) (r_album r) (r_track r) (r_genre r)
                (r_year r) (name p)
                (plan_dir (organized_path st.1) (config st.1) r) in
  (step st p).2
  = <[plan_key r := default [] (st.2 !! plan_key r) ++ [info]]> st.2
  ∧ config (step st p).1 = config st.1
  ∧ organized_path (step st p).1 = organized_path st.1
  ∧ total_files (stats (step st p).1) = S (total_files (stats st.1))
  ∧ manual_sort (stats (step st p).1)
    = manual_sort (stats st.1)
      + (if decide (r_artist r = Manual_Sort_Needed) then 1 else 0)
  ∧ metadata_parsed (stats (step st p).1)
    = metadata_parsed (stats st.1)
      + (if usable_artist (read_metadata p) then 1 else 0).
Proof.
  intros Hh Hne Hq r info. unfold scan_file. rewrite Hh.
  destruct h as [|c h']; [done |]. simpl. rewrite Hq.
  set (self1 := set_duplicates _ _).
  assert (Hr : (resolve self1 p).1 = r)
    by (by apply parse_metadata_result_config).
  destruct (parse_metadata_frame read_metadata self1 p) as (_ & Hc & Ho & Hs).
  rewrite Hr, Hc, Ho. unfold info, plan_key, plan_dir.
  case_bool_decide as Hm; simpl.
  - rewrite decide_True by done. rewrite Hc, Ho, Hs. simpl.
    split_and!; try done; destruct (usable_artist _); simpl; lia.
  - rewrite decide_False by done. rewrite Hc, Ho, Hs. simpl.
    split_and!; try done; destruct (usable_artist _); simpl; lia.
Qed.

Lemma scan_file_config (st : Organizer * Plan) (p : PurePath) :
  config (step st p).1 = config st.1
  ∧ organized_path (step st p).1 = organized_path st.1
  ∧ total_files (stats (step st p).1) = S (total_files (stats st.1)).
Proof.
  destruct (scan_file_cases read_bytes md5_hexdigest st p)
    as [Hu | [(h & q & Hh & Hne & Hq) | (h & Hh & Hne & Hq)]].
  - by rewrite scan_file_unhashed.
  - by rewrite (scan_file_duplicate _ _ _ st p q h).
  - by destruct (scan_file_new_entry st p h Hh Hne Hq) as (_ & ? & ? & ? & _).
Qed.

Lemma foldl_config (l : list PurePath) (st : Organizer * Plan) :
  config (foldl step st l).1 = config st.1
  ∧ organized_path (foldl step st l).1 = organized_path st.1
  ∧ total_files (stats (foldl step st l).1)
    = total_files (stats st.1) + length l.
Proof.
  revert st. induction l as [|p l IH]; intros st.
  { simpl. split_and!; [done | done | lia]. }
  simpl. destruct (IH (step st p)) as (-> & -> & ->).
  destruct (scan_file_config st p) as (-> & -> & ->).
  split_and!; [done | done | lia].
Qed.

Lemma foldl_accounting (l : list PurePath) (st : Organizer * Plan) :
  length (filter (λ p, Py.truthy (hash_of p) = false) l)
  + duplicates_removed (stats (foldl step st l).1)
  + plan_count (λ _, True) (foldl step st l).2
  = length l + duplicates_removed (stats st.1) + plan_count (λ _, True) st.2.
Proof.
  revert st. induction l as [|p l IH]; intros st; [simpl; lia |].
  simpl foldl. simpl length. rewrite filter_cons.
  specialize (IH (step st p)).
  destruct (scan_file_cases read_bytes md5_hexdigest st p)
    as [Hu | [(h & q & Hh & Hne & Hq) | (h & Hh & Hne & Hq)]].
  - rewrite decide_True by done. rewrite scan_file_unhashed in IH |- * by done.
    simpl in *. lia.
  - assert (Ht : Py.truthy (hash_of p) ≠ false)
      by (rewrite Hh; by destruct h).
    rewrite decide_False by done.
    rewrite (scan_file_duplicate _ _ _ st p q h) in IH |- * by done.
    simpl in *. lia.
  - assert (Ht : Py.truthy (hash_of p) ≠ false)
      by (rewrite Hh; by destruct h).
    rewrite decide_False by done.
    destruct (scan_file_new read_metadata read_bytes md5_hexdigest st p h
                Hh Hne Hq) as (_ & Hdr & _ & key & info & _ & Hplan).
    rewrite Hdr, Hplan, plan_count_append in IH. simpl in IH. lia.
Qed.

Lemma foldl_duplicates_removed_mono (l : list PurePath)
    (st : Organizer * Plan) :
  duplicates_removed (stats st.1)
  ≤ duplicates_removed (stats (foldl step st l).1).
Proof.
  revert st. induction l as [|p l IH]; intros st; [done |].
  simpl. etrans; [|apply IH].
  destruct (scan_file_cases read_bytes md5_hexdigest st p)
    as [Hu | [(h & q & Hh & Hne & Hq) | (h & Hh & Hne & Hq)]].
  - by rewrite scan_file_unhashed.
  - rewrite (scan_file_duplicate _ _ _ st p q h) by done. simpl. lia.
  - destruct (scan_file_new read_metadata read_bytes md5_hexdigest st p h
                Hh Hne Hq) as (_ & -> & _). done.
Qed.

(** X7: the scan accounts for every enumerated file exactly once:
    [total_files] grows by the number of files, and each file either has no
    usable hash, or is counted in [duplicates_removed], or is one entry of
    the plan. *)
Theorem scan_accounting (self : Organizer) (all_files : list PurePath) :
  let st := scan read_metadata read_bytes md5_hexdigest self all_files in
  total_files (stats st.1) = total_files (stats self) + length all_files
  ∧ length (filter (λ p, Py.truthy (hash_of p) = false) all_files)
    + (duplicates_removed (stats st.1) - duplicates_removed (stats self))
    + plan_count (λ _, True) st.2
    = length all_files
  ∧ duplicates_removed (stats self) ≤ duplicates_removed (stats st.1).
Proof.
  intros st. unfold st, scan.
  destruct (foldl_config all_files (self, ∅)) as (_ & _ & Ht).
  pose proof (foldl_accounting all_files (self, ∅)) as Ha.
  rewrite plan_count_empty in Ha. simpl in *.
  pose proof (foldl_duplicates_removed_mono all_files (self, ∅)) as Hm.
  simpl in Hm. split_and!; [done | lia | done].
Qed.

Lemma scan_file_plan_is_index (st : Organizer * Plan) (p : PurePath) :
  plan_is_index hash_of st → plan_is_index hash_of (step st p).
Proof.
  intros [Hpi Hip]. split.
  - intros q [Hq | [-> (h & Hh & Hne & Hnone)]]%scan_file_planned.
    + destruct (Hpi q Hq) as (h & Hh & Hd). exists h. split; [done |].
      by apply scan_file_duplicates_kept.
    + exists h. split; [done |].
      destruct (scan_file_new read_metadata read_bytes md5_hexdigest st p h
                  Hh Hne Hnone) as (-> & _).
      apply lookup_insert_eq.
  - intros h q Hd.
    destruct (scan_file_cases read_bytes md5_hexdigest st p)
      as [Hu | [(h' & q' & Hh & Hne & Hq) | (h' & Hh & Hne & Hq)]].
    + rewrite scan_file_unhashed in Hd |- * by done. by apply Hip.
    + rewrite (scan_file_duplicate _ _ _ st p q' h') in Hd |- * by done.
      by apply Hip.
    + destruct (scan_file_new read_metadata read_bytes md5_hexdigest st p h'
                  Hh Hne Hq) as (Hidx & _).
      rewrite Hidx in Hd. destruct (decide (h' = h)) as [-> | Hneq].
      * rewrite lookup_insert_eq in Hd. injection Hd as <-.
        split; [|done]. apply scan_file_planned. right.
        split; [done |]. by exists h.
      * rewrite lookup_insert_ne in Hd by done.
        destruct (Hip h q Hd) as [Hpl Hhq]. split; [|done].
        apply scan_file_planned. by left.
Qed.

Lemma foldl_plan_is_index (l : list PurePath) (st : Organizer * Plan) :
  plan_is_index hash_of st → plan_is_index hash_of (foldl step st l).
Proof.
  revert st. induction l as [|p l IH]; intros st Hinv; [done |].
  simpl. by apply IH, scan_file_plan_is_index.
Qed.

(** X8: after the scan of an organizer that starts with an empty index, the
    plan holds exactly the files of the duplicate index; every index entry is
    an enumerated file stored under its own hash, so no two planned files
    have the same content hash. *)
Theorem scan_plan_is_index (self : Organizer) (all_files : list PurePath) :
  duplicates self = ∅ →
  let st := scan read_metadata read_bytes md5_hexdigest self all_files in
  (∀ q, planned st.2 q ↔ ∃ h, duplicates st.1 !! h = Some q)
  ∧ (∀ h q, duplicates st.1 !! h = Some q →
            hash_of q = Some h ∧ q ∈ all_files)
  ∧ (∀ q1 q2, planned st.2 q1 → planned st.2 q2 →
              hash_of q1 = hash_of q2 → q1 = q2).
Proof.
  intros Hempty st.
  assert (Hinv : plan_is_index hash_of st).
  { apply foldl_plan_is_index. split.
    - intros q Hq. by apply planned_empty in Hq.
    - intros h q Hd. simpl in Hd. by rewrite Hempty, lookup_empty in Hd. }
  destruct Hinv as [Hpi Hip]. split_and!.
  - intros q. split.
    + intros Hq. destruct (Hpi q Hq) as (h & _ & Hd). by exists h.
    + intros [h Hd]. by apply (Hip h q).
  - intros h q Hd. destruct (Hip h q Hd) as [Hpl Hh]. split; [done |].
    apply foldl_planned_sources in Hpl as [Hpl | [Hin _]]; [|done].
    by apply planned_empty in Hpl.
  - intros q1 q2 H1 H2 Heq.
    destruct (Hpi q1 H1) as (h1 & Hh1 & Hd1).
    destruct (Hpi q2 H2) as (h2 & Hh2 & Hd2).
    assert (h1 = h2) as -> by congruence. congruence.
Qed.

Lemma resolved_key_facts (self : Organizer) (p : PurePath) :
  let r := (resolve self p).1 in
  ("/" ∉ r_artist r) ∧ r_artist r ≠ []
  ∧ (r_artist r ≠ Manual_Sort_Needed → r_album r ≠ []).
Proof.
  intros r.
  destruct (parse_metadata_safe read_metadata self p) as (Hsafe & _).
  destruct (safe_name_no_separator _ Hsafe) as (Hs & _).
  split; [done |].
  unfold r. destruct (parse_metadata_cases read_metadata self p)
    as [(a & al & t & g & y & -> & Ha & Hal & _) | ->];
    unfold r_artist, r_album; simpl; [done |].
  split; [done |]. intros H. by destruct H.
Qed.

Lemma joinpath_names (d : PurePath) (x : str) :
  x ≠ [] → names (joinpath d x) = names d ++ [x]
           ∧ anchor (joinpath d x) = anchor d.
Proof. by destruct x. Qed.

(** Key and directory of two resolver results go together. *)
Lemma plan_key_dir (self : Organizer) (p1 p2 : PurePath) :
  let r1 := (resolve self p1).1 in
  let r2 := (resolve self p2).1 in
  plan_key r1 = plan_key r2
  ↔ plan_dir (organized_path self) (config self) r1
    = plan_dir (organized_path self) (config self) r2.
Proof.
  intros r1 r2.
  destruct (resolved_key_facts self p1) as (Hs1 & Hn1 & Hal1).
  destruct (resolved_key_facts self p2) as (Hs2 & Hn2 & Hal2).
  fold r1 in Hs1, Hn1, Hal1. fold r2 in Hs2, Hn2, Hal2.
  assert (HMs : "/" ∉ Manual_Sort_Needed) by by_decide.
  unfold plan_key, plan_dir, manual_key.
  set (org := organized_path self). set (M := cfg_manual_sort_folder _).
  do 2 case_bool_decide; [done | | |].
  - split.
    + intros Heq. exfalso.
      change (lit "Manual Sort Needed/")
        with (Manual_Sort_Needed ++ lit "/" ++ []) in Heq.
      apply slash_split in Heq as [Heq _]; [|done..]. congruence.
    + intros Heq. exfalso. apply (f_equal (λ d, length (names d))) in Heq.
      destruct (joinpath_names org (r_artist r2) Hn2) as [Ha _].
      destruct (joinpath_names (joinpath org (r_artist r2)) (r_album r2))
        as [Hb _]; [by apply Hal2 |].
      rewrite Hb, Ha, !length_app in Heq. simpl in Heq.
      destruct M as [|c M']; simpl in Heq; [lia |].
      rewrite length_app in Heq. simpl in Heq. lia.
  - split.
    + intros Heq. exfalso.
      change (lit "Manual Sort Needed/")
        with (Manual_Sort_Needed ++ lit "/" ++ []) in Heq.
      apply slash_split in Heq as [Heq _]; [|done..]. congruence.
    + intros Heq. exfalso. apply (f_equal (λ d, length (names d))) in Heq.
      destruct (joinpath_names org (r_artist r1) Hn1) as [Ha _].
      destruct (joinpath_names (joinpath org (r_artist r1)) (r_album r1))
        as [Hb _]; [by apply Hal1 |].
      rewrite Hb, Ha, !length_app in Heq. simpl in Heq.
      destruct M as [|c M']; simpl in Heq; [lia |].
      rewrite length_app in Heq. simpl in Heq. lia.
  - split.
    + intros Heq. apply slash_split in Heq as [-> ->]; done.
    + intros Heq. apply (f_equal names) in Heq.
      destruct (joinpath_names org (r_artist r1) Hn1) as [Ha1 _].
      destruct (joinpath_names (joinpath org (r_artist r1)) (r_album r1))
        as [Hb1 _]; [by apply Hal1 |].
      destruct (joinpath_names org (r_artist r2) Hn2) as [Ha2 _].
      destruct (joinpath_names (joinpath org (r_artist r2)) (r_album r2))
        as [Hb2 _]; [by apply Hal2 |].
      rewrite Hb1, Hb2, Ha1, Ha2, <- !app_assoc in Heq.
      apply app_inv_head in Heq. simpl in Heq.
      injection Heq as Hea Heb. by rewrite Hea, Heb.
Qed.

Lemma scan_file_plan_consistent (self : Organizer) (st : Organizer * Plan)
    (p : PurePath) :
  config st.1 = config self → organized_path st.1 = organized_path self →
  plan_consistent read_metadata self st.2 →
  plan_consistent read_metadata self (step st p).2.
Proof.
  intros Hc Ho Hinv.
  destruct (scan_file_cases read_bytes md5_hexdigest st p)
    as [Hu | [(h & q & Hh & Hne & Hq) | (h & Hh & Hne & Hq)]].
  - by rewrite scan_file_unhashed.
  - by rewrite (scan_file_duplicate _ _ _ st p q h).
  - destruct (scan_file_new_entry st p h Hh Hne Hq) as (-> & _).
    intros key infos info Hkey Hin.
    assert (Hr : (resolve st.1 p).1 = (resolve self p).1)
      by (by apply parse_metadata_result_config).
    rewrite Hr, Hc, Ho in Hkey.
    destruct (decide (plan_key (resolve self p).1 = key)) as [<- | Hk].
    + rewrite lookup_insert_eq in Hkey. injection Hkey as <-.
      apply elem_of_app in Hin as [Hin | ->%list_elem_of_singleton].
      * destruct (st.2 !! plan_key (resolve self p).1) as [old|] eqn:Hold;
          [|by inversion Hin].
        by apply (Hinv _ old).
      * unfold entry_consistent. simpl.
        destruct (resolve self p).1 as [[[[a al] t] g] y]. done.
    + rewrite lookup_insert_ne in Hkey by done. by apply (Hinv key infos).
Qed.

Lemma foldl_plan_consistent (self : Organizer) (l : list PurePath)
    (st : Organizer * Plan) :
  config st.1 = config self → organized_path st.1 = organized_path self →
  plan_consistent read_metadata self st.2 →
  plan_consistent read_metadata self (foldl step st l).2.
Proof.
  revert st. induction l as [|p l IH]; intros st Hc Ho Hinv; [done |].
  simpl. destruct (scan_file_config st p) as (Hc' & Ho' & _).
  apply IH; [congruence | congruence |].
  by apply scan_file_plan_consistent.
Qed.


Lemma plan_key_manual (self : Organizer) (p : PurePath) :
  plan_key (resolve self p).1 = manual_key
  ↔ r_artist (resolve self p).1 = Manual_Sort_Needed.
Proof.
  destruct (resolved_key_facts self p) as (Hs & _ & _).
  unfold plan_key. case_bool_decide as Hm; [done |]. split; [|done].
  intros Heq. exfalso.
  change manual_key with (Manual_Sort_Needed ++ lit "/" ++ []) in Heq.
  apply slash_split in Heq as [Heq _]; [done | done | by_decide].
Qed.

Lemma foldl_counters (l : list PurePath) (st : Organizer * Plan) :
  manual_sort (stats (foldl step st l).1)
  + length (default [] (st.2 !! manual_key))
  = manual_sort (stats st.1)
    + length (default [] ((foldl step st l).2 !! manual_key))
  ∧ metadata_parsed (stats (foldl step st l).1)
    + plan_count (λ info, usable_artist (read_metadata (original_path info)) = true)
        st.2
    = metadata_parsed (stats st.1)
      + plan_count
          (λ info, usable_artist (read_metadata (original_path info)) = true)
          (foldl step st l).2.
Proof.
  revert st. induction l as [|p l IH]; intros st; [done |].
  simpl. destruct (IH (step st p)) as [IHm IHp].
  destruct (scan_file_cases read_bytes md5_hexdigest st p)
    as [Hu | [(h & q & Hh & Hne & Hq) | (h & Hh & Hne & Hq)]].
  - rewrite scan_file_unhashed in IHm, IHp |- * by done. done.
  - rewrite (scan_file_duplicate _ _ _ st p q h) in IHm, IHp |- * by done.
    done.
  - destruct (scan_file_new_entry st p h Hh Hne Hq)
      as (Hplan & _ & _ & _ & Hms & Hmp).
    rewrite Hplan, Hms in IHm. rewrite Hplan, Hmp, plan_count_append in IHp.
    simpl in IHp. split.
    + destruct (decide (r_artist (resolve st.1 p).1 = Manual_Sort_Needed))
        as [Hm | Hm].
      * rewrite (proj2 (plan_key_manual st.1 p) Hm) in IHm.
        rewrite lookup_insert_eq in IHm. simpl in IHm.
        rewrite length_app in IHm. simpl in IHm. lia.
      * rewrite lookup_insert_ne in IHm; [lia |].
        intros Hk. by apply plan_key_manual in Hk.
    + destruct (usable_artist (read_metadata p)) eqn:Hu'.
      * rewrite decide_True in IHp by done. lia.
      * rewrite decide_False in IHp by done. lia.
Qed.

(** X10: over a scan, [manual_sort] grows by the number of entries planned
    under the manual-sort key, and [metadata_parsed] by the number of plan
    entries whose file was answered by its tags. *)
Theorem scan_counters (self : Organizer) (all_files : list PurePath) :
  let st := scan read_metadata read_bytes md5_hexdigest self all_files in
  manual_sort (stats st.1)
  = manual_sort (stats self) + length (default [] (st.2 !! manual_key))
  ∧ metadata_parsed (stats st.1)
    = metadata_parsed (stats self)
      + plan_count
          (λ info, usable_artist (read_metadata (original_path info)) = true)
          st.2.
Proof.
  intros st. destruct (foldl_counters all_files (self, ∅)) as [Hm Hp].
  rewrite plan_count_empty in Hp. simpl in Hm. rewrite lookup_empty in Hm.
  simpl in Hm, Hp. split; [exact (eq_trans (eq_sym (Nat.add_0_r _)) Hm) |].
  exact (eq_trans (eq_sym (Nat.add_0_r _)) Hp).
Qed.

Lemma check_near_duplicates_keyed (self : Organizer) (p : PurePath)
    (m : Metadata) :
  near_duplicates (check_near_duplicates self p m) = near_duplicates self
  ∨ ∃ artist title,
      meta_artist m = Some artist ∧ meta_title m = Some title
      ∧ artist ≠ [] ∧ title ≠ []
      ∧ near_duplicates (check_near_duplicates self p m)
        = append_to (near_key artist title) p (near_duplicates self).
Proof.
  unfold check_near_duplicates.
  destruct (cfg_find_near_duplicates _); [|by left]. simpl.
  destruct (meta_artist m) as [[|c a]|]; [by left | | by left].
  destruct (meta_title m) as [[|c' t]|]; [by left | | by left].
  right. exists (c :: a), (c' :: t). by split_and!.
Qed.

Lemma foldl_groups (l seen : list PurePath) (st : Organizer * Plan) :
  (∀ key group, near_duplicates st.1 !! key = Some group →
                group `sublist_of` seen) →
  groups_keyed read_metadata (near_duplicates st.1) →
  (∀ key group, near_duplicates (foldl step st l).1 !! key = Some group →
                group `sublist_of` seen ++ l)
  ∧ groups_keyed read_metadata (near_duplicates (foldl step st l).1).
Proof.
  revert seen st. induction l as [|p l IH]; intros seen st Hsub Hkeyed.
  { by rewrite app_nil_r. }
  simpl. replace (seen ++ p :: l) with ((seen ++ [p]) ++ l)
    by (by rewrite <- app_assoc).
  assert (Hold : ∀ key group, near_duplicates st.1 !! key = Some group →
                   group `sublist_of` seen ++ [p])
    by (intros key group Hk; by apply sublist_inserts_r, (Hsub key)).
  assert (Hcases : near_duplicates (step st p).1 = near_duplicates st.1
          ∨ ∃ artist title,
              meta_artist (read_metadata p) = Some artist
              ∧ meta_title (read_metadata p) = Some title
              ∧ artist ≠ [] ∧ title ≠ []
              ∧ near_duplicates (step st p).1
                = append_to (near_key artist title) p (near_duplicates st.1)).
  { destruct (scan_file_cases read_bytes md5_hexdigest st p)
      as [Hu | [(h & q & Hh & Hne & Hq) | (h & Hh & Hne & Hq)]].
    - left. by rewrite scan_file_unhashed.
    - left. by rewrite (scan_file_duplicate _ _ _ st p q h).
    - destruct (scan_file_new read_metadata read_bytes md5_hexdigest st p h
                  Hh Hne Hq) as (_ & _ & -> & _).
      apply check_near_duplicates_keyed. }
  apply IH.
  - destruct Hcases as [-> | (a & t & _ & _ & _ & _ & ->)]; [done |].
    intros key group Hk. unfold append_to in Hk.
    destruct (decide (near_key a t = key)) as [<- | Hne].
    + rewrite lookup_insert_eq in Hk. injection Hk as <-.
      apply sublist_app; [|done].
      destruct (near_duplicates st.1 !! near_key a t) as [old|] eqn:Hg;
        [by apply (Hsub (near_key a t) old) | apply sublist_nil_l].
    + rewrite lookup_insert_ne in Hk by done. by apply (Hold key).
  - destruct Hcases as [-> | (a & t & Ha & Ht & Hane & Htne & ->)]; [done |].
    intros key group q Hk Hq. unfold append_to in Hk.
    destruct (decide (near_key a t = key)) as [<- | Hne].
    + rewrite lookup_insert_eq in Hk. injection Hk as <-.
      apply elem_of_app in Hq as [Hq | ->%list_elem_of_singleton].
      * destruct (near_duplicates st.1 !! near_key a t) as [old|] eqn:Hg;
          [|by inversion Hq].
        by apply (Hkeyed (near_key a t) old).
      * by exists a, t.
    + rewrite lookup_insert_ne in Hk by done. by apply (Hkeyed key group).
Qed.

(** X11: after the run of an organizer that starts without groups, every
    near-duplicate group lists enumerated files in enumeration order (it is a
    sublist of the enumeration, so without repetition when the enumeration
    has none), and every member's tags give the key of its group. *)
Theorem near_duplicate_groups_ordered (self : Organizer)
    (all_files : list PurePath) (proceed : bool) :
  near_duplicates self = ∅ →
  let st := organize read_metadata read_bytes md5_hexdigest self all_files
              proceed in
  ∀ key group,
    near_duplicates st.1 !! key = Some group →
    group `sublist_of` all_files
    ∧ (NoDup all_files → NoDup group)
    ∧ ∀ q, q ∈ group →
        ∃ artist title,
          meta_artist (read_metadata q) = Some artist
          ∧ meta_title (read_metadata q) = Some title
          ∧ key = Py.lower artist ++ lit "_" ++ Py.lower title.
Proof.
  intros Hempty st key group Hk.
  assert (Hst : near_duplicates st.1
                = near_duplicates
                    (foldl step (self, ∅) all_files).1).
  { unfold st, organize, scan. destruct proceed; [|done]. simpl.
    apply generate_reports_tables. }
  rewrite Hst in Hk.
  destruct (foldl_groups all_files [] (self, ∅)) as [Hsub Hkeyed].
  - intros k g Hg. simpl in Hg. by rewrite Hempty, lookup_empty in Hg.
  - intros k g q Hg. simpl in Hg. by rewrite Hempty, lookup_empty in Hg.
  - specialize (Hsub key group Hk). simpl in Hsub. split_and!.
    + done.
    + intros Hnd. by eapply sublist_NoDup.
    + intros q Hq. destruct (Hkeyed key group q Hk Hq)
        as (a & t & Ha & Ht & _ & _ & ->).
      by exists a, t.
Qed.

End ScanShape.

Lemma scan_plan_is_index_witness :
  let st := scan (λ _, no_tags) sample_bytes sample_digest
              (init out_dir defaults) [file_a; file_b] in
  (planned st.2 file_b ↔ ∃ h, duplicates st.1 !! h = Some file_b)
  ∧ ∀ h q, duplicates st.1 !! h = Some q →
           get_file_hash sample_bytes sample_digest q = Some h
           ∧ q ∈ [file_a; file_b].
Proof.
  intros st.
  destruct (scan_plan_is_index (λ _, no_tags) sample_bytes sample_digest
              (init out_dir defaults) [file_a; file_b] eq_refl)
    as (H1 & H2 & _).
  split; [apply H1 | exact H2].
Defined.


Lemma near_duplicate_groups_ordered_witness :
  let st := organize (λ _, acdc_tags) sample_bytes sample_digest
              (init out_dir defaults) [file_a; file_b] true in
  near_duplicates st.1 !! lit "ac/dc_t.n.t." = Some [file_a]
  ∧ [file_a] `sublist_of` [file_a; file_b].
Proof.
  intros st.
  assert (Hk : near_duplicates st.1 !! lit "ac/dc_t.n.t." = Some [file_a])
    by (vm_compute; reflexivity).
  split; [exact Hk |].
  exact (proj1 (near_duplicate_groups_ordered (λ _, acdc_tags) sample_bytes
                  sample_digest (init out_dir defaults) [file_a; file_b] true
                  eq_refl (lit "ac/dc_t.n.t.") [file_a] Hk)).
Defined.

(** ** Enumeration with an empty skip entry *)

(** X12: the empty string occurs in every path string, so when it is one of
    the configured skip entries no file is enumerated at all; an empty
    [skip_folders] value is split into just that entry. *)
Theorem enumeration_empty_skip_entry (path_str : PurePath → str)
    (cfg : Config) :
  (lit "" ∈ skip_entries cfg →
     ∀ rglob, get_all_music_files path_str cfg rglob = [])
  ∧ (cfg_skip_folders cfg = lit "" → skip_entries cfg = [lit ""]).
Proof.
  split.
  - intros Hin rglob.
    assert (Hskip : ∀ p, in_skipped_folder path_str cfg p = true).
    { intros p. apply in_skipped_folder_iff.
      exists [], [], (path_str p). by split. }
    induction rglob as [|e rest IH]; [done |]. simpl. by rewrite Hskip.
  - intros Hv. unfold skip_entries. by rewrite Hv.
Qed.

Lemma enumeration_empty_skip_entry_witness :
  get_all_music_files posix_str empty_skip [entry_trash; entry_song] = [].
Proof.
  apply (proj1 (enumeration_empty_skip_entry posix_str empty_skip)).
  by left.
Defined.

(** ** Placement: free target names *)

Lemma lit_inj (s1 s2 : string) : lit s1 = lit s2 → s1 = s2.
Proof.
  intros H. apply (f_equal String.string_of_list_ascii) in H.
  unfold lit in H. by rewrite !String.string_of_list_ascii_of_string in H.
Qed.

Lemma decimal_inj (n m : nat) : decimal n = decimal m → n = m.
Proof.
  intros H%lit_inj. apply DecimalNat.Unsigned.to_uint_inj.
  assert (Hs : Some (Nat.to_uint n) = Some (Nat.to_uint m))
    by (by rewrite <- !NilEmpty.usu, H).
  by injection Hs.
Qed.

Lemma numbered_name_inj (orig : PurePath) (n m : nat) :
  numbered_name orig n = numbered_name orig m → n = m.
Proof.
  unfold numbered_name. intros H. apply app_inv_head in H.
  simpl in H. injection H as H. apply app_inv_tail in H.
  by apply decimal_inj.
Qed.

Lemma numbered_name_nonempty (orig : PurePath) (n : nat) :
  numbered_name orig n ≠ [].
Proof. unfold numbered_name. by destruct (stem orig). Qed.

Lemma joinpath_inj (d : PurePath) (x y : str) :
  x ≠ [] → y ≠ [] → joinpath d x = joinpath d y → x = y.
Proof.
  intros Hx Hy H. apply (f_equal names) in H.
  rewrite (proj1 (joinpath_names d x Hx)), (proj1 (joinpath_names d y Hy)) in H.
  apply app_inv_head in H. by injection H.
Qed.

Lemma candidate_inj (d orig : PurePath) (filename : str) (i j : nat) :
  0 < i → 0 < j →
  candidate d orig filename i = candidate d orig filename j → i = j.
Proof.
  destruct i as [|i], j as [|j]; [lia.. |]. intros _ _ H. simpl in H.
  apply joinpath_inj in H; [|apply numbered_name_nonempty..].
  by apply numbered_name_inj in H.
Qed.

(** Numbered candidates that all exist are no more than the existing paths. *)
Lemma candidates_bounded (fs : gset PurePath) (d orig : PurePath)
    (filename : str) (m : nat) :
  (∀ j, 1 ≤ j ≤ m → candidate d orig filename j ∈ fs) → m ≤ size fs.
Proof.
  intros Hall.
  set (l := candidate d orig filename <$> seq 1 m).
  assert (Hnd : NoDup l).
  { apply NoDup_fmap_2_strong; [|apply NoDup_seq].
    intros i j Hi%elem_of_seq Hj%elem_of_seq Heq.
    apply (candidate_inj d orig filename); [lia | lia | done]. }
  assert (Hsub : l ⊆+ elements fs).
  { apply NoDup_submseteq; [done |]. intros x Hx.
    apply list_elem_of_fmap in Hx as (j & -> & Hj%elem_of_seq).
    apply elem_of_elements, Hall. lia. }
  apply submseteq_length in Hsub. unfold l in Hsub.
  rewrite length_fmap, length_seq in Hsub. done.
Qed.

Lemma free_target_loop (fs : gset PurePath) (d orig : PurePath)
    (filename : str) (fuel i : nat) :
  (∀ j, j < i → candidate d orig filename j ∈ fs) →
  size fs + 2 ≤ fuel + i →
  ∃ k, i ≤ k
       ∧ free_target fuel fs d orig (candidate d orig filename i) (S i)
         = Some (candidate d orig filename k)
       ∧ (candidate d orig filename k ∉ fs)
       ∧ ∀ j, j < k → candidate d orig filename j ∈ fs.
Proof.
  revert i. induction fuel as [|fuel IH]; intros i Hbefore Hfuel.
  - exfalso.
    assert (i - 1 ≤ size fs); [|lia].
    apply (candidates_bounded fs d orig filename). intros j Hj.
    apply Hbefore. lia.
  - simpl. case_bool_decide as Hin.
    + destruct (IH (S i)) as (k & Hk & Hres & Hfree & Hall).
      * intros j Hj. destruct (decide (j = i)) as [-> | Hne]; [done |].
        apply Hbefore. lia.
      * lia.
      * exists k. split_and!; [lia | exact Hres | done | done].
    + exists i. by split_and!.
Qed.

(** X13: with finitely many existing paths the search for a free target
    name ends, after at most one test more than there are paths: it returns
    [target_dir / filename] when that is free, and otherwise the numbered
    name [stem_k.suffix] with the least counter [k] from 1 on that is free;
    the returned path never exists yet. More tests than that change
    nothing. *)
Theorem resolve_collision_free (fs : gset PurePath)
    (target_dir original_path : PurePath) (filename : str) :
  ∃ k,
    resolve_collision fs target_dir original_path filename
    = Some (candidate target_dir original_path filename k)
    ∧ (candidate target_dir original_path filename k ∉ fs)
    ∧ (∀ j, j < k → candidate target_dir original_path filename j ∈ fs)
    ∧ k ≤ size fs + 1
    ∧ (joinpath target_dir filename ∉ fs → k = 0)
    ∧ (0 < k →
       candidate target_dir original_path filename k
       = joinpath target_dir
           (stem original_path ++ lit "_" ++ decimal k ++ suffix original_path))
    ∧ (∀ fuel, size fs + 2 ≤ fuel →
         free_target fuel fs target_dir original_path
           (joinpath target_dir filename) 1
         = Some (candidate target_dir original_path filename k)).
Proof.
  destruct (free_target_loop fs target_dir original_path filename
              (size fs + 2) 0) as (k & _ & Hres & Hfree & Hall); [lia | lia |].
  exists k. split_and!; [exact Hres | done | done | | | |].
  - destruct k as [|k]; [lia |].
    assert (S k - 1 ≤ size fs); [|lia].
    apply (candidates_bounded fs target_dir original_path filename).
    intros j Hj. apply Hall. lia.
  - intros Hfree0. destruct k as [|k]; [done |].
    exfalso. apply Hfree0. apply (Hall 0). lia.
  - intros Hk. destruct k; [lia | done].
  - intros fuel Hfuel.
    destruct (free_target_loop fs target_dir original_path filename fuel 0)
      as (k' & _ & Hres' & Hfree' & Hall'); [lia | lia |].
    change (candidate target_dir original_path filename 0)
      with (joinpath target_dir filename) in Hres'.
    rewrite Hres'. do 2 f_equal.
    destruct (Nat.lt_trichotomy k' k) as [Hlt | [-> | Hlt]]; [|done|].
    + exfalso. apply Hfree'. by apply Hall.
    + exfalso. apply Hfree. by apply Hall'.
Qed.

Lemma resolve_collision_free_witness :
  resolve_collision
    {[ mkPath [] [lit "Queen"; lit "song.mp3"];
       mkPath [] [lit "Queen"; lit "song_1.mp3"] ]}
    (mkPath [] [lit "Queen"]) (song_in (lit "in")) (lit "song.mp3")
  = Some (mkPath [] [lit "Queen"; lit "song_2.mp3"]).
Proof.
  destruct (resolve_collision_free
              {[ mkPath [] [lit "Queen"; lit "song.mp3"];
                 mkPath [] [lit "Queen"; lit "song_1.mp3"] ]}
              (mkPath [] [lit "Queen"]) (song_in (lit "in")) (lit "song.mp3"))
    as (k & Hres & Hfree & Hall & _).
  rewrite Hres. f_equal.
  destruct k as [|[|[|k]]].
  - exfalso. apply Hfree. vm_compute candidate.
    apply elem_of_union. left. by apply elem_of_singleton.
  - exfalso. apply Hfree. vm_compute candidate.
    apply elem_of_union. right. by apply elem_of_singleton.
  - by vm_compute.
  - exfalso. specialize (Hall 2 ltac:(lia)). vm_compute candidate in Hall.
    apply elem_of_union in Hall as [Hall | Hall];
      apply elem_of_singleton in Hall; discriminate.
Defined.

(** ** Placement: the copy loop of one group *)

Lemma resolve_collision_Some (fs : gset PurePath) (d orig : PurePath)
    (filename : str) :
  ∃ k, resolve_collision fs d orig filename
       = Some (candidate d orig filename k)
       ∧ (candidate d orig filename k ∉ fs).
Proof.
  destruct (free_target_loop fs d orig filename (size fs + 2) 0)
    as (k & _ & Hres & Hfree & _); [intros; lia | lia |].
  by exists k.
Qed.

Section CopyFacts.

Variable copy2_raises : PurePath → PurePath → bool.

Lemma copy_group_spec (target_dir : PurePath) (files : list FileInfo)
    (fs : gset PurePath) (organized : nat) :
  ∃ fs' placed n raised,
    copy_group copy2_raises target_dir files fs organized
    = Some (fs', placed, n, raised)
    ∧ n = organized + length placed
    ∧ placed.*1 `prefix_of` files
    ∧ (raised = false → placed.*1 = files)
    ∧ NoDup placed.*2
    ∧ (∀ t, t ∈ placed.*2 → t ∉ fs)
    ∧ fs' = list_to_set placed.*2 ∪ fs
    ∧ (∀ info t, (info, t) ∈ placed →
         ∃ k, t = candidate target_dir (original_path info) (filename info) k)
    ∧ ((∀ s t, copy2_raises s t = false) → raised = false).
Proof.
  revert fs organized. induction files as [|info rest IH]; intros fs organized.
  { exists fs, [], organized, false. simpl. split_and!.
    - done.
    - lia.
    - done.
    - done.
    - constructor.
    - by intros t ?%elem_of_nil.
    - simpl. by rewrite (left_id_L ∅ (∪)).
    - by intros ? ? ?%elem_of_nil.
    - done. }
  simpl.
  destruct (resolve_collision_Some fs target_dir (original_path info)
              (filename info)) as (k & -> & Hfree).
  set (t0 := candidate target_dir (original_path info) (filename info) k) in *.
  destruct (copy2_raises (original_path info) t0) eqn:Hraise.
  { exists fs, [], organized, true. simpl. split_and!.
    - done.
    - lia.
    - apply prefix_nil.
    - done.
    - constructor.
    - by intros t ?%elem_of_nil.
    - simpl. by rewrite (left_id_L ∅ (∪)).
    - by intros ? ? ?%elem_of_nil.
    - intros Hnever. by rewrite Hnever in Hraise. }
  destruct (IH ({[t0]} ∪ fs) (S organized))
    as (fs' & placed & n & raised & -> & Hn & Hpre & Hall & Hnd & Hnew & Hfs
        & Hcand & Hnever).
  exists fs', ((info, t0) :: placed), n, raised. simpl. split_and!.
  - done.
  - lia.
  - by apply prefix_cons.
  - intros Hr. f_equal. by apply Hall.
  - constructor; [|done]. intros Hin. apply (Hnew t0 Hin).
    apply elem_of_union. left. by apply elem_of_singleton.
  - intros t [-> | Hin]%elem_of_cons; [done |].
    intros Hfs'. apply (Hnew t Hin). apply elem_of_union. by right.
  - rewrite Hfs. apply set_eq. intros x.
    rewrite !elem_of_union, elem_of_singleton. tauto.
  - intros info' t [[= -> ->] | Hin]%elem_of_cons; [by exists k |].
    by apply Hcand.
  - done.
Qed.

(** X14: the copy loop of a group never writes onto a path that exists and
    never uses a target twice: the targets of the copied files are pairwise
    different, none existed before, each is the plain or a numbered name in
    the target directory; the files are copied in plan order up to the first
    copy that raises, [organized] grows by their number, and when no copy
    raises every file of the group is copied. *)
Theorem copy_group_safe (target_dir : PurePath) (files : list FileInfo)
    (fs : gset PurePath) (organized : nat) :
  ∃ fs' placed n raised,
    copy_group copy2_raises target_dir files fs organized
    = Some (fs', placed, n, raised)
    ∧ n = organized + length placed
    ∧ placed.*1 `prefix_of` files
    ∧ (raised = false → placed.*1 = files)
    ∧ NoDup placed.*2
    ∧ (∀ t, t ∈ placed.*2 → t ∉ fs)
    ∧ fs' = list_to_set placed.*2 ∪ fs
    ∧ (∀ info t, (info, t) ∈ placed →
         ∃ k, t = candidate target_dir (original_path info) (filename info) k)
    ∧ ((∀ s t, copy2_raises s t = false) → raised = false).
Proof. apply copy_group_spec. Qed.

End CopyFacts.

Lemma copy_group_safe_witness :
  ∃ fs' placed n,
    copy_group (λ _ _, false) (mkPath [] [lit "Queen"; lit "Singles"])
      [song_info (lit "a"); song_info (lit "b")] ∅ 0
    = Some (fs', placed, n, false)
    ∧ placed.*1 = [song_info (lit "a"); song_info (lit "b")]
    ∧ NoDup placed.*2.
Proof.
  destruct (copy_group_safe (λ _ _, false)
              (mkPath [] [lit "Queen"; lit "Singles"])
              [song_info (lit "a"); song_info (lit "b")] ∅ 0)
    as (fs' & placed & n & raised & Heq & _ & _ & Hall & Hnd & _ & _ & _ & Hnr).
  assert (raised = false) as -> by (by apply Hnr).
  exists fs', placed, n. split_and!; [exact Heq | by apply Hall | exact Hnd].
Defined.

(** ** The boundary fingerprint *)

(** Splitting a string at a separator that the left part does not hold. *)
Lemma sep_split (c : ascii) (a a' b b' : str) :
  c ∉ a → c ∉ a' → a ++ c :: b = a' ++ c :: b' → a = a' ∧ b = b'.
Proof.
  revert a'. induction a as [|x a IH]; intros a' Ha Ha' Heq.
  - destruct a' as [|x' a'']; [by simplify_eq/= |].
    simplify_eq/=. exfalso. apply Ha'. by left.
  - destruct a' as [|x' a'']; simplify_eq/=.
    + exfalso. apply Ha. by left.
    + destruct (IH a'') as [-> ->]; [| |done|done].
      * intros Hin. apply Ha. by right.
      * intros Hin. apply Ha'. by right.
Qed.

Lemma string_of_uint_digits (d : Decimal.uint) :
  Forall (λ c, Py.isdecimal c = true) (lit (NilEmpty.string_of_uint d)).
Proof. induction d; simpl; constructor; done. Qed.

Lemma decimal_digits (n : nat) :
  Forall (λ c, Py.isdecimal c = true) (decimal n).
Proof. apply string_of_uint_digits. Qed.

Lemma decimal_no_underscore (n : nat) : "_" ∉ decimal n.
Proof.
  intros Hin. pose proof (decimal_digits n) as Hd.
  rewrite Forall_forall in Hd. by apply Hd in Hin.
Qed.

(** X15: the fingerprint looks at the size and at the first and the last
    1024 bytes only: two files of the same size that differ only between
    these two blocks have the same fingerprint. *)
Theorem fingerprint_ignores_middle (md5_hexdigest : list Byte.byte → str)
    (head mid mid' tail : list Byte.byte) :
  length head = 1024 → length tail = 1024 → length mid = length mid' →
  get_audio_fingerprint md5_hexdigest (Some (head ++ mid ++ tail))
  = Some (decimal (2048 + length mid) ++ lit "_"
          ++ take 8 (md5_hexdigest (head ++ tail)))
  ∧ get_audio_fingerprint md5_hexdigest (Some (head ++ mid' ++ tail))
    = get_audio_fingerprint md5_hexdigest (Some (head ++ mid ++ tail)).
Proof.
  intros Hh Ht Hm.
  assert (Hfp : ∀ m, get_audio_fingerprint md5_hexdigest
                       (Some (head ++ m ++ tail))
                     = Some (decimal (2048 + length m) ++ lit "_"
                             ++ take 8 (md5_hexdigest (head ++ tail)))).
  { intros m. unfold get_audio_fingerprint.
    assert (Hlen : length (head ++ m ++ tail) = 2048 + length m)
      by (rewrite !length_app; lia).
    rewrite Hlen.
    destruct (Nat.ltb_spec (2048 + length m) 1024) as [?|_]; [lia|].
    rewrite take_app_length' by done.
    replace (2048 + length m - 1024) with (length head + length m) by lia.
    rewrite drop_app_add', drop_app_length; done. }
  split; [apply Hfp|]. by rewrite !Hfp, Hm.
Qed.

Lemma fingerprint_ignores_middle_witness :
  block Byte.x00 ++ [Byte.x01] ++ block Byte.xff
  ≠ block Byte.x00 ++ [Byte.x02] ++ block Byte.xff
  ∧ get_audio_fingerprint (λ _, lit "0123456789abcdef0123456789abcdef")
      (Some (block Byte.x00 ++ [Byte.x02] ++ block Byte.xff))
    = get_audio_fingerprint (λ _, lit "0123456789abcdef0123456789abcdef")
        (Some (block Byte.x00 ++ [Byte.x01] ++ block Byte.xff)).
Proof.
  split.
  - intros H. apply app_inv_head in H. discriminate H.
  - apply (fingerprint_ignores_middle _ (block Byte.x00) [Byte.x01]
             [Byte.x02] (block Byte.xff)); reflexivity.
Defined.

(** X16: a file has no fingerprint exactly when it cannot be read or is
    shorter than 1024 bytes, and files with the same fingerprint have the
    same size. *)
Theorem fingerprint_size (md5_hexdigest : list Byte.byte → str) :
  (∀ data,
     get_audio_fingerprint md5_hexdigest data = None
     ↔ ∀ bytes, data = Some bytes → length bytes < 1024)
  ∧ (∀ a b,
       is_Some (get_audio_fingerprint md5_hexdigest (Some a)) →
       get_audio_fingerprint md5_hexdigest (Some a)
       = get_audio_fingerprint md5_hexdigest (Some b) →
       length a = length b).
Proof.
  split.
  - intros [bytes|]; simpl; [|split; [intros _ ? [=] | done]].
    destruct (Nat.ltb_spec (length bytes) 1024) as [Hlt|Hge].
    + split; [|done]. by intros _ ? [= <-].
    + split; [done|]. intros H. specialize (H bytes eq_refl). lia.
  - intros a b [x Ha] Hab. rewrite Ha in Hab. symmetry in Hab.
    unfold get_audio_fingerprint in Ha, Hab.
    destruct (length a <? 1024)%nat; [done|].
    destruct (length b <? 1024)%nat; [done|].
    injection Ha as <-. injection Hab as Hab.
    apply sep_split in Hab as [Hab _]; [|apply decimal_no_underscore..].
    by apply decimal_inj in Hab.
Qed.

(** ** Tag reading *)

Lemma first_tag_Some (audio_file : gmap str TagValue) (tag_names : list str)
    (s : str) :
  first_tag audio_file tag_names = Some s
  ↔ first_usable audio_file tag_names s.
Proof.
  induction tag_names as [|tag rest IH]; simpl.
  - split; [done|]. intros (i & ? & ? & Hi & _). by rewrite lookup_nil in Hi.
  - destruct (audio_file !! tag ≫= usable_text) as [text|] eqn:Hhere.
    + assert (Hstep : match audio_file !! tag with
                      | Some value =>
                          match usable_text value with
                          | Some text => Some text
                          | None => first_tag audio_file rest
                          end
                      | None => first_tag audio_file rest
                      end = Some text).
      { destruct (audio_file !! tag) as [value|]; [|done]. simpl in Hhere.
        by rewrite Hhere. }
      rewrite Hstep. split.
      * intros [= <-]. destruct (audio_file !! tag) as [value|] eqn:Hv; [|done].
        exists 0, tag, value. split_and!; [done..|]. intros; lia.
      * intros (i & tag' & value & Hi & Hv & Hu & Hbefore).
        destruct i as [|i].
        -- injection Hi as <-. rewrite Hv in Hhere. simpl in Hhere. congruence.
        -- specialize (Hbefore 0 tag ltac:(lia) eq_refl). congruence.
    + assert (Hstep : match audio_file !! tag with
                      | Some value =>
                          match usable_text value with
                          | Some text => Some text
                          | None => first_tag audio_file rest
                          end
                      | None => first_tag audio_file rest
                      end = first_tag audio_file rest).
      { destruct (audio_file !! tag) as [value|]; [|done]. simpl in Hhere.
        by rewrite Hhere. }
      rewrite Hstep, IH. split.
      * intros (i & tag' & value & Hi & Hv & Hu & Hbefore).
        exists (S i), tag', value. split_and!; [done..|].
        intros [|j] tag'' Hj Hl; [by injection Hl as <-|].
        apply (Hbefore j); [lia | done].
      * intros (i & tag' & value & Hi & Hv & Hu & Hbefore).
        destruct i as [|i].
        -- injection Hi as <-. rewrite Hv in Hhere. simpl in Hhere. congruence.
        -- exists i, tag', value. split_and!; [done..|].
           intros j tag'' Hj Hl. apply (Hbefore (S j)); [lia | done].
Qed.

Lemma first_tag_None (audio_file : gmap str TagValue) (tag_names : list str) :
  first_tag audio_file tag_names = None
  ↔ ∀ tag, tag ∈ tag_names → audio_file !! tag ≫= usable_text = None.
Proof.
  induction tag_names as [|tag rest IH]; simpl.
  - split; [|done]. by intros _ ? ?%elem_of_nil.
  - destruct (audio_file !! tag) as [value|] eqn:Hv; simpl.
    + destruct (usable_text value) as [text|] eqn:Hu.
      * split; [done|]. intros H. specialize (H tag ltac:(left)).
        rewrite Hv in H. simpl in H. congruence.
      * rewrite IH. split.
        -- intros H tag' [->|Hin]%elem_of_cons; [by rewrite Hv | by apply H].
        -- intros H tag' Hin. apply H. by right.
    + rewrite IH. split.
      * intros H tag' [->|Hin]%elem_of_cons; [by rewrite Hv | by apply H].
      * intros H tag' Hin. apply H. by right.
Qed.

Lemma first_tag_ext (f f' : gmap str TagValue) (tag_names : list str) :
  (∀ tag, tag ∈ tag_names → f' !! tag = f !! tag) →
  first_tag f' tag_names = first_tag f tag_names.
Proof.
  induction tag_names as [|tag rest IH]; intros Hsame; [done|]. simpl.
  rewrite (Hsame tag) by (by left). rewrite IH; [done|].
  intros tag' Hin. apply Hsame. by right.
Qed.



(** ** Adding new music *)

Lemma add_clean_shape (s : str) :
  Forall (λ c, c ∉ illegal_chars) (Py.strip (sub_illegal s))
  ∧ Py.head_is Py.isspace (Py.strip (sub_illegal s)) = false
  ∧ Py.last_is Py.isspace (Py.strip (sub_illegal s)) = false.
Proof.
  split_and!.
  - apply strip_by_Forall, sub_illegal_Forall.
  - apply strip_by_head.
  - apply strip_by_last.
Qed.

Lemma parts_names (p : PurePath) : ∃ pre, parts p = pre ++ names p.
Proof.
  unfold parts. destruct (anchor p) as [|c a]; [by exists [] | by exists [c :: a]].
Qed.

(** X18: the artist and album that [add_new_music.parse_metadata] returns
    hold no illegal character and no whitespace at their ends. With two
    directories above the file they are the cleaned names of these two,
    whatever the file is called; for a file in a directory right below the
    root the root itself is taken for the artist, which cleans to the empty
    string; a bare file name without [" - "] gives the fixed fallback. Dots
    are kept, so the artist can be the parent directory [..]. *)
Theorem add_parse_metadata_names (file_path : PurePath) :
  let r := AddNewMusic.parse_metadata file_path in
  (Forall (λ c, c ∉ illegal_chars) r.1
   ∧ Py.head_is Py.isspace r.1 = false ∧ Py.last_is Py.isspace r.1 = false)
  ∧ (Forall (λ c, c ∉ illegal_chars) r.2
     ∧ Py.head_is Py.isspace r.2 = false ∧ Py.last_is Py.isspace r.2 = false)
  ∧ (∀ ds a b f,
       names file_path = ds ++ [a; b; f] →
       r = (Py.strip (sub_illegal a), Py.strip (sub_illegal b)))
  ∧ (∀ d f,
       file_path = mkPath (lit "/") [d; f] →
       r = ([], Py.strip (sub_illegal d)))
  ∧ (∀ f,
       file_path = mkPath [] [f] →
       Py.partition (lit " - ") (stem file_path) = None →
       r = (lit "Various Artists", lit "Unsorted"))
  ∧ (∀ d f, file_path = mkPath [] [lit ".."; d; f] → r.1 = lit "..").
Proof.
  split; [apply add_clean_shape|]. split; [apply add_clean_shape|].
  split_and!; [| | |by intros d f ->].
  - intros ds a b f Hn. unfold AddNewMusic.parse_metadata.
    destruct (parts_names file_path) as [pre Hp]. rewrite Hn in Hp.
    rewrite Hp. rewrite !length_app. cbn [length].
    destruct (Nat.leb_spec 3 (length pre + (length ds + 3))) as [_|?]; [|lia].
    cbn [fst snd]. rewrite !app_assoc.
    rewrite !lookup_app_r by (rewrite length_app; lia).
    replace (length pre + (length ds + 3) - 3 - length (pre ++ ds)) with 0
      by (rewrite length_app; lia).
    replace (length pre + (length ds + 3) - 2 - length (pre ++ ds)) with 1
      by (rewrite length_app; lia).
    done.
  - by intros d f ->.
  - intros f -> Hnone. unfold AddNewMusic.parse_metadata.
    cbn [parts anchor names length Nat.leb]. by rewrite Hnone.
Qed.

Lemma add_parse_metadata_names_witness :
  AddNewMusic.parse_metadata (mkPath (lit "/") [lit "music"; lit "x.mp3"])
  = ([], lit "music").
Proof.
  apply (proj1 (proj2 (proj2 (proj2
           (add_parse_metadata_names
              (mkPath (lit "/") [lit "music"; lit "x.mp3"]))))) (lit "music") (lit "x.mp3")).
  reflexivity.
Defined.

Lemma NoDup_fmap_elem {A B} (f : A → B) (l : list A) (x y : A) :
  NoDup (f <$> l) → x ∈ l → y ∈ l → f x = f y → x = y.
Proof.
  induction l as [|a l IH]; [by intros _ ?%elem_of_nil|].
  rewrite fmap_cons. intros [Ha Hl]%NoDup_cons.
  intros [->|Hx]%elem_of_cons [->|Hy]%elem_of_cons Hf; [done| | |by apply IH].
  - exfalso. apply Ha. rewrite Hf. by apply list_elem_of_fmap_2.
  - exfalso. apply Ha. rewrite <- Hf. by apply list_elem_of_fmap_2.
Qed.

Section AddFacts.

Variable read_bytes : PurePath → option (list Byte.byte).
Variable md5_hexdigest : list Byte.byte → str.
Variable mkdir_raises : gset PurePath → PurePath → bool.
Variable copy2_raises : PurePath → PurePath → bool.

Local Abbreviation new_hash :=
  (AddNewMusic.get_file_hash read_bytes md5_hexdigest).
Local Abbreviation add_file :=
  (AddNewMusic.add_file read_bytes md5_hexdigest mkdir_raises copy2_raises).
Local Abbreviation add_files :=
  (AddNewMusic.add_files read_bytes md5_hexdigest mkdir_raises copy2_raises).
Local Abbreviation index_file :=
  (AddNewMusic.index_file read_bytes md5_hexdigest).
Local Abbreviation made_by org st p :=
  (list_to_set (AddNewMusic.ancestors (AddNewMusic.target_dir_of org p))
   ∪ AddNewMusic.paths st : gset PurePath).

(** The four ways through the loop body. *)
Lemma add_file_cases (org : PurePath) (st st' : AddNewMusic.Run)
    (e : DirEntry) :
  add_file org st e = Some st' →
  let p := entry_path e in
  (AddNewMusic.is_music e = false ∧ st' = st)
  ∨ (AddNewMusic.is_music e = true
     ∧ new_hash p ∈ AddNewMusic.existing_hashes st
     ∧ st' = AddNewMusic.mkRun (AddNewMusic.existing_hashes st)
               (S (AddNewMusic.processed st)) (AddNewMusic.added st)
               (S (AddNewMusic.skipped_duplicates st))
               (AddNewMusic.paths st) (AddNewMusic.additions st))
  ∨ (AddNewMusic.is_music e = true
     ∧ (new_hash p ∉ AddNewMusic.existing_hashes st)
     ∧ ∃ k, let t := candidate (AddNewMusic.target_dir_of org p) p (name p) k in
         (t ∉ made_by org st p)
         ∧ ((copy2_raises p t = true
             ∧ st' = AddNewMusic.mkRun (AddNewMusic.existing_hashes st)
                       (S (AddNewMusic.processed st)) (AddNewMusic.added st)
                       (AddNewMusic.skipped_duplicates st)
                       (made_by org st p) (AddNewMusic.additions st))
            ∨ (copy2_raises p t = false
               ∧ st' = AddNewMusic.mkRun
                         ({[new_hash p]} ∪ AddNewMusic.existing_hashes st)
                         (S (AddNewMusic.processed st))
                         (S (AddNewMusic.added st))
                         (AddNewMusic.skipped_duplicates st)
                         ({[t]} ∪ made_by org st p)
                         (AddNewMusic.additions st ++ [(p, t)])))).
Proof.
  intros H. cbv zeta. unfold AddNewMusic.add_file in H.
  set (p := entry_path e) in *.
  destruct (AddNewMusic.is_music e); [|left; split; congruence].
  right. case_bool_decide as Hin.
  { left. split_and!; [done..|congruence]. }
  right. split_and!; [done..|].
  destruct (mkdir_raises _ _); [done|].
  destruct (resolve_collision_Some (made_by org st p)
              (AddNewMusic.target_dir_of org p) p (name p)) as (k & Hres & Hfree).
  rewrite Hres in H. exists k. split; [done|].
  destruct (copy2_raises _ _); [left | right]; split; congruence.
Qed.

Lemma add_file_None (org : PurePath) (st : AddNewMusic.Run) (e : DirEntry) :
  add_file org st e = None
  ↔ AddNewMusic.is_music e = true
    ∧ (new_hash (entry_path e) ∉ AddNewMusic.existing_hashes st)
    ∧ mkdir_raises (AddNewMusic.paths st)
        (AddNewMusic.target_dir_of org (entry_path e)) = true.
Proof.
  unfold AddNewMusic.add_file.
  destruct (AddNewMusic.is_music e); [|split; [done | by intros [? _]]].
  case_bool_decide as Hin; [split; [done | by intros (_ & ? & _)]|].
  destruct (mkdir_raises _ _); [done|].
  destruct (resolve_collision_Some (made_by org st (entry_path e))
              (AddNewMusic.target_dir_of org (entry_path e)) (entry_path e)
              (name (entry_path e))) as (k & Hres & Hfree).
  rewrite Hres. destruct (copy2_raises _ _); split; try done; by intros (_ & _ & ?).
Qed.

Lemma add_files_Some (org : PurePath) (entries : list DirEntry)
    (st : AddNewMusic.Run) :
  (∀ fs d, mkdir_raises fs d = false) → is_Some (add_files org st entries).
Proof.
  intros Hmk. revert st. induction entries as [|e rest IH]; intros st; [done|].
  simpl. destruct (add_file org st e) as [st1|] eqn:He; [apply IH|].
  apply add_file_None in He as (_ & _ & He). by rewrite Hmk in He.
Qed.

(** What the loop adds to the hash set. *)
Lemma add_files_hashes (org : PurePath) (entries : list DirEntry)
    (st st' : AddNewMusic.Run) :
  add_files org st entries = Some st' →
  ∃ new,
    AddNewMusic.additions st' = AddNewMusic.additions st ++ new
    ∧ AddNewMusic.existing_hashes st'
      = list_to_set (new_hash <$> new.*1) ∪ AddNewMusic.existing_hashes st
    ∧ NoDup (new_hash <$> new.*1)
    ∧ ∀ h, h ∈ new_hash <$> new.*1 → h ∉ AddNewMusic.existing_hashes st.
Proof.
  revert st. induction entries as [|e rest IH]; intros st Hrun.
  { injection Hrun as <-. exists []. rewrite app_nil_r. split_and!; [done| |constructor|].
    - simpl. by rewrite (left_id_L ∅ (∪)).
    - by intros h ?%elem_of_nil. }
  simpl in Hrun. destruct (add_file org st e) as [st1|] eqn:He; [|done].
  destruct (IH st1 Hrun) as (new & Hadd & Hhash & Hnd & Hfresh).
  apply add_file_cases in He
    as [[_ ->]|[(_ & _ & ->)|(_ & Hnew & k & _ & [[_ ->]|[_ ->]])]];
    simpl in *.
  - by exists new.
  - by exists new.
  - by exists new.
  - set (p := entry_path e) in *.
    set (t := candidate (AddNewMusic.target_dir_of org p) p (name p) k) in *.
    exists ((p, t) :: new). split_and!.
    + by rewrite Hadd, <- app_assoc.
    + rewrite Hhash. simpl. by rewrite (assoc_L (∪)), (comm_L (∪) _ {[new_hash p]}).
    + simpl. constructor; [|done]. intros Hin%Hfresh. apply Hin.
      apply elem_of_union_l. by apply elem_of_singleton.
    + simpl. intros h [->|Hin]%elem_of_cons; [done|].
      intros Hh. apply (Hfresh h Hin). by apply elem_of_union_r.
Qed.

(** What the loop does to the counters. *)
Lemma add_files_counts (org : PurePath) (entries : list DirEntry)
    (st st' : AddNewMusic.Run) :
  add_files org st entries = Some st' →
  ∃ new dups failed,
    AddNewMusic.additions st' = AddNewMusic.additions st ++ new
    ∧ AddNewMusic.added st' = AddNewMusic.added st + length new
    ∧ AddNewMusic.skipped_duplicates st'
      = AddNewMusic.skipped_duplicates st + dups
    ∧ AddNewMusic.processed st'
      = AddNewMusic.processed st + (length new + dups + failed)
    ∧ length (filter (λ e, AddNewMusic.is_music e = true) entries)
      = length new + dups + failed
    ∧ ((∀ s t, copy2_raises s t = false) → failed = 0)
    ∧ new.*1 `sublist_of` entry_path <$> entries.
Proof.
  revert st. induction entries as [|e rest IH]; intros st Hrun.
  { injection Hrun as <-. exists [], 0, 0. rewrite app_nil_r.
    split_and!; simpl; try done; lia. }
  simpl in Hrun. destruct (add_file org st e) as [st1|] eqn:He; [|done].
  destruct (IH st1 Hrun)
    as (new & dups & failed & Hadd & Hn & Hd & Hp & Hlen & Hfail & Hsub).
  rewrite filter_cons.
  apply add_file_cases in He
    as [[Hm ->]|[(Hm & _ & ->)|(Hm & _ & k & _ & [[Hc ->]|[Hc ->]])]];
    simpl in *; rewrite Hm in *.
  - exists new, dups, failed.
    rewrite decide_False by done.
    split_and!; try done. by apply sublist_cons.
  - exists new, (S dups), failed. rewrite decide_True by done.
    split_and!; simpl; try done; try lia. by apply sublist_cons.
  - exists new, dups, (S failed). rewrite decide_True by done.
    split_and!; simpl; try done; try lia.
    + intros Hnever. by rewrite Hnever in Hc.
    + by apply sublist_cons.
  - exists ((entry_path e, candidate (AddNewMusic.target_dir_of org (entry_path e))
                              (entry_path e) (name (entry_path e)) k) :: new),
      dups, failed.
    rewrite decide_True by done.
    split_and!; simpl; try done; try lia.
    + by rewrite Hadd, <- app_assoc.
    + by apply sublist_skip.
Qed.

(** Where the loop puts the files. *)
Lemma add_files_paths (org : PurePath) (entries : list DirEntry)
    (st st' : AddNewMusic.Run) :
  add_files org st entries = Some st' →
  ∃ new,
    AddNewMusic.additions st' = AddNewMusic.additions st ++ new
    ∧ NoDup new.*2
    ∧ (∀ t, t ∈ new.*2 → t ∉ AddNewMusic.paths st)
    ∧ (∀ t, t ∈ new.*2 → t ∈ AddNewMusic.paths st')
    ∧ (∀ q, q ∈ AddNewMusic.paths st → q ∈ AddNewMusic.paths st')
    ∧ ∀ s t, (s, t) ∈ new →
        ∃ k, t = candidate (AddNewMusic.target_dir_of org s) s (name s) k.
Proof.
  revert st. induction entries as [|e rest IH]; intros st Hrun.
  { injection Hrun as <-. exists []. rewrite app_nil_r.
    split_and!; simpl; try done; try (by constructor);
      try (by intros ? ?%elem_of_nil); by intros ? ? ?%elem_of_nil. }
  simpl in Hrun. destruct (add_file org st e) as [st1|] eqn:He; [|done].
  destruct (IH st1 Hrun) as (new & Hadd & Hnd & Hfresh & Hin & Hmono & Hcand).
  apply add_file_cases in He
    as [[_ ->]|[(_ & _ & ->)|(_ & _ & k & Hfree & [[_ ->]|[_ ->]])]];
    simpl in *.
  - by exists new.
  - by exists new.
  - exists new. split_and!; try done.
    + intros t Ht Hold. apply (Hfresh t Ht). by apply elem_of_union_r.
    + intros q Hq. apply Hmono. by apply elem_of_union_r.
  - set (p := entry_path e) in *.
    set (t := candidate (AddNewMusic.target_dir_of org p) p (name p) k) in *.
    exists ((p, t) :: new). split_and!.
    + by rewrite Hadd, <- app_assoc.
    + simpl. constructor; [|done]. intros Ht%Hfresh. apply Ht.
      apply elem_of_union_l. by apply elem_of_singleton.
    + simpl. intros t' [->|Ht']%elem_of_cons.
      * intros Hold. apply Hfree. by apply elem_of_union_r.
      * intros Hold. apply (Hfresh t' Ht').
        apply elem_of_union_r. by apply elem_of_union_r.
    + simpl. intros t' [->|Ht']%elem_of_cons; [|by apply Hin].
      apply Hmono. apply elem_of_union_l. by apply elem_of_singleton.
    + intros q Hq. apply Hmono. apply elem_of_union_r. by apply elem_of_union_r.
    + intros s t' [[= -> ->]|Hst]%elem_of_cons; [by exists k | by apply Hcand].
Qed.

(** The hash set built from the organized collection holds the usable
    hashes of its music files and nothing else. *)
Lemma index_hashes (rglob : list DirEntry) (hashes : gset (option str))
    (v : option str) :
  v ∈ foldl index_file hashes rglob
  ↔ v ∈ hashes
    ∨ ∃ e, e ∈ rglob ∧ AddNewMusic.is_music e = true
           ∧ new_hash (entry_path e) = v ∧ Py.truthy v = true.
Proof.
  revert hashes. induction rglob as [|e rest IH]; intros hashes; simpl.
  - split; [by left|]. intros [?|(e & []%elem_of_nil & _)]; done.
  - rewrite IH. unfold AddNewMusic.index_file.
    destruct (AddNewMusic.is_music e) eqn:Hm.
    + destruct (Py.truthy (new_hash (entry_path e))) eqn:Ht.
      * rewrite elem_of_union, elem_of_singleton. split.
        -- intros [[->|?]|(e' & Hin & ?)]; [right| by left |right].
           ++ exists e. split_and!; [by left | done..].
           ++ exists e'. split; [by right | done].
        -- intros [?|(e' & [->|Hin]%elem_of_cons & Hm' & <- & Ht')].
           ++ left. by right.
           ++ left. by left.
           ++ right. by exists e'.
      * split.
        -- intros [?|(e' & Hin & ?)]; [by left|right].
           exists e'. split; [by right | done].
        -- intros [?|(e' & [->|Hin]%elem_of_cons & Hm' & <- & Ht')];
             [by left | congruence | right; by exists e'].
    + split.
      * intros [?|(e' & Hin & ?)]; [by left|right].
        exists e'. split; [by right | done].
      * intros [?|(e' & [->|Hin]%elem_of_cons & Hm' & <- & Ht')];
          [by left | congruence | right; by exists e'].
Qed.


(** X20: when [mkdir] does not raise, [add_new_music] ends, and its counters
    add up: [processed] is the number of music entries of the source,
    [added] is the number of files added, and every processed file is
    either added, or skipped as a duplicate, or lost to a copy that raised;
    without such copies [processed = added + duplicates]. The added files
    are source entries in their order. Without the organized folder nothing
    is counted or copied. *)
Theorem add_new_music_accounting (fs : gset PurePath)
    (organized_path : PurePath) (organized_rglob source_rglob : list DirEntry) :
  (∀ existing d, mkdir_raises existing d = false) →
  ∃ st failed,
    AddNewMusic.add_new_music read_bytes md5_hexdigest mkdir_raises
      copy2_raises fs organized_path organized_rglob source_rglob = Some st
    ∧ (organized_path ∉ fs → st = AddNewMusic.mkRun ∅ 0 0 0 fs [])
    ∧ AddNewMusic.added st = length (AddNewMusic.additions st)
    ∧ AddNewMusic.processed st
      = AddNewMusic.added st + AddNewMusic.skipped_duplicates st + failed
    ∧ ((∀ s t, copy2_raises s t = false) → failed = 0)
    ∧ (AddNewMusic.additions st).*1 `sublist_of` entry_path <$> source_rglob
    ∧ (organized_path ∈ fs →
       AddNewMusic.processed st
       = length (filter (λ e, AddNewMusic.is_music e = true) source_rglob)).
Proof.
  intros Hmk. unfold AddNewMusic.add_new_music. case_bool_decide as Horg.
  - destruct (add_files_Some organized_path source_rglob
                (AddNewMusic.mkRun (foldl index_file ∅ organized_rglob) 0 0 0
                   fs []) Hmk) as [st Hrun].
    pose proof (add_files_counts _ _ _ _ Hrun)
      as (new & dups & failed & Hadd & Hn & Hd & Hp & Hlen & Hfail & Hsub).
    simpl in Hadd, Hn, Hd, Hp.
    exists st, failed. split_and!; try done.
    + by rewrite Hadd, Hn.
    + lia.
    + by rewrite Hadd.
    + intros _. lia.
  - exists (AddNewMusic.mkRun ∅ 0 0 0 fs []), 0.
    split_and!; simpl; try done. apply sublist_nil_l.
Qed.

(** X21: [add_new_music] never writes onto a path that exists and never
    uses a target twice: the targets of the added files are pairwise
    different, none of them existed before the run, every path that existed
    still does, and each target is the plain or a numbered name of its file
    in the directory [organized_path / artist / album] of that file. *)
Theorem add_new_music_never_overwrites (fs : gset PurePath)
    (organized_path : PurePath) (organized_rglob source_rglob : list DirEntry)
    (st : AddNewMusic.Run) :
  AddNewMusic.add_new_music read_bytes md5_hexdigest mkdir_raises copy2_raises
    fs organized_path organized_rglob source_rglob = Some st →
  NoDup (AddNewMusic.additions st).*2
  ∧ (∀ t, t ∈ (AddNewMusic.additions st).*2 →
          (t ∉ fs) ∧ t ∈ AddNewMusic.paths st)
  ∧ (∀ q, q ∈ fs → q ∈ AddNewMusic.paths st)
  ∧ (∀ s t, (s, t) ∈ AddNewMusic.additions st →
       ∃ k, t = candidate (AddNewMusic.target_dir_of organized_path s) s
                  (name s) k
            ∧ (k = 0 → t = joinpath
                             (AddNewMusic.target_dir_of organized_path s)
                             (name s))
            ∧ (0 < k → t = joinpath
                             (AddNewMusic.target_dir_of organized_path s)
                             (stem s ++ lit "_" ++ decimal k ++ suffix s))).
Proof.
  unfold AddNewMusic.add_new_music. case_bool_decide as Horg; intros Hrun.
  - apply add_files_paths in Hrun
      as (new & Hadd & Hnd & Hfresh & Hin & Hmono & Hcand).
    simpl in Hadd, Hfresh, Hmono. rewrite Hadd. split_and!; try done.
    + intros t Ht. split; [by apply Hfresh | by apply Hin].
    + intros s t Hst. destruct (Hcand s t Hst) as [k ->]. exists k.
      split_and!; [done | by intros -> |]. by destruct k; [lia|].
  - injection Hrun as <-. simpl. split_and!; try done; [constructor | |].
    + by intros t ?%elem_of_nil.
    + by intros s t ?%elem_of_nil.
Qed.

End AddFacts.


Lemma add_new_music_accounting_witness :
  ∃ st failed,
    AddNewMusic.add_new_music (λ _, None) sample_digest (λ _ _, false)
      (λ _ _, false) {[out_dir]} out_dir [] [locked_a; locked_b] = Some st
    ∧ AddNewMusic.processed st
      = AddNewMusic.added st + AddNewMusic.skipped_duplicates st + failed
    ∧ failed = 0.
Proof.
  destruct (add_new_music_accounting (λ _, None) sample_digest
              (λ _ _, false) (λ _ _, false) {[out_dir]} out_dir []
              [locked_a; locked_b]) as (st & failed & Hrun & _ & _ & Hp & Hf & _);
    [reflexivity|].
  exists st, failed. split_and!; [done | done | by apply Hf].
Defined.

Lemma add_new_music_never_overwrites_witness :
  NoDup (AddNewMusic.additions locked_run).*2
  ∧ ∀ q, q ∈ ({[out_dir]} : gset PurePath) → q ∈ AddNewMusic.paths locked_run.
Proof.
  destruct (add_new_music_never_overwrites (λ _, None) sample_digest
              (λ _ _, false) (λ _ _, false) {[out_dir]} out_dir []
              [locked_a; locked_b] locked_run) as (Hnd & _ & Hmono & _);
    [vm_compute; reflexivity | by split].
Defined.

(** ** The copy phase over all groups *)

Lemma mark_group_infos (files : list FileInfo)
    (copied : list (FileInfo * PurePath)) :
  copied.*1 `prefix_of` files →
  placed_info <$> mark_group files copied = files.
Proof.
  intros [k Hk]. unfold mark_group. rewrite fmap_app.
  assert (H1 : placed_info <$> ((λ c, mkPlaced c.1 (Some c.2)) <$> copied)
               = copied.*1).
  { clear Hk. induction copied as [|c copied IH]; [done|].
    rewrite !fmap_cons, IH. done. }
  assert (H2 : ∀ l : list FileInfo,
            placed_info <$> ((λ info, mkPlaced info None) <$> l) = l).
  { intros l. induction l as [|x l IH]; [done|]. rewrite !fmap_cons, IH. done. }
  rewrite H1, H2, Hk. rewrite <- (length_fmap fst copied), drop_app_length.
  done.
Qed.

Lemma mark_group_targets (files : list FileInfo)
    (copied : list (FileInfo * PurePath)) :
  omap target_path (mark_group files copied) = copied.*2.
Proof.
  unfold mark_group. rewrite omap_app.
  assert (Hrest : ∀ l : list FileInfo,
            omap target_path ((λ info, mkPlaced info None) <$> l) = []).
  { intros l. by induction l. }
  rewrite Hrest, app_nil_r. induction copied as [|c copied IH]; [done|].
  rewrite !fmap_cons. rewrite <- IH. reflexivity.
Qed.

Lemma mark_group_elem (files : list FileInfo)
    (copied : list (FileInfo * PurePath)) (e : Placed) (t : PurePath) :
  e ∈ mark_group files copied → target_path e = Some t →
  (placed_info e, t) ∈ copied.
Proof.
  unfold mark_group. rewrite elem_of_app, !list_elem_of_fmap.
  intros [([info t'] & -> & Hin)|(info & -> & _)]; simpl; [|done].
  by intros [= <-].
Qed.

Lemma mark_group_all (files : list FileInfo)
    (copied : list (FileInfo * PurePath)) :
  (∀ e, e ∈ mark_group files copied → is_Some (target_path e))
  ↔ length files ≤ length copied.
Proof.
  unfold mark_group. split.
  - intros Hall. destruct (drop (length copied) files) as [|info k] eqn:Hd.
    + apply (f_equal length) in Hd. rewrite length_drop in Hd. simpl in Hd. lia.
    + destruct (Hall (mkPlaced info None)) as [? [=]].
      apply elem_of_app. right. rewrite fmap_cons. by left.
  - intros Hlen. rewrite drop_ge by done. rewrite fmap_nil, app_nil_r.
    intros e (c & -> & _)%list_elem_of_fmap. by eexists.
Qed.

Lemma joinpath_below (base d : PurePath) (x : str) :
  anchor d = anchor base → names base `prefix_of` names d →
  anchor (joinpath d x) = anchor base
  ∧ names base `prefix_of` names (joinpath d x).
Proof.
  intros Ha Hp. destruct x as [|c x]; [done|]. simpl. split; [done|].
  by apply prefix_app_r.
Qed.

Lemma candidate_below (base d orig : PurePath) (filename : str) (k : nat) :
  anchor d = anchor base → names base `prefix_of` names d →
  anchor (candidate d orig filename k) = anchor base
  ∧ names base `prefix_of` names (candidate d orig filename k).
Proof. intros Ha Hp. destruct k; simpl; by apply joinpath_below. Qed.

Lemma relative_to_Some (p base : PurePath) :
  is_Some (relative_to p base)
  ↔ anchor p = anchor base ∧ names base `prefix_of` names p.
Proof.
  unfold relative_to. case_bool_decide as H.
  - split; [intros _ | by eexists]. destruct H as [Ha Ht]. split; [done|].
    exists (drop (length (names base)) (names p)).
    rewrite <- (take_drop (length (names base)) (names p)) at 1.
    by rewrite Ht.
  - split; [by intros [? [=]]|]. intros [Ha [k Hk]]. exfalso. apply H.
    split; [done|]. by rewrite Hk, take_app_length.
Qed.

Section CopyGroupsFacts.

Variable mkdir_raises : gset PurePath → PurePath → bool.
Variable copy2_raises : PurePath → PurePath → bool.

Local Abbreviation run_groups := (copy_groups mkdir_raises copy2_raises).

Lemma copy_group_raised (target_dir : PurePath) (files : list FileInfo)
    (fs fs' : gset PurePath) (organized n : nat)
    (copied : list (FileInfo * PurePath)) :
  copy_group copy2_raises target_dir files fs organized
  = Some (fs', copied, n, true) →
  length copied < length files.
Proof.
  revert fs organized fs' n copied.
  induction files as [|info rest IH]; intros fs organized fs' n copied; simpl;
    [done|].
  destruct (resolve_collision _ _ _ _) as [t|]; [|done].
  destruct (copy2_raises _ _).
  - intros [= <- <- <-]. simpl. lia.
  - destruct (copy_group _ _ _ _ _) as [[[[fs1 copied1] n1] raised1]|] eqn:Hr;
      [|done].
    intros [= <- <- <- ->]. apply IH in Hr. simpl. lia.
Qed.

(** The effect of the loop body on one group. *)
Lemma copy_groups_cons (key : str) (first : FileInfo) (more : list FileInfo)
    (rest : list (str * list FileInfo)) (st : CopyState) :
  let files := first :: more in
  ∃ st1 copied raised,
    run_groups ((key, files) :: rest) st = run_groups rest st1
    ∧ cs_entries st1 = cs_entries st ++ mark_group files copied
    ∧ copied.*1 `prefix_of` files
    ∧ (raised = false → length files ≤ length copied)
    ∧ (raised = true → length copied < length files)
    ∧ cs_organized st1 = cs_organized st + length copied
    ∧ cs_errors st1 = (if raised then S (cs_errors st) else cs_errors st)
    ∧ cs_folders_created st ≤ cs_folders_created st1
    ∧ cs_folders_created st1
      ≤ cs_folders_created st + (if decide (key ≠ manual_key) then 1 else 0)
    ∧ NoDup copied.*2
    ∧ (∀ t, t ∈ copied.*2 → (t ∉ cs_paths st) ∧ t ∈ cs_paths st1)
    ∧ (∀ q, q ∈ cs_paths st → q ∈ cs_paths st1)
    ∧ (∀ info t, (info, t) ∈ copied →
         ∃ k, t = candidate (target_dir first) (original_path info)
                    (filename info) k)
    ∧ ((∀ fs d, mkdir_raises fs d = false) →
       (∀ s t, copy2_raises s t = false) →
       raised = false
       ∧ cs_folders_created st1
         = cs_folders_created st
           + (if decide (key ≠ manual_key) then 1 else 0)).
Proof.
  intros files. cbn [copy_groups]. unfold files.
  destruct (mkdir_raises (cs_paths st) (target_dir first)) eqn:Hmk.
  { eexists _, [], true. split; [reflexivity|]. simpl.
    split_and!; try done; try lia.
    - apply prefix_nil.
    - constructor.
    - by intros t ?%elem_of_nil.
    - by intros ? ? ?%elem_of_nil.
    - intros Hnever. by rewrite Hnever in Hmk. }
  set (made := list_to_set (AddNewMusic.ancestors (target_dir first))
               ∪ cs_paths st).
  destruct (copy_group_spec copy2_raises (target_dir first) (first :: more)
              made (cs_organized st))
    as (fs' & copied & n & raised & Hrun & Hn & Hpre & Hall & Hnd & Hnew & Hfs
        & Hcand & Hnever).
  rewrite Hrun. eexists _, copied, raised. split; [reflexivity|]. simpl.
  split_and!; try done.
  - intros Hr. specialize (Hall Hr). apply (f_equal length) in Hall.
    rewrite length_fmap in Hall. simpl in Hall. lia.
  - intros ->. apply copy_group_raised in Hrun. simpl in Hrun. lia.
  - case_bool_decide; lia.
  - case_bool_decide; destruct (decide (key ≠ manual_key)); try done; lia.
  - intros t Ht. split.
    + intros Hold. apply (Hnew t Ht). by apply elem_of_union_r.
    + rewrite Hfs. apply elem_of_union_l. by apply elem_of_list_to_set.
  - intros q Hq. rewrite Hfs. apply elem_of_union_r. by apply elem_of_union_r.
  - intros _ Hcp. split; [by apply Hnever|].
    case_bool_decide; destruct (decide (key ≠ manual_key)); try done; lia.
Qed.

(** What the copy phase does to the plan entries and the counters. *)
Lemma copy_groups_counts (groups : list (str * list FileInfo))
    (st : CopyState) :
  (∀ key files, (key, files) ∈ groups → files ≠ []) →
  ∃ st' new,
    run_groups groups st = Some st'
    ∧ cs_entries st' = cs_entries st ++ new
    ∧ placed_info <$> new = concat groups.*2
    ∧ cs_organized st' = cs_organized st + length (omap target_path new)
    ∧ cs_errors st ≤ cs_errors st'
    ∧ cs_errors st' ≤ cs_errors st + length groups
    ∧ cs_folders_created st ≤ cs_folders_created st'
    ∧ cs_folders_created st'
      ≤ cs_folders_created st
        + length (filter (λ g, g.1 ≠ manual_key) groups)
    ∧ (cs_errors st' = cs_errors st
       ↔ ∀ e, e ∈ new → is_Some (target_path e))
    ∧ ((∀ fs d, mkdir_raises fs d = false) →
       (∀ s t, copy2_raises s t = false) →
       cs_errors st' = cs_errors st
       ∧ cs_folders_created st'
         = cs_folders_created st
           + length (filter (λ g, g.1 ≠ manual_key) groups)).
Proof.
  revert st. induction groups as [|[key files] rest IH]; intros st Hne.
  { exists st, []. rewrite app_nil_r. simpl.
    split_and!; try done; try lia.
    split; [by intros _ e ?%elem_of_nil | done]. }
  destruct files as [|first more]; [by destruct (Hne key []); [left|]|].
  destruct (copy_groups_cons key first more rest st)
    as (st1 & copied & raised & Hstep & Hent & Hpre & Hall & Hcut & Horg & Herr
        & Hf1 & Hf2 & _ & _ & _ & _ & Hnever).
  destruct (IH st1) as (st' & new & Hrun & Hent' & Hinfo & Horg' & He1 & He2
                        & Hg1 & Hg2 & Hiff & Hnever').
  { intros k fs Hin. apply (Hne k fs). by right. }
  exists st', (mark_group (first :: more) copied ++ new).
  rewrite Hstep. split; [done|].
  rewrite filter_cons. cbn [fst].
  assert (Hlen : length (if decide (key ≠ manual_key)
                         then (key, first :: more)
                              :: filter (λ g, g.1 ≠ manual_key) rest
                         else filter (λ g, g.1 ≠ manual_key) rest)
                 = (if decide (key ≠ manual_key) then 1 else 0)
                   + length (filter (λ g, g.1 ≠ manual_key) rest))
    by (by destruct (decide (key ≠ manual_key))).
  rewrite Hlen. split_and!.
  - by rewrite Hent', Hent, <- app_assoc.
  - rewrite fmap_app, Hinfo, mark_group_infos by done. done.
  - rewrite omap_app, length_app, mark_group_targets, length_fmap. lia.
  - destruct raised; lia.
  - simpl. destruct raised; lia.
  - lia.
  - lia.
  - split.
    + intros Heq e [He|He]%elem_of_app.
      * destruct raised; [lia|].
        by apply (proj2 (mark_group_all (first :: more) copied) (Hall eq_refl)).
      * apply Hiff; [|done]. destruct raised; lia.
    + intros Hsome.
      assert (Hl : length (first :: more) ≤ length copied).
      { apply mark_group_all. intros e He. apply Hsome, elem_of_app. by left. }
      destruct raised; [specialize (Hcut eq_refl); lia|].
      rewrite <- Herr. apply Hiff. intros e He. apply Hsome, elem_of_app.
      by right.
  - intros Hmk Hcp. destruct (Hnever Hmk Hcp) as [-> Hfc].
    destruct (Hnever' Hmk Hcp) as [He Hf]. split; [congruence | lia].
Qed.

(** Where the copy phase puts the files. *)
Lemma copy_groups_paths (groups : list (str * list FileInfo))
    (st st' : CopyState) :
  run_groups groups st = Some st' →
  ∃ new,
    cs_entries st' = cs_entries st ++ new
    ∧ NoDup (omap target_path new)
    ∧ (∀ t, t ∈ omap target_path new → (t ∉ cs_paths st) ∧ t ∈ cs_paths st')
    ∧ (∀ q, q ∈ cs_paths st → q ∈ cs_paths st')
    ∧ (∀ e t, e ∈ new → target_path e = Some t →
         ∃ key files first k,
           (key, files) ∈ groups ∧ head files = Some first
           ∧ placed_info e ∈ files
           ∧ t = candidate (target_dir first)
                   (original_path (placed_info e))
                   (filename (placed_info e)) k).
Proof.
  revert st. induction groups as [|[key files] rest IH]; intros st Hrun.
  { injection Hrun as <-. exists []. rewrite app_nil_r. simpl.
    split_and!; try done; [constructor | |].
    - by intros t ?%elem_of_nil.
    - by intros e t ?%elem_of_nil. }
  destruct files as [|first more]; [done|].
  destruct (copy_groups_cons key first more rest st)
    as (st1 & copied & raised & Hstep & Hent & Hpre & _ & _ & _ & _
        & _ & _ & Hnd & Hnew & Hmono & Hcand & _).
  rewrite Hstep in Hrun.
  destruct (IH st1 Hrun) as (new & Hent' & Hnd' & Hnew' & Hmono' & Hcand').
  exists (mark_group (first :: more) copied ++ new).
  rewrite omap_app, mark_group_targets. split_and!.
  - by rewrite Hent', Hent, <- app_assoc.
  - apply NoDup_app. split_and!; [done | | done].
    intros t Ht Ht'. apply (Hnew' t Ht'). by apply Hnew.
  - intros t [Ht|Ht]%elem_of_app.
    + split; [by apply Hnew | by apply Hmono', Hnew].
    + split; [|by apply Hnew']. intros Hold. by apply (Hnew' t Ht), Hmono.
  - intros q Hq. by apply Hmono', Hmono.
  - intros e t [He|He]%elem_of_app Ht.
    + pose proof (mark_group_elem _ _ _ _ He Ht) as Hin.
      destruct (Hcand _ _ Hin) as [k Hk].
      exists key, (first :: more), first, k. split_and!; [by left | done | | done].
      destruct Hpre as [tl Htl]. rewrite Htl. apply elem_of_app. left.
      apply list_elem_of_fmap. by exists (placed_info e, t).
    + destruct (Hcand' e t He Ht) as (key' & files' & first' & k & Hin & ?).
      exists key', files', first', k. split; [by right | done].
Qed.

(** X22: the copy phase ends for every plan (its groups are never empty),
    visits every plan entry once and in plan order, and counts one
    [organized] per file copied. [errors] grows by at most one per group and
    stays as it was exactly when every file was copied; [folders_created]
    grows by at most one per group other than the manual-sort group, and by
    exactly that when nothing raises, whether or not the folder was there
    before. *)
Theorem copy_groups_accounting (groups : list (str * list FileInfo))
    (st : CopyState) :
  (∀ key files, (key, files) ∈ groups → files ≠ []) →
  ∃ st' new,
    run_groups groups st = Some st'
    ∧ cs_entries st' = cs_entries st ++ new
    ∧ placed_info <$> new = concat groups.*2
    ∧ cs_organized st' = cs_organized st + length (omap target_path new)
    ∧ cs_errors st ≤ cs_errors st'
    ∧ cs_errors st' ≤ cs_errors st + length groups
    ∧ cs_folders_created st ≤ cs_folders_created st'
    ∧ cs_folders_created st'
      ≤ cs_folders_created st
        + length (filter (λ g, g.1 ≠ manual_key) groups)
    ∧ (cs_errors st' = cs_errors st
       ↔ ∀ e, e ∈ new → is_Some (target_path e))
    ∧ ((∀ fs d, mkdir_raises fs d = false) →
       (∀ s t, copy2_raises s t = false) →
       cs_errors st' = cs_errors st
       ∧ cs_folders_created st'
         = cs_folders_created st
           + length (filter (λ g, g.1 ≠ manual_key) groups)).
Proof. apply copy_groups_counts. Qed.

(** X23: over the whole copy phase no file is written onto a path that
    exists and no target is used twice, also across groups: the targets of
    the copied files are pairwise different, none existed before the phase,
    every path that existed still does, and each target is the plain or a
    numbered name of its file in the target directory of the first entry of
    its group. *)
Theorem copy_groups_never_overwrite (groups : list (str * list FileInfo))
    (st st' : CopyState) :
  run_groups groups st = Some st' →
  ∃ new,
    cs_entries st' = cs_entries st ++ new
    ∧ NoDup (omap target_path new)
    ∧ (∀ t, t ∈ omap target_path new → (t ∉ cs_paths st) ∧ t ∈ cs_paths st')
    ∧ (∀ q, q ∈ cs_paths st → q ∈ cs_paths st')
    ∧ (∀ e t, e ∈ new → target_path e = Some t →
         ∃ key files first k,
           (key, files) ∈ groups ∧ head files = Some first
           ∧ placed_info e ∈ files
           ∧ t = candidate (target_dir first)
                   (original_path (placed_info e))
                   (filename (placed_info e)) k).
Proof. apply copy_groups_paths. Qed.

End CopyGroupsFacts.

Lemma copy_groups_accounting_witness :
  ∃ st',
    copy_groups (λ _ _, false) (λ _ _, false) queen_groups before_copy
    = Some st'
    ∧ cs_organized st' = 2 ∧ cs_folders_created st' = 1 ∧ cs_errors st' = 0.
Proof.
  destruct (copy_groups_accounting (λ _ _, false) (λ _ _, false) queen_groups
              before_copy)
    as (st' & new & Hrun & _ & Hinfo & Horg & _ & _ & _ & _ & Hiff & Hnever).
  { intros key files Hin. unfold queen_groups in Hin.
    apply list_elem_of_singleton in Hin. by injection Hin as -> ->. }
  destruct Hnever as [Herr Hf]; [done..|].
  exists st'. split_and!; [done | | done | done].
  rewrite Horg. simpl.
  assert (Hlen : length (omap target_path new) = length new).
  { assert (Hall : ∀ e, e ∈ new → is_Some (target_path e)) by (by apply Hiff).
    clear -Hall. induction new as [|e new IH]; [done|]. simpl.
    destruct (Hall e) as [t ->]; [by left|]. simpl. f_equal. apply IH.
    intros e' He'. apply Hall. by right. }
  rewrite Hlen, <- (length_fmap placed_info), Hinfo. reflexivity.
Defined.

Lemma copy_groups_never_overwrite_witness :
  ∃ st' new,
    copy_groups (λ _ _, false) (λ _ _, false) queen_groups before_copy
    = Some st'
    ∧ cs_entries st' = new ∧ NoDup (omap target_path new).
Proof.
  destruct (copy_groups (λ _ _, false) (λ _ _, false) queen_groups before_copy)
    as [st'|] eqn:Hrun; [|by vm_compute in Hrun].
  destruct (copy_groups_never_overwrite _ _ _ _ _ Hrun)
    as (new & Hent & Hnd & _).
  exists st', new. by split_and!.
Defined.

(** ** Playlists *)

Lemma group_visit_kinds (acc : Grouping * Grouping * Grouping)
    (file_info : Placed) :
  group_visit acc file_info
  = (add_key (kind_key ByGenre file_info) file_info acc.1.1,
     add_key (kind_key ByYear file_info) file_info acc.1.2,
     add_key (kind_key ByArtist file_info) file_info acc.2).
Proof.
  destruct acc as [[g y] a]. unfold group_visit, kind_key. simpl.
  destruct (fi_genre (placed_info file_info)) as [[|? ?]|],
    (fi_year (placed_info file_info)) as [[|? ?]|]; reflexivity.
Qed.

Lemma append_at_keys (key : str) (x : Placed) (d : Grouping) :
  (∀ k, k ∈ (append_at key x d).*1 ↔ k = key ∨ k ∈ d.*1)
  ∧ (NoDup d.*1 → NoDup (append_at key x d).*1).
Proof.
  induction d as [|[k0 xs0] rest [IHk IHn]]; simpl.
  - split; [|intros _; apply NoDup_singleton].
    intros k. rewrite list_elem_of_singleton. split; [by left|].
    by intros [?|?%elem_of_nil].
  - destruct (decide (k0 = key)) as [->|Hne]; simpl.
    + split; [|done]. intros k. rewrite elem_of_cons. tauto.
    + split.
      * intros k. rewrite !elem_of_cons, IHk. tauto.
      * intros [Hk0 Hnd]%NoDup_cons. constructor; [|by apply IHn].
        rewrite IHk. intros [?|?]; [congruence | done].
Qed.

Lemma append_at_elem (key : str) (x : Placed) (d : Grouping) (k : str)
    (xs : list Placed) :
  NoDup d.*1 →
  (k, xs) ∈ append_at key x d
  ↔ (k ≠ key ∧ (k, xs) ∈ d)
    ∨ (k = key
       ∧ ∃ xs0, xs = xs0 ++ [x]
                ∧ ((key, xs0) ∈ d ∨ (xs0 = [] ∧ key ∉ d.*1))).
Proof.
  induction d as [|[k0 xs0] rest IH]; simpl; intros Hnd.
  - rewrite list_elem_of_singleton. split.
    + intros [= -> ->]. right. split; [done|]. exists []. split; [done|].
      right. split; [done|]. by intros ?%elem_of_nil.
    + intros [[_ []%elem_of_nil]|[-> (xs' & -> & [[]%elem_of_nil|[-> _]])]].
      done.
  - apply NoDup_cons in Hnd as [Hk0 Hnd].
    assert (Hrest : ∀ ys, (k0, ys) ∉ rest).
    { intros ys Hin. apply Hk0. apply list_elem_of_fmap. by exists (k0, ys). }
    destruct (decide (k0 = key)) as [->|Hne].
    + rewrite !elem_of_cons. split.
      * intros [[= -> ->]|Hin].
        -- right. split; [done|]. exists xs0. split; [done|]. left. by left.
        -- left. split; [|by right]. intros ->. by apply (Hrest xs).
      * intros [[Hk [[= ? ?]|Hin]]|[-> (xs' & -> & Hcase)]];
          [done | by right |].
        destruct Hcase as [[[= ->]|Hin]%elem_of_cons|[_ Hnot]].
        -- by left.
        -- by destruct (Hrest xs').
        -- exfalso. apply Hnot. by left.
    + rewrite !elem_of_cons, (IH Hnd). split.
      * intros [[= -> ->]|[[Hk Hin]|[-> (xs' & -> & Hcase)]]].
        -- left. split; [done | by left].
        -- left. split; [done | by right].
        -- right. split; [done|]. exists xs'. split; [done|].
           destruct Hcase as [Hin|[-> Hnot]]; [left; by right|].
           right. split; [done|]. rewrite elem_of_cons.
           intros [?|?]; [congruence | done].
      * intros [[Hk [[= -> ->]|Hin]]|[-> (xs' & -> & Hcase)]].
        -- by left.
        -- right. left. done.
        -- right. right. split; [done|]. exists xs'. split; [done|].
           destruct Hcase as [[[= ? ?]|Hin]%elem_of_cons|[-> Hnot]];
             [done | by left |].
           right. split; [done|]. intros Hin. apply Hnot. by right.
Qed.

Lemma kind_group_snoc (kind : PlaylistKind) (k : str) (l : list Placed)
    (x : Placed) :
  kind_group kind k (l ++ [x])
  = kind_group kind k l
    ++ (if decide (kind_key kind x = Some k) then [x] else []).
Proof.
  unfold kind_group. rewrite filter_app, filter_cons, filter_nil.
  by destruct (decide _).
Qed.

Lemma grouped_snoc (kind : PlaylistKind) (l : list Placed) (d : Grouping)
    (x : Placed) :
  grouped kind l d →
  grouped kind (l ++ [x]) (add_key (kind_key kind x) x d).
Proof.
  intros [Hnd Hd]. destruct (kind_key kind x) as [key|] eqn:Hkey; simpl.
  - split; [by apply append_at_keys|]. intros k xs.
    rewrite (append_at_elem key x d k xs Hnd), kind_group_snoc, Hkey.
    destruct (decide (Some key = Some k)) as [[= ->]|Hne].
    + split.
      * intros [[? _]|[_ (xs0 & -> & Hcase)]]; [done|].
        split; [|by destruct xs0]. f_equal.
        destruct Hcase as [[-> _]%Hd|[-> Hnot]]; [done|].
        destruct (kind_group kind k l) as [|y ys] eqn:Hg; [done|].
        exfalso. apply Hnot. apply list_elem_of_fmap.
        exists (k, y :: ys). split; [done|]. apply Hd. by rewrite Hg.
      * intros [-> _]. right. split; [done|].
        exists (kind_group kind k l). split; [done|].
        destruct (kind_group kind k l) as [|y ys] eqn:Hg.
        -- right. split; [done|].
           intros ([k' xs'] & Hk' & [Hxs Hne]%Hd)%list_elem_of_fmap.
           simpl in Hk'. subst k'. congruence.
        -- left. apply Hd. by rewrite Hg.
    + rewrite app_nil_r. split.
      * intros [[_ Hin]|[-> _]]; [by apply Hd | done].
      * intros Hin. left. split; [congruence | by apply Hd].
  - split; [done|]. intros k xs. rewrite kind_group_snoc, Hkey.
    destruct (decide (None = Some k)); [done|]. rewrite app_nil_r. apply Hd.
Qed.

Lemma foldl_grouped (entries : list Placed) :
  let acc := foldl group_visit ([], [], []) entries in
  grouped ByGenre entries acc.1.1
  ∧ grouped ByYear entries acc.1.2
  ∧ grouped ByArtist entries acc.2.
Proof.
  induction entries as [|x l IH] using rev_ind.
  - assert (Hnil : ∀ kind, grouped kind [] []).
    { intros kind. split; [constructor|]. intros k xs.
      split; [by intros ?%elem_of_nil | by intros [-> ?]]. }
    simpl. split_and!; apply Hnil.
  - rewrite foldl_app. cbn [foldl]. rewrite group_visit_kinds. cbn [fst snd].
    destruct IH as (Hg & Hy & Ha).
    split_and!;
      [by apply (grouped_snoc ByGenre) | by apply (grouped_snoc ByYear)
       | by apply (grouped_snoc ByArtist)].
Qed.

Section PlaylistFacts.

Variable path_str : PurePath → str.

Local Abbreviation line := (m3u_line path_str).
Local Abbreviation lines := (write_lines path_str).
Local Abbreviation playlists := (write_playlists path_str).

Lemma write_lines_raised (org : PurePath) (files : list Placed) :
  (lines org files).2 = true ↔ ∃ fi, fi ∈ files ∧ line org fi = None.
Proof.
  induction files as [|fi rest IH]; simpl.
  - split; [done|]. by intros (fi & ?%elem_of_nil & _).
  - destruct (line org fi) as [l|] eqn:Hl; simpl.
    + rewrite IH. split.
      * intros (fi' & Hin & Hn). exists fi'. split; [by right | done].
      * intros (fi' & [->|Hin]%elem_of_cons & Hn); [congruence|].
        by exists fi'.
    + split; [|done]. intros _. exists fi. split; [by left | done].
Qed.

Lemma write_lines_text (org : PurePath) (files : list Placed) :
  (lines org files).2 = false →
  lit "#EXTM3U" ++ [newline] ++ (lines org files).1
  = playlist_text path_str org files.
Proof.
  unfold playlist_text. intros Hok. do 2 f_equal.
  induction files as [|fi rest IH]; [done|]. simpl in *.
  destruct (line org fi) as [l|]; [|done]. simpl in *. by rewrite IH.
Qed.

Lemma write_playlists_raised (org dir : PurePath) (ty : str) (min_songs : Z)
    (d : Grouping) :
  (playlists org dir ty min_songs d).2 = true
  ↔ ∃ k xs, (k, xs) ∈ d ∧ (min_songs ≤ Z.of_nat (length xs))%Z
            ∧ (lines org xs).2 = true.
Proof.
  induction d as [|[k0 xs0] rest IH]; simpl.
  - split; [done|]. by intros (k & xs & ?%elem_of_nil & _).
  - destruct (Z.leb_spec min_songs (Z.of_nat (length xs0))) as [Hle|Hlt].
    + destruct (lines org xs0).2 eqn:Hr; simpl.
      * split; [|done]. intros _. exists k0, xs0. split; [by left | done].
      * rewrite IH. split.
        -- intros (k & xs & Hin & ?). exists k, xs. split; [by right | done].
        -- intros (k & xs & [[= -> ->]|Hin]%elem_of_cons & Hl & Hx);
             [congruence|]. by exists k, xs.
    + rewrite IH. split.
      * intros (k & xs & Hin & ?). exists k, xs. split; [by right | done].
      * intros (k & xs & [[= -> ->]|Hin]%elem_of_cons & Hl & Hx); [lia|].
        by exists k, xs.
Qed.

Lemma write_playlists_elem (org dir : PurePath) (ty : str) (min_songs : Z)
    (d : Grouping) (f : PurePath) (text : str) :
  (f, text) ∈ (playlists org dir ty min_songs d).1 →
  ∃ k xs, (k, xs) ∈ d ∧ (min_songs ≤ Z.of_nat (length xs))%Z
          ∧ f = joinpath dir (ty ++ lit "_" ++ clean_name (Some k)
                              ++ lit ".m3u")
          ∧ text = lit "#EXTM3U" ++ [newline] ++ (lines org xs).1.
Proof.
  induction d as [|[k0 xs0] rest IH]; simpl.
  - by intros ?%elem_of_nil.
  - destruct (Z.leb_spec min_songs (Z.of_nat (length xs0))) as [Hle|Hlt].
    + destruct (lines org xs0).2 eqn:Hr; simpl.
      * intros [= -> ->]%list_elem_of_singleton.
        exists k0, xs0. split; [by left | done].
      * intros [[= -> ->]|Hin]%elem_of_cons.
        -- exists k0, xs0. split; [by left | done].
        -- destruct (IH Hin) as (k & xs & Hd & ?).
           exists k, xs. split; [by right | done].
    + intros Hin. destruct (IH Hin) as (k & xs & Hd & ?).
      exists k, xs. split; [by right | done].
Qed.

Lemma write_playlists_complete (org dir : PurePath) (ty : str)
    (min_songs : Z) (d : Grouping) (k : str) (xs : list Placed) :
  (playlists org dir ty min_songs d).2 = false →
  (k, xs) ∈ d → (min_songs ≤ Z.of_nat (length xs))%Z →
  (joinpath dir (ty ++ lit "_" ++ clean_name (Some k) ++ lit ".m3u"),
   lit "#EXTM3U" ++ [newline] ++ (lines org xs).1)
  ∈ (playlists org dir ty min_songs d).1.
Proof.
  induction d as [|[k0 xs0] rest IH]; simpl.
  - by intros _ ?%elem_of_nil.
  - destruct (Z.leb_spec min_songs (Z.of_nat (length xs0))) as [Hle|Hlt].
    + destruct (lines org xs0).2 eqn:Hr; simpl; [done|].
      intros Hok [[= -> ->]|Hin]%elem_of_cons Hl; [by left|].
      right. by apply IH.
    + intros Hok [[= -> ->]|Hin]%elem_of_cons Hl; [lia|]. by apply IH.
Qed.

(** The three rounds of [create_playlists], kind by kind. *)
Lemma create_playlists_rounds (pc : PlaylistConfig) (org : PurePath)
    (entries : list Placed) :
  cfg_create_playlists pc = true →
  ∃ data : PlaylistKind → Grouping,
    (∀ kind, grouped kind entries (data kind))
    ∧ let wp kind := playlists org (joinpath org (lit "Playlists"))
                       (kind_name kind) (cfg_min_songs pc) (data kind) in
      let r := create_playlists path_str pc org entries in
      (r.2 = true
       ↔ ∃ kind, kind_enabled pc kind = true ∧ (wp kind).2 = true)
      ∧ (∀ w, w ∈ r.1 →
           ∃ kind, kind_enabled pc kind = true ∧ w ∈ (wp kind).1)
      ∧ (r.2 = false →
         ∀ kind w, kind_enabled pc kind = true → w ∈ (wp kind).1 → w ∈ r.1).
Proof.
  intros Hon. unfold create_playlists. rewrite Hon. simpl.
  pose proof (foldl_grouped entries) as (Hg & Hy & Ha).
  destruct (foldl group_visit ([], [], []) entries) as [[g y] a].
  simpl in Hg, Hy, Ha.
  exists (λ kind, match kind with ByGenre => g | ByYear => y | ByArtist => a end).
  split; [by intros []|]. unfold playlist_round. simpl.
  destruct (cfg_create_by_genre pc) eqn:Hbg, (cfg_create_by_year pc) eqn:Hby,
    (cfg_create_by_artist pc) eqn:Hba; simpl;
    repeat match goal with
    | |- context [(playlists ?o ?d ?t ?m ?x).2] =>
        let H := fresh "Hr" in
        destruct (playlists o d t m x).2 eqn:H; simpl
    end;
    (split_and!;
     [ split;
       [ intros Ht; try done;
         first [ by (exists ByGenre; simpl; rewrite ?Hbg; split)
               | by (exists ByYear; simpl; rewrite ?Hby; split)
               | by (exists ByArtist; simpl; rewrite ?Hba; split) ]
       | intros [[] [He Hx]]; simpl in He, Hx; congruence ]
     | intros w Hw; rewrite ?elem_of_app in Hw;
       repeat match goal with
       | H : _ ∨ _ |- _ => destruct H
       | H : _ ∈ [] |- _ => by apply elem_of_nil in H
       end;
       first [ by (exists ByGenre; simpl; rewrite ?Hbg; split)
             | by (exists ByYear; simpl; rewrite ?Hby; split)
             | by (exists ByArtist; simpl; rewrite ?Hba; split) ]
     | intros Hok [] w He Hw; simpl in He, Hw; try congruence;
       rewrite ?elem_of_app; auto ]).
Qed.


Lemma m3u_line_None (org : PurePath) (fi : Placed) :
  line org fi = None
  ↔ target_path fi = None ∨ ∃ t, target_path fi = Some t ∧ ¬ below org t.
Proof.
  unfold m3u_line, below.
  destruct (target_path fi) as [t|]; [|split; [by left | done]].
  pose proof (relative_to_Some t org) as Hrel.
  destruct (relative_to t org) as [rel|].
  - split; [done|]. intros [[=]|(t' & [= <-] & Hnot)].
    exfalso. apply Hnot, Hrel. by eexists.
  - split; [|done]. intros _. right. exists t. split; [done|].
    intros Hb. apply Hrel in Hb as [? [=]].
Qed.

Lemma create_playlists_raised (pc : PlaylistConfig) (org : PurePath)
    (entries : list Placed) :
  (create_playlists path_str pc org entries).2 = true
  ↔ cfg_create_playlists pc = true
    ∧ ∃ kind key fi,
        kind_enabled pc kind = true
        ∧ (cfg_min_songs pc
           ≤ Z.of_nat (length (kind_group kind key entries)))%Z
        ∧ fi ∈ kind_group kind key entries
        ∧ line org fi = None.
Proof.
  destruct (cfg_create_playlists pc) eqn:Hon.
  - destruct (create_playlists_rounds pc org entries Hon)
      as (data & Hdata & Hraise & _).
    rewrite Hraise. split.
    + intros (kind & Hen & (k & xs & Hd & Hlen & Hx)%write_playlists_raised).
      apply (Hdata kind) in Hd as [-> _].
      apply write_lines_raised in Hx as (fi & Hfi & Hn).
      split; [done|]. by exists kind, k, fi.
    + intros (_ & kind & key & fi & Hen & Hlen & Hfi & Hn).
      exists kind. split; [done|]. apply write_playlists_raised.
      exists key, (kind_group kind key entries). split_and!; [|done|].
      * apply (Hdata kind). split; [done|]. intros Hnil.
        rewrite Hnil in Hfi. by apply elem_of_nil in Hfi.
      * apply write_lines_raised. by exists fi.
  - unfold create_playlists. rewrite Hon. simpl.
    split; [done | by intros [? _]].
Qed.

Lemma create_playlists_quiet (pc : PlaylistConfig) (org : PurePath)
    (entries : list Placed) :
  (∀ fi, fi ∈ entries → ∃ t, target_path fi = Some t ∧ below org t) →
  (create_playlists path_str pc org entries).2 = false.
Proof.
  intros Hall.
  destruct (create_playlists path_str pc org entries).2 eqn:Hr; [|done].
  apply create_playlists_raised in Hr
    as (_ & kind & key & fi & _ & _ & Hfi & Hn).
  apply list_elem_of_filter in Hfi as [_ Hfi].
  destruct (Hall fi Hfi) as (t & Ht & Hb).
  apply m3u_line_None in Hn as [Hn|(t' & Ht' & Hnb)]; [congruence|].
  rewrite Ht in Ht'. injection Ht' as <-. done.
Qed.


End PlaylistFacts.

(** ** The copy phase followed by the playlists *)

Lemma target_or_none (l : list Placed) :
  (∀ e, e ∈ l → is_Some (target_path e))
  ∨ ∃ e, e ∈ l ∧ target_path e = None.
Proof.
  induction l as [|e l [IH|(e' & Hin & Hn)]].
  - left. by intros e ?%elem_of_nil.
  - destruct (target_path e) as [t|] eqn:Ht.
    + left. intros e' [->|Hin]%elem_of_cons; [by rewrite Ht | by apply IH].
    + right. exists e. split; [by left | done].
  - right. exists e'. split; [by right | done].
Qed.

Section CopyThenPlaylists.

Variable mkdir_raises : gset PurePath → PurePath → bool.
Variable copy2_raises : PurePath → PurePath → bool.
Variable path_str : PurePath → str.


End CopyThenPlaylists.


